(** * git_asistant: session ledger, file browser, dispatcher and rollback

    A shallow embedding of [git_asistant.py].  The program is an interactive
    console tool: it asks the operator questions, spawns [git] and [gh]
    processes and keeps three global ledgers that the Ctrl+C handler reads
    to undo what the session did.

    The embedding keeps that shape.  The three globals are a record that is
    threaded through every function; everything the program learns from the
    outside (process results, operator answers, directory listings) comes
    from an environment of oracles indexed by the number of interactions
    made so far; everything it does to the outside (processes spawned,
    text printed) is appended to a chronological trace. *)

From Stdlib Require Import ZArith String Ascii List Sorted.
From stdpp Require Import base option list gmap strings.

Local Open Scope string_scope.
Local Open Scope list_scope.
Local Open Scope Z_scope.

(** ** Python strings

    A Python [str] is kept as its UTF-8 encoding, byte by byte, which is also
    how the string literals of this file are read; a [str] with lone
    surrogates has no such encoding and is not covered.  Equality, prefixes
    and the lexicographic order of the encodings are those of the code point
    sequences.

    [strip], [splitlines] and [int] follow CPython 3.11 (Unicode 14.0, at
    most 4300 digits for [int]) on every string.  [lower] lowers the letters
    A to Z and nothing else.  That is [str.lower] on ASCII text.  On any
    text it decides rightly whether the lowered string is [l] or [b], the
    two comparisons the browser makes, since no other character lowers to
    these letters.  Where names are sorted by their lowered form the two can
    differ beyond ASCII; the statements about the order of a listing are
    made for ASCII names. *)

Module Py.

Definition byte (c : ascii) : Z := Z.of_nat (nat_of_ascii c).

Definition continuation (c : ascii) : bool :=
  (128 <=? byte c) && (byte c <? 192).

(** The first character of [s]: its code point, its spelling and the rest of
    [s].  A byte that begins no well-formed sequence is taken as a character
    of its own, with a negative number for code point. *)
Definition next (s : string) : option (Z * string * string) :=
  match s with
  | EmptyString => None
  | String a s1 =>
      let x := byte a in
      let stray := Some (x - 256, String a EmptyString, s1) in
      if x <? 128 then Some (x, String a EmptyString, s1)
      else if x <? 194 then stray
      else
        match s1 with
        | String b s2 =>
            if negb (continuation b) then stray
            else if x <? 224 then
              Some ((x - 192) * 64 + (byte b - 128),
                    String a (String b EmptyString), s2)
            else
              match s2 with
              | String c s3 =>
                  if negb (continuation c) then stray
                  else if x <? 240 then
                    let cp := (x - 224) * 4096 + (byte b - 128) * 64
                              + (byte c - 128) in
                    if (cp <? 0x800) || ((0xD800 <=? cp) && (cp <? 0xE000))
                    then stray
                    else Some (cp, String a (String b (String c EmptyString)), s3)
                  else
                    match s3 with
                    | String d s4 =>
                        let cp := (x - 240) * 262144 + (byte b - 128) * 4096
                                  + (byte c - 128) * 64 + (byte d - 128) in
                        if continuation d && (0x10000 <=? cp) && (cp <? 0x110000)
                        then Some (cp,
                                   String a (String b (String c (String d EmptyString))),
                                   s4)
                        else stray
                    | EmptyString => stray
                    end
              | EmptyString => stray
              end
        | EmptyString => stray
        end
  end.

Fixpoint chars_go (fuel : nat) (s : string) : list (Z * string) :=
  match fuel with
  | O => []
  | S fuel' =>
      match next s with
      | Some (cp, spelling, rest) => (cp, spelling) :: chars_go fuel' rest
      | None => []
      end
  end.

(** The characters of [s], each with its spelling. *)
Definition chars (s : string) : list (Z * string) := chars_go (String.length s) s.

Definition text (l : list (Z * string)) : string :=
  foldr (fun c s => c.2 +:+ s) EmptyString l.

(** [str.isspace] on one character. *)
Definition isspace (cp : Z) : bool :=
  ((9 <=? cp) && (cp <=? 13)) || ((28 <=? cp) && (cp <=? 32))
  || (cp =? 0x85) || (cp =? 0xA0) || (cp =? 0x1680)
  || ((0x2000 <=? cp) && (cp <=? 0x200A))
  || (cp =? 0x2028) || (cp =? 0x2029) || (cp =? 0x202F) || (cp =? 0x205F)
  || (cp =? 0x3000).

Fixpoint drop_spaces (l : list (Z * string)) : list (Z * string) :=
  match l with
  | c :: l' => if isspace c.1 then drop_spaces l' else l
  | [] => []
  end.

Definition lstrip (s : string) : string := text (drop_spaces (chars s)).

Definition rstrip (s : string) : string :=
  text (rev (drop_spaces (rev (chars s)))).

Definition strip (s : string) : string := rstrip (lstrip s).

(** Line boundaries of [str.splitlines]: LF, VT, FF, CR, CR LF, FS, GS, RS,
    NEL, LINE SEPARATOR, PARAGRAPH SEPARATOR. *)
Definition is_linebreak (cp : Z) : bool :=
  ((10 <=? cp) && (cp <=? 13)) || ((28 <=? cp) && (cp <=? 30))
  || (cp =? 0x85) || (cp =? 0x2028) || (cp =? 0x2029).

Fixpoint splitlines_go (cur : string) (l : list (Z * string)) : list string :=
  match l with
  | [] => if String.eqb cur EmptyString then [] else [cur]
  | c :: l' =>
      if c.1 =? 13 then
        match l' with
        | d :: l'' =>
            if d.1 =? 10
            then cur :: splitlines_go EmptyString l''
            else cur :: splitlines_go EmptyString l'
        | [] => [cur]
        end
      else if is_linebreak c.1 then cur :: splitlines_go EmptyString l'
      else splitlines_go (cur +:+ c.2) l'
  end.

Definition splitlines (s : string) : list string :=
  splitlines_go EmptyString (chars s).

Definition lower_ascii (c : ascii) : ascii :=
  let n := nat_of_ascii c in
  if (65 <=? n)%nat && (n <=? 90)%nat then ascii_of_nat (n + 32) else c.

Fixpoint lower (s : string) : string :=
  match s with
  | EmptyString => EmptyString
  | String c s' => String (lower_ascii c) (lower s')
  end.

(** [str.isascii] *)
Fixpoint isascii (s : string) : bool :=
  match s with
  | EmptyString => true
  | String c s' => (byte c <? 128) && isascii s'
  end.

Definition startswith (s pre : string) : bool := String.prefix pre s.

Definition join (sep : string) (l : list string) : string :=
  String.concat sep l.

(** Truth value of a string: non-empty. *)
Definition truthy (s : string) : bool := negb (String.eqb s EmptyString).

(** The code points of the digit zero of every decimal number system; the
    nine that follow each are its digits one to nine. *)
Definition decimal_zeros : list Z :=
  [ 0x30; 0x660; 0x6f0; 0x7c0; 0x966; 0x9e6; 0xa66; 0xae6; 0xb66; 0xbe6;
    0xc66; 0xce6; 0xd66; 0xde6; 0xe50; 0xed0; 0xf20; 0x1040; 0x1090; 0x17e0;
    0x1810; 0x1946; 0x19d0; 0x1a80; 0x1a90; 0x1b50; 0x1bb0; 0x1c40; 0x1c50;
    0xa620; 0xa8d0; 0xa900; 0xa9d0; 0xa9f0; 0xaa50; 0xabf0; 0xff10; 0x104a0;
    0x10d30; 0x11066; 0x110f0; 0x11136; 0x111d0; 0x112f0; 0x11450; 0x114d0;
    0x11650; 0x116c0; 0x11730; 0x118e0; 0x11950; 0x11c50; 0x11d50; 0x11da0;
    0x16a60; 0x16ac0; 0x16b50; 0x1d7ce; 0x1d7d8; 0x1d7e2; 0x1d7ec; 0x1d7f6;
    0x1e140; 0x1e2f0; 0x1e950; 0x1fbf0 ].

(** The value of a decimal digit. *)
Definition decimal (cp : Z) : option Z :=
  (fun zero => cp - zero)
    <$> List.find (fun zero => (zero <=? cp) && (cp <=? zero + 9)) decimal_zeros.

(** What [int] does first: characters below 127 are kept, any other white
    space becomes a space and any other decimal digit its ASCII digit; any
    other character makes the conversion fail. *)
Fixpoint to_ascii (l : list (Z * string)) : option (list Z) :=
  match l with
  | [] => Some []
  | c :: l' =>
      let cp := c.1 in
      match (if cp <? 0 then None
             else if cp <? 127 then Some cp
             else if isspace cp then Some 32
             else (fun d => 48 + d) <$> decimal cp),
            to_ascii l' with
      | Some a, Some rest => Some (a :: rest)
      | _, _ => None
      end
  end.

(** White space for the number parser: TAB LF VT FF CR and SPACE. *)
Definition c_isspace (a : Z) : bool := ((9 <=? a) && (a <=? 13)) || (a =? 32).

Fixpoint skip_spaces (l : list Z) : list Z :=
  match l with
  | a :: l' => if c_isspace a then skip_spaces l' else l
  | [] => []
  end.

(** [sys.int_max_str_digits], at its default. *)
Definition max_str_digits : Z := 4300.

(** Decimal digits with single underscores between them, at most
    [max_str_digits] digits. *)
Fixpoint digits_go (acc count : Z) (prev_digit : bool) (l : list Z) : option Z :=
  match l with
  | [] => if prev_digit && (count <=? max_str_digits) then Some acc else None
  | a :: l' =>
      if (48 <=? a) && (a <=? 57) then digits_go (10 * acc + (a - 48)) (count + 1) true l'
      else if (a =? 95) && prev_digit then digits_go acc count false l'
      else None
  end.

(** [int(s)]: optional surrounding white space, an optional sign, digits;
    [None] is [ValueError]. *)
Definition int (s : string) : option Z :=
  match to_ascii (chars s) with
  | Some l =>
      match rev (skip_spaces (rev (skip_spaces l))) with
      | 43 :: l' => digits_go 0 0 false l'
      | 45 :: l' => Z.opp <$> digits_go 0 0 false l'
      | l' => digits_go 0 0 false l'
      end
  | None => None
  end.

End Py.

Definition LF : string := String (ascii_of_nat 10) EmptyString.

Definition NBSP : string :=
  String (ascii_of_nat 194) (String (ascii_of_nat 160) EmptyString).
Definition NEL : string :=
  String (ascii_of_nat 194) (String (ascii_of_nat 133) EmptyString).
Definition FS : string := String (ascii_of_nat 28) EmptyString.

Example strip_ex : Py.strip ("  main" +:+ LF) = "main".
Proof. reflexivity. Qed.

Example strip_unicode_ex :
  Py.strip ("dev" +:+ NBSP +:+ LF) = "dev" /\ Py.strip (FS +:+ "dev" +:+ NEL) = "dev"
  /\ Py.strip ("é" +:+ NBSP) = "é".
Proof. repeat split; vm_compute; reflexivity. Qed.

Example splitlines_ex :
  Py.splitlines ("main" +:+ LF +:+ "dev" +:+ LF) = ["main"; "dev"].
Proof. reflexivity. Qed.

Example splitlines_unicode_ex :
  Py.splitlines ("main" +:+ NEL +:+ "dev" +:+ LF) = ["main"; "dev"].
Proof. vm_compute. reflexivity. Qed.

Example int_ex : Py.int " 12 " = Some 12 /\ Py.int "1_0" = Some 10
  /\ Py.int "b" = None /\ Py.int "-3" = Some (-3) /\ Py.int EmptyString = None.
Proof. repeat split; reflexivity. Qed.

Example int_unicode_ex :
  Py.int "２" = Some 2 /\ Py.int ("٣" +:+ NBSP) = Some 3
  /\ Py.int (FS +:+ "1") = None /\ Py.int "²" = None.
Proof. repeat split; vm_compute; reflexivity. Qed.

Definition zeros (n : nat) : string := String.concat EmptyString (replicate n "0").

Example int_limit_ex :
  Py.int (zeros 4299 +:+ "1") = Some 1 /\ Py.int (zeros 4300 +:+ "1") = None.
Proof. split; vm_compute; reflexivity. Qed.

(** Only [l], [L] and [b], [B] lower to the two letters the browser takes
    for commands. *)
Lemma lower_command s letter :
  letter = "l"%char \/ letter = "b"%char ->
  Py.lower s = String letter EmptyString
  <-> s = String letter EmptyString
      \/ s = String (ascii_of_nat (nat_of_ascii letter - 32)) EmptyString.
Proof.
  intros Hl. destruct s as [|c [|d s]].
  - split; [discriminate|]. intros [H|H]; discriminate H.
  - cbn [Py.lower]. split.
    + intros [= H].
      destruct c as [[] [] [] [] [] [] [] []];
        destruct Hl as [-> | ->]; vm_compute in H; try discriminate H;
        vm_compute; auto.
    + intros [[= ->]|[= ->]]; destruct Hl as [-> | ->]; reflexivity.
  - split; [discriminate|]. intros [H|H]; discriminate H.
Qed.

(** ** Paths

    A [pathlib] path is kept as its list of components below the file-system
    root (POSIX flavour, as in the spec's examples). *)

Abbreviation Path := (list string).

Definition path_str (p : Path) : string := "/" +:+ Py.join "/" p.

(** [p / name] for a single component. *)
Definition path_child (p : Path) (name : string) : Path := p ++ [name].

(** [p.parent] *)
Definition path_parent (p : Path) : Path := removelast p.

(** [p.relative_to(base)]: the components after [base]; [None] is the
    [ValueError] raised when [base] is not a prefix. *)
Fixpoint relative_to (p base : Path) : option (list string) :=
  match base, p with
  | [], _ => Some p
  | b :: base', x :: p' => if decide (b = x) then relative_to p' base' else None
  | _ :: _, [] => None
  end.

(** [str] of a relative path. *)
Definition rel_str (parts : list string) : string :=
  match parts with
  | [] => "."
  | _ => Py.join "/" parts
  end.

(** ** Session state: the three module-level globals *)

Record Session := mkSession {
  TOUCHED_REPOS : list Path;
  FILES_ADDED_BY_REPO : gmap string (list string);
  BRANCH_CHANGED : gmap string (string * string)
}.

Definition empty_session : Session := mkSession [] ∅ ∅.

(** ** The outside world *)

Inductive Exn :=
| RuntimeError      (* raised by [run_git] with [check=True] *)
| FileNotFoundError (* [subprocess.run]: the executable does not exist *)
| OSError           (* any other failure to spawn or to list *)
| NameError
| ValueError.

Record CompletedProcess := mkProc {
  returncode : Z;
  stdout : string;
  stderr : string
}.

(** What [subprocess.run] does: it completes, or it raises. *)
Inductive Spawned :=
| Completed (cp : CompletedProcess)
| SpawnFails (e : Exn).

(** One entry of a directory as the browser sees it: its name and the
    answers of [is_dir()] and [is_file()]. *)
Record DirEntry := mkEntry {
  entry_name : string;
  entry_is_dir : bool;
  entry_is_file : bool
}.

Inductive Listing :=
| Entries (l : list DirEntry)
| PermissionError
| ListingFails (e : Exn).

(** Everything the program reads from outside, as a function of the number
    of interactions already made (and of the arguments of the call). *)
Record Env := mkEnv {
  subprocess_run : nat -> list string -> option Path -> Spawned;
  Prompt_ask : nat -> string;
  Confirm_ask : nat -> bool;
  inquirer_select : nat -> string;
  input_line : nat -> string;
  iterdir : nat -> Path -> Listing;
  path_exists : nat -> Path -> string -> bool
}.

(** Console output.  One constructor per [console.print] of the modelled
    functions; the payload is what the format string interpolates. *)
Inductive Msg :=
| PanelStdout (s : string)
| PanelStderr (s : string)
(* browse_and_select_files *)
| BrowseTable (current : Path) (rows : list (Z * string * string))
| NoPermission
| SelectedSoFar (rels : list string)
| NothingSelectedYet
| Removed (rel : string)
| NothingToRemove
| InvalidInput
| IndexOutOfRange
| FinalSelection (rels : list string)
| AlreadySelected
| Added (rel : string) (count : nat)
(* add_and_commit *)
| NoFilesGiven
| DoesNotExist (f : string)
| NoValidFiles
| EmptyMessageCancel
| MaybeNothingToCommit
(* maybe_stage_and_commit *)
| NoUncommittedChanges
| PanelChangesDetected (s : string)
| NotAddingChanges
(* do_action *)
| GhMissing
| GhInstallHint
| PanelGhStdout (s : string)
| PanelGhStderr (s : string)
| PrFailed
| PrCreated
(* ask_branch_flow *)
| PanelCurrentBranch (b : string)
| NoLocalBranches
| EmptyBranchName
(* rollback *)
| PanelReverting (repo : Path)
| ExitingReverting.

Inductive Event :=
| Spawn (cmd : list string) (cwd : option Path)
| Print (m : Msg).

Record World := mkWorld {
  ledger : Session;
  trace : list Event;   (* chronological *)
  now : nat             (* interactions made so far *)
}.

Definition init_world : World := mkWorld empty_session [] 0.

(** ** The effect monad: state, exceptions, [sys.exit] *)

Inductive Res (A : Type) :=
| Ret (a : A)
| Raise (e : Exn)
| SysExit (code : Z)
| Running.            (* the loop is still waiting when the fuel runs out *)
Arguments Ret {A} a.
Arguments Raise {A} e.
Arguments SysExit {A} code.
Arguments Running {A}.

Definition M (A : Type) : Type := World -> Res A * World.

Definition ret {A} (a : A) : M A := fun w => (Ret a, w).

Definition bind {A B} (m : M A) (k : A -> M B) : M B :=
  fun w =>
    match m w with
    | (Ret a, w') => k a w'
    | (Raise e, w') => (Raise e, w')
    | (SysExit c, w') => (SysExit c, w')
    | (Running, w') => (Running, w')
    end.

Declare Scope prog_scope.
Delimit Scope prog_scope with prog.
Notation "x <- m ;; k" := (bind m (fun x => k))
  (at level 100, m at next level, right associativity) : prog_scope.
Notation "m ;; k" := (bind m (fun _ => k))
  (at level 100, right associativity) : prog_scope.
Local Open Scope prog_scope.

Definition raise {A} (e : Exn) : M A := fun w => (Raise e, w).
Definition sys_exit {A} (code : Z) : M A := fun w => (SysExit code, w).

Definition emit (e : Event) : M unit :=
  fun w => (Ret tt, mkWorld (ledger w) (trace w ++ [e]) (now w)).

Definition console_print (m : Msg) : M unit := emit (Print m).

Definition when (b : bool) (m : M unit) : M unit := if b then m else ret tt.

(** [try: body  except Exception: pass].  [SystemExit] is not an
    [Exception] and passes through. *)
Definition try_except_pass (body : M unit) : M unit :=
  fun w =>
    match body w with
    | (Raise _, w') => (Ret tt, w')
    | r => r
    end.

(** [try: body  finally: fin].  The [finally] block always runs; when it
    completes normally the outcome of [body] stands, otherwise its own
    exception or exit replaces it. *)
Definition try_finally {A} (body : M A) (fin : M unit) : M A :=
  fun w =>
    let (r, w') := body w in
    match fin w' with
    | (Ret _, w'') => (r, w'')
    | (Raise e, w'') => (Raise e, w'')
    | (SysExit c, w'') => (SysExit c, w'')
    | (Running, w'') => (Running, w'')
    end.

Definition get_ledger : M Session := fun w => (Ret (ledger w), w).

Definition set_ledger (s : Session) : M unit :=
  fun w => (Ret tt, mkWorld s (trace w) (now w)).

Section Program.

Context (env : Env).

(** Asking the environment: the answer is the oracle's at the current
    instant, and the instant advances. *)
Definition ask {A} (oracle : nat -> A) : M A :=
  fun w => (Ret (oracle (now w)), mkWorld (ledger w) (trace w) (S (now w))).

Definition spawn (cmd : list string) (cwd : option Path) : M CompletedProcess :=
  emit (Spawn cmd cwd);;
  r <- ask (fun t => subprocess_run env t cmd cwd);;
  match r with
  | Completed cp => ret cp
  | SpawnFails e => raise e
  end.

(** [run_git] *)
Definition run_git (repo : Path) (args : list string) (check : bool)
  : M CompletedProcess :=
  proc <- spawn ("git" :: args) (Some repo);;
  when (Py.truthy (Py.strip (stdout proc)))
       (console_print (PanelStdout (Py.strip (stdout proc))));;
  when (Py.truthy (Py.strip (stderr proc)))
       (console_print (PanelStderr (Py.strip (stderr proc))));;
  if check && negb (returncode proc =? 0)
  then raise RuntimeError
  else ret proc.

(** ** The file browser *)

Inductive Kind := KControl | KDir | KFile.

(** A value of [index_map]: [(kind, target, label)]. *)
Record Row := mkRow {
  row_kind : Kind;
  row_target : option Path;
  row_label : string
}.

(** A line of the menu: the two cells printed after the index, and the
    [index_map] value stored under the same index. *)
Record MenuItem := mkItem {
  item_typ : string;
  item_shown : string;
  item_row : Row
}.

(** The local variables of [browse_and_select_files] that live across
    iterations. *)
Record Browser := mkBrowser {
  current : Path;
  selected : list Path;
  visited_files : gset string
}.

(** The sort key [(p.is_file(), p.name.lower())], compared as Python compares
    tuples: [False] before [True], then the names. *)
Definition key_le (a b : DirEntry) : bool :=
  match entry_is_file a, entry_is_file b with
  | false, true => true
  | true, false => false
  | _, _ => String.leb (Py.lower (entry_name a)) (Py.lower (entry_name b))
  end.

Fixpoint insert_sorted (x : DirEntry) (l : list DirEntry) : list DirEntry :=
  match l with
  | [] => [x]
  | y :: l' => if key_le x y then x :: l else y :: insert_sorted x l'
  end.

(** [sorted(entries, key=...)]; stable, as Python's sort is. *)
Definition sorted_entries (l : list DirEntry) : list DirEntry :=
  foldr insert_sorted [] l.

Definition selected_mark : string := " [green](seleccionado)[/green]".

Definition control_items (repo_path cur : Path) : list MenuItem :=
  (if decide (cur = repo_path) then []
   else [mkItem "[Subir]" ".." (mkRow KControl (Some (path_parent cur)) "..")])
  ++ [mkItem "[OK]" "[Terminar selección]"
             (mkRow KControl None "[Terminar selección]")].

Definition dir_items (cur : Path) (dir_entries : list DirEntry) : list MenuItem :=
  (fun d => mkItem "dir" (entry_name d +:+ "/")
                   (mkRow KDir (Some (path_child cur (entry_name d))) (entry_name d)))
    <$> filter (fun p => Is_true (entry_is_dir p)) dir_entries.

Definition file_items (cur : Path) (sel : list Path)
    (dir_entries : list DirEntry) : list MenuItem :=
  (fun f =>
     let p := path_child cur (entry_name f) in
     mkItem "file"
            (entry_name f +:+ (if bool_decide (p ∈ sel) then selected_mark
                               else EmptyString))
            (mkRow KFile (Some p) (entry_name f)))
    <$> filter (fun p => Is_true (entry_is_file p)) dir_entries.

(** The three numbering loops: rows get consecutive indices from [idx]. *)
Fixpoint number_items (idx : Z) (items : list MenuItem)
    (table : list (Z * string * string)) (index_map : gmap Z Row)
  : list (Z * string * string) * gmap Z Row :=
  match items with
  | [] => (table, index_map)
  | it :: rest =>
      number_items (idx + 1) rest
                   (table ++ [(idx, item_typ it, item_shown it)])
                   (<[idx := item_row it]> index_map)
  end.

Definition build_menu (repo_path : Path) (b : Browser)
    (dir_entries : list DirEntry)
  : list (Z * string * string) * gmap Z Row :=
  number_items 1
    (control_items repo_path (current b)
     ++ dir_items (current b) dir_entries
     ++ file_items (current b) (selected b) dir_entries)
    [] ∅.

(** [str(f.relative_to(repo_path))] *)
Definition rel_of (repo_path f : Path) : M string :=
  match relative_to f repo_path with
  | Some parts => ret (rel_str parts)
  | None => raise ValueError
  end.

Fixpoint rels_of (repo_path : Path) (l : list Path) : M (list string) :=
  match l with
  | [] => ret []
  | f :: rest =>
      r <- rel_of repo_path f;;
      rs <- rels_of repo_path rest;;
      ret (r :: rs)
  end.

(** What one pass through the body of [while True] ends with. *)
Inductive Next :=
| Continue (b : Browser)
| Return (result : list string).

(** The "[Terminar selección]" branch. *)
Definition finish (repo_path : Path) (b : Browser) : M Next :=
  match selected b with
  | [] =>
      yes <- ask (Confirm_ask env);;
      if yes : bool then ret (Return []) else ret (Continue b)
  | _ =>
      rels <- rels_of repo_path (selected b);;
      console_print (FinalSelection rels);;
      yes <- ask (Confirm_ask env);;
      if yes : bool
      then (result <- rels_of repo_path (selected b);; ret (Return result))
      else ret (Continue b)
  end.

(** The [kind == "file"] branch. *)
Definition choose_file (repo_path : Path) (b : Browser) (fpath : Path) : M Next :=
  if bool_decide (fpath ∈ selected b) then
    console_print AlreadySelected;;
    ret (Continue b)
  else
    let b' := mkBrowser (current b) (selected b ++ [fpath])
                        ({[path_str fpath]} ∪ visited_files b) in
    rel <- rel_of repo_path fpath;;
    console_print (Added rel (length (selected b')));;
    ret (Continue b').

(** The "b" command: [selected.pop()]. *)
Definition remove_last (repo_path : Path) (b : Browser) : M Next :=
  match last (selected b) with
  | Some removed =>
      let b' := mkBrowser (current b) (removelast (selected b)) (visited_files b) in
      rel <- rel_of repo_path removed;;
      console_print (Removed rel);;
      ret (Continue b')
  | None =>
      console_print NothingToRemove;;
      ret (Continue b)
  end.

(** The "l" command. *)
Definition list_selection (repo_path : Path) (b : Browser) : M Next :=
  match selected b with
  | [] => console_print NothingSelectedYet
  | _ => rels <- rels_of repo_path (selected b);;
         console_print (SelectedSoFar rels)
  end;;
  ask (input_line env);;
  ret (Continue b).

(** What follows [kind, target, label = index_map[num]].  Only the finish
    control is stored with target [None]; the two [ValueError] branches stand
    for rows that [build_menu] never produces. *)
Definition dispatch_row (repo_path : Path) (b : Browser) (r : Row) : M Next :=
  match row_kind r, row_target r with
  | KControl, Some target =>
      if String.eqb (row_label r) ".."
      then ret (Continue (mkBrowser target (selected b) (visited_files b)))
      else finish repo_path b
  | KControl, None =>
      if String.eqb (row_label r) ".."
      then raise ValueError
      else finish repo_path b
  | KDir, Some target =>
      ret (Continue (mkBrowser target (selected b) (visited_files b)))
  | KFile, Some fpath => choose_file repo_path b fpath
  | _, None => raise ValueError
  end.

(** One pass through the body of the [while True] loop. *)
Definition browse_iter (repo_path : Path) (b : Browser) : M Next :=
  listing <- ask (fun t => iterdir env t (current b));;
  dir_entries <-
    match listing with
    | Entries l => ret (sorted_entries l)
    | PermissionError => console_print NoPermission;; ret []
    | ListingFails e => raise e
    end;;
  let '(table, index_map) := build_menu repo_path b dir_entries in
  console_print (BrowseTable (current b) table);;
  choice <- ask (Prompt_ask env);;
  if negb (Py.truthy choice) then ret (Continue b)
  else
    when (String.eqb (Py.strip choice) "¡") (raise NameError);;
    if String.eqb (Py.lower choice) "l" then list_selection repo_path b
    else if String.eqb (Py.lower choice) "b" then remove_last repo_path b
    else
      match Py.int choice with
      | None => console_print InvalidInput;; ret (Continue b)
      | Some num =>
          match index_map !! num with
          | None => console_print IndexOutOfRange;; ret (Continue b)
          | Some r => dispatch_row repo_path b r
          end
      end.

Definition running {A} : M A := fun w => (Running, w).

Fixpoint browse_loop (fuel : nat) (repo_path : Path) (b : Browser)
  : M (list string) :=
  match fuel with
  | O => running
  | S fuel' =>
      next <- browse_iter repo_path b;;
      match next with
      | Continue b' => browse_loop fuel' repo_path b'
      | Return result => ret result
      end
  end.

(** [browse_and_select_files]; [fuel] bounds the passes through the loop. *)
Definition browse_and_select_files (fuel : nat) (repo_path : Path)
  : M (list string) :=
  browse_loop fuel repo_path (mkBrowser repo_path [] ∅).

(** [get_branches] *)
Definition get_branches (repo : Path) : M (string * list string) :=
  cur <- run_git repo ["rev-parse"; "--abbrev-ref"; "HEAD"] false;;
  loc <- run_git repo ["branch"; "--format"; "%(refname:short)"] false;;
  ret (Py.strip (stdout cur),
       Py.strip <$>
         filter (fun b => Is_true (Py.truthy (Py.strip b)))
                (Py.splitlines (Py.strip (stdout loc)))).

(** [checkout_branch] *)
Definition checkout_branch (repo : Path) (branch : string) (create : bool)
  : M unit :=
  if create
  then run_git repo ["checkout"; "-b"; branch] true;; ret tt
  else run_git repo ["checkout"; branch] true;; ret tt.

(** [BRANCH_CHANGED[str(repo)] = (old, new)] *)
Definition set_branch_changed (repo : Path) (old new : string) : M unit :=
  s <- get_ledger;;
  set_ledger (mkSession (TOUCHED_REPOS s) (FILES_ADDED_BY_REPO s)
                        (<[path_str repo := (old, new)]> (BRANCH_CHANGED s))).

(** The tail of [ask_branch_flow] below the comment "Crear nueva". *)
Definition create_new_branch (repo : Path) (current : string) : M string :=
  answer <- ask (Prompt_ask env);;
  let new_name := Py.strip answer in
  if negb (Py.truthy new_name)
  then console_print EmptyBranchName;; sys_exit 1
  else
    set_branch_changed repo current new_name;;
    checkout_branch repo new_name true;;
    ret new_name.

(** [ask_branch_flow] *)
Definition ask_branch_flow (repo : Path) : M string :=
  cb <- get_branches repo;;
  let '(current, branches) := cb in
  console_print (PanelCurrentBranch current);;
  action <- ask (inquirer_select env);;
  if String.eqb action "existing" then
    match branches with
    | [] =>
        console_print NoLocalBranches;;
        create_new_branch repo current
    | _ =>
        choice <- ask (inquirer_select env);;
        when (negb (String.eqb choice current))
             (set_branch_changed repo current choice;;
              checkout_branch repo choice false);;
        ret choice
    end
  else create_new_branch repo current.

(** [TOUCHED_REPOS.append(repo)] *)
Definition touch (repo : Path) : M unit :=
  s <- get_ledger;;
  set_ledger (mkSession (TOUCHED_REPOS s ++ [repo]) (FILES_ADDED_BY_REPO s)
                        (BRANCH_CHANGED s)).

(** [FILES_ADDED_BY_REPO.setdefault(str(repo), []).extend(fs)]; [append(x)]
    is the case [fs = [x]]. *)
Definition record_staged (repo : Path) (fs : list string) : M unit :=
  s <- get_ledger;;
  let old := default [] (FILES_ADDED_BY_REPO s !! path_str repo) in
  set_ledger (mkSession (TOUCHED_REPOS s)
                        (<[path_str repo := old ++ fs]> (FILES_ADDED_BY_REPO s))
                        (BRANCH_CHANGED s)).

(** The validation loop of [add_and_commit]: keeps the files that exist. *)
Fixpoint existing_files (repo : Path) (files : list string) : M (list string) :=
  match files with
  | [] => ret []
  | f :: rest =>
      here <- ask (fun t => path_exists env t repo f);;
      (if here : bool then ret tt else console_print (DoesNotExist f));;
      ok <- existing_files repo rest;;
      ret (if here then f :: ok else ok)
  end.

(** The part of [add_and_commit] below the comment "commit". *)
Definition commit_step (repo : Path) : M unit :=
  answer <- ask (Prompt_ask env);;
  let msg := Py.strip answer in
  if negb (Py.truthy msg)
  then console_print EmptyMessageCancel
  else
    cp <- run_git repo ["commit"; "-m"; msg] false;;
    when (negb (returncode cp =? 0)) (console_print MaybeNothingToCommit).

(** The staging part of [add_and_commit]; [true] when control goes on to the
    commit, [false] for the early [return]. *)
Definition stage_step (repo : Path) (add_all : bool)
    (files : option (list string)) : M bool :=
  touch repo;;
  if add_all then
    run_git repo ["add"; "."] true;;
    record_staged repo ["."];;
    ret true
  else
    match files with
    | None | Some [] => console_print NoFilesGiven;; ret false
    | Some fs =>
        ok <- existing_files repo fs;;
        match ok with
        | [] => console_print NoValidFiles
        | _ => run_git repo ("add" :: ok) true;; record_staged repo ok
        end;;
        ret true
    end.

(** [add_and_commit] *)
Definition add_and_commit (repo : Path) (add_all : bool)
    (files : option (list string)) : M unit :=
  go_on <- stage_step repo add_all files;;
  if go_on : bool then commit_step repo else ret tt.

(** [do_action] *)
Definition do_action (repo : Path) (action : string) : M unit :=
  head <- run_git repo ["rev-parse"; "--abbrev-ref"; "HEAD"] false;;
  let current_branch := Py.strip (stdout head) in
  if String.eqb action "Pull" then
    run_git repo ["pull"; "--ff-only"] false;; ret tt
  else if String.eqb action "Fetch" then
    run_git repo ["fetch"; "--all"; "--prune"] false;; ret tt
  else if String.eqb action "Status" then
    run_git repo ["status"] false;; ret tt
  else if String.eqb action "Log (últimos 10)" then
    run_git repo ["log"; "--oneline"; "-10"; "--graph"; "--decorate"] false;;
    ret tt
  else if Py.startswith action "Push directo" then
    run_git repo ["push"; "origin"; "HEAD"] false;; ret tt
  else if Py.startswith action "Push y establecer upstream" then
    run_git repo ["push"; "-u"; "origin"; current_branch] false;; ret tt
  else if Py.startswith action "Crear Pull Request" then
    gh <- spawn ["gh"; "--version"] None;;
    if negb (returncode gh =? 0) then
      console_print GhMissing;;
      console_print GhInstallHint
    else
      title <- ask (Prompt_ask env);;
      body <- ask (Prompt_ask env);;
      base <- ask (Prompt_ask env);;
      res <- spawn ["gh"; "pr"; "create"; "--base"; base;
                    "--head"; current_branch; "--title"; title;
                    "--body"; body] (Some repo);;
      when (Py.truthy (Py.strip (stdout res)))
           (console_print (PanelGhStdout (Py.strip (stdout res))));;
      when (Py.truthy (Py.strip (stderr res)))
           (console_print (PanelGhStderr (Py.strip (stderr res))));;
      if negb (returncode res =? 0)
      then console_print PrFailed
      else console_print PrCreated
  else if String.eqb action "Cambiar/crear rama" then
    ask_branch_flow repo;; ret tt
  else ret tt.

(** [has_uncommitted_changes] *)
Definition has_uncommitted_changes (repo : Path) : M bool :=
  cp <- run_git repo ["status"; "--porcelain"] false;;
  ret (Py.truthy (Py.strip (stdout cp))).

(** [for p in picked: if p not in files: files.append(p)] *)
Definition add_picked (files picked : list string) : list string :=
  foldl (fun fs p => if bool_decide (p ∈ fs) then fs else fs ++ [p]) files picked.

(** The selection loop of [maybe_stage_and_commit]; both this loop and the
    browser's draw on [fuel]. *)
Fixpoint pick_files (fuel : nat) (repo : Path) (files : list string)
  : M (list string) :=
  match fuel with
  | O => running
  | S fuel' =>
      picked <- browse_and_select_files fuel' repo;;
      let files' := add_picked files picked in
      more <- ask (Confirm_ask env);;
      if more : bool then pick_files fuel' repo files' else ret files'
  end.

(** [maybe_stage_and_commit] *)
Definition maybe_stage_and_commit (fuel : nat) (repo : Path) : M unit :=
  dirty <- has_uncommitted_changes repo;;
  if negb dirty then console_print NoUncommittedChanges
  else
    status <- run_git repo ["status"; "--short"] false;;
    when (Py.truthy (Py.strip (stdout status)))
         (console_print (PanelChangesDetected (Py.strip (stdout status))));;
    stage <- ask (Confirm_ask env);;
    if negb stage then console_print NotAddingChanges
    else
      include_all <- ask (Confirm_ask env);;
      files <- (if include_all : bool then ret None
                else fs <- pick_files fuel repo [];; ret (Some fs));;
      add_and_commit repo include_all files.

(** The inner [while True] of [main]: the actions on one repository. *)
Fixpoint repo_loop (fuel : nat) (path : Path) : M unit :=
  match fuel with
  | O => running
  | S fuel' =>
      action <- ask (inquirer_select env);;
      if String.eqb action "Nada, salir" then ret tt
      else
        when (Py.startswith action "Push"
              || Py.startswith action "Crear Pull Request")
             (maybe_stage_and_commit fuel' path);;
        do_action path action;;
        again <- ask (Confirm_ask env);;
        if again : bool then repo_loop fuel' path else ret tt
  end.

(** [for x in l: body(x)] *)
Fixpoint for_each {A} (l : list A) (body : A -> M unit) : M unit :=
  match l with
  | [] => ret tt
  | x :: rest => body x;; for_each rest body
  end.

(** One iteration of the loop of [revert_changes]. *)
Definition revert_repo (repo : Path) : M unit :=
  try_except_pass
    (console_print (PanelReverting repo);;
     run_git repo ["restore"; "--staged"; "."] false;;
     run_git repo ["reset"; "--hard"] false;;
     run_git repo ["clean"; "-fd"] false;;
     s <- get_ledger;;
     match BRANCH_CHANGED s !! path_str repo with
     | Some (old, _) => run_git repo ["checkout"; old] false;; ret tt
     | None => ret tt
     end).

(** [revert_changes] *)
Definition revert_changes : M unit :=
  s <- get_ledger;;
  for_each (TOUCHED_REPOS s) revert_repo.

(** [handle_sigint] *)
Definition handle_sigint : M unit :=
  console_print ExitingReverting;;
  try_finally revert_changes (sys_exit 130).

End Program.

(** ** Scripted environments

    For concrete runs the environment is read off a script: the answer at
    instant [t] is the [t]-th entry.  An oracle asked at an instant whose
    entry is of another kind (or past the end) gives a neutral answer. *)

Inductive Answer :=
| AProc (r : Spawned)
| AText (s : string)
| ABool (b : bool)
| AListing (l : Listing)
| AExists (b : bool).

Definition quiet : CompletedProcess := mkProc 0 EmptyString EmptyString.

Definition says (out : string) : Answer := AProc (Completed (mkProc 0 out EmptyString)).
Definition fails_with (code : Z) : Answer :=
  AProc (Completed (mkProc code EmptyString EmptyString)).

Definition script_env (script : list Answer) : Env :=
  {| subprocess_run t _ _ :=
       match script !! t with Some (AProc r) => r | _ => Completed quiet end;
     Prompt_ask t :=
       match script !! t with Some (AText s) => s | _ => EmptyString end;
     Confirm_ask t :=
       match script !! t with Some (ABool b) => b | _ => false end;
     inquirer_select t :=
       match script !! t with Some (AText s) => s | _ => EmptyString end;
     input_line t :=
       match script !! t with Some (AText s) => s | _ => EmptyString end;
     iterdir t _ :=
       match script !! t with Some (AListing l) => l | _ => Entries [] end;
     path_exists t _ _ :=
       match script !! t with Some (AExists b) => b | _ => false end |}.

Definition a_file (name : string) : DirEntry := mkEntry name false true.
Definition a_dir (name : string) : DirEntry := mkEntry name true false.

(** ** Setting up: dependencies, readying a repository, the projects

    The functions around the core print lines of their own.  They run in
    the same way as the core, over a log that holds the events of the core
    and those lines in one chronological sequence. *)

Inductive SetupMsg :=
| Printed (line : string)              (* plain [print] *)
| NotARepository (repo : Path)
| RepositoryInitialised (repo : Path)
| RemoteConfigured (url : string)
| InitialBranchCreated (branch : string)
| NotARepositoryCancelled
| PanelProject (name : string) (path : Path)
| PanelAllDone.

Record Run := mkRun {
  run_ledger : Session;
  run_log : list (Event + SetupMsg);
  run_now : nat
}.

Definition init_run : Run := mkRun empty_session [] 0.

Definition Setup (A : Type) : Type := Run -> Res A * Run.

Definition sret {A} (a : A) : Setup A := fun r => (Ret a, r).

Definition sbind {A B} (m : Setup A) (k : A -> Setup B) : Setup B :=
  fun r =>
    match m r with
    | (Ret a, r') => k a r'
    | (Raise e, r') => (Raise e, r')
    | (SysExit c, r') => (SysExit c, r')
    | (Running, r') => (Running, r')
    end.

Declare Scope setup_scope.
Delimit Scope setup_scope with setup.
Notation "x <- m ;; k" := (sbind m (fun x => k))
  (at level 100, m at next level, right associativity) : setup_scope.
Notation "m ;; k" := (sbind m (fun _ => k))
  (at level 100, right associativity) : setup_scope.

Definition sexit {A} (code : Z) : Setup A := fun r => (SysExit code, r).

Definition say (m : SetupMsg) : Setup unit :=
  fun r => (Ret tt, mkRun (run_ledger r) (run_log r ++ [inr m]) (run_now r)).

(** A computation of the core, run at this level: it starts from the
    current ledger and instant, and what it appends to its trace is appended
    to the log. *)
Definition lift {A} (m : M A) : Setup A :=
  fun r =>
    let (res, w) := m (mkWorld (run_ledger r) [] (run_now r)) in
    (res, mkRun (ledger w) (run_log r ++ (inl <$> trace w)) (now w)).

Fixpoint sfor_each {A} (l : list A) (body : A -> Setup unit) : Setup unit :=
  match l with
  | [] => sret tt
  | x :: rest => sbind (body x) (fun _ => sfor_each rest body)
  end.

(** An entry of the project list, its path already made absolute. *)
Record Project := mkProject {
  project_name : string;
  project_path : Path
}.

Section Setup.

Context (env : Env).

Local Open Scope setup_scope.

(** [ensure_dependencies]; [executable] is [sys.executable] and [req] the
    resolved path of the requirements file. *)
Definition ensure_dependencies (executable : string) (req : Path) : Setup unit :=
  there <- lift (ask (fun t => path_exists env t req EmptyString));;
  if negb there then
    say (Printed ("[deps] No se encontró " +:+ path_str req
                  +:+ ". Si no quieres dependencias, crea un requirements.txt vacío."))
  else
    say (Printed ("[deps] Verificando dependencias con " +:+ path_str req +:+ "..."));;
    proc <- lift (spawn env [executable; "-m"; "pip"; "install"; "-r"; path_str req]
                        None);;
    if negb (returncode proc =? 0) then
      say (Printed "[deps] Falló la instalación estándar. Intento con --user (permisos de usuario).");;
      proc_user <- lift (spawn env [executable; "-m"; "pip"; "install"; "--user";
                                    "-r"; path_str req] None);;
      if negb (returncode proc_user =? 0) then
        say (Printed "====================================");;
        say (Printed "[deps] ERROR: No se pudieron instalar las dependencias.");;
        say (Printed "-------- stdout --------");;
        say (Printed (stdout proc));;
        say (Printed (stdout proc_user));;
        say (Printed "-------- stderr --------");;
        say (Printed (stderr proc));;
        say (Printed (stderr proc_user));;
        say (Printed "====================================");;
        say (Printed "Sugerencias:");;
        say (Printed ("1) Prueba manualmente: " +:+ executable
                      +:+ " -m pip install -r " +:+ path_str req));;
        say (Printed "2) Si es tema de permisos, usa un entorno virtual (venv) o --user.");;
        sexit 1
      else sret tt
    else
      say (Printed "[deps] Dependencias instaladas correctamente o ya satisfechas.").

(** [is_git_repo] *)
Definition is_git_repo (path : Path) : Setup bool :=
  lift (ask (fun t => path_exists env t path ".git")).

(** [ensure_clean_repo] *)
Definition ensure_clean_repo (repo : Path) : Setup unit :=
  git <- is_git_repo repo;;
  if git : bool then sret tt
  else
    say (NotARepository repo);;
    yes <- lift (ask (Confirm_ask env));;
    if yes : bool then
      lift (run_git env repo ["init"] true);;
      say (RepositoryInitialised repo);;
      remote <- lift (ask (Confirm_ask env));;
      (if remote : bool then
         answer <- lift (ask (Prompt_ask env));;
         let remote_url := Py.strip answer in
         if Py.truthy remote_url then
           lift (run_git env repo ["remote"; "add"; "origin"; remote_url] true);;
           say (RemoteConfigured remote_url)
         else sret tt
       else sret tt);;
      answer <- lift (ask (Prompt_ask env));;
      let default_branch := Py.strip answer in
      if Py.truthy default_branch then
        lift (run_git env repo ["checkout"; "-b"; default_branch] true);;
        say (InitialBranchCreated default_branch)
      else sret tt
    else
      say NotARepositoryCancelled;;
      sexit 1.

(** The loop of [main] over the selected projects. *)
Definition process_projects (fuel : nat) (selected : list Project) : Setup unit :=
  sfor_each selected
    (fun proj =>
       say (PanelProject (project_name proj) (project_path proj));;
       ensure_clean_repo (project_path proj);;
       lift (repo_loop env fuel (project_path proj));;
       say PanelAllDone).

End Setup.

(** * Vocabulary of the statements *)

(** ** Frames: what a computation leaves alone *)

(** [m] moves every world to an [R]-related one, whatever its outcome. *)
Definition stable (R : relation World) {A} (m : M A) : Prop :=
  forall w, R w (snd (m w)).

(** The ledger is left as it was. *)
Definition same_ledger : relation World := fun w w' => ledger w' = ledger w.

(** The touched list has only been appended to. *)
Definition touched_grows : relation World :=
  fun w w' => TOUCHED_REPOS (ledger w) `prefix_of` TOUCHED_REPOS (ledger w').

(** A relation that only looks at the ledger holds across any computation
    that leaves the ledger alone. *)
Class LedgerOnly (R : relation World) : Prop :=
  ledger_only : forall w w', ledger w' = ledger w -> R w w'.

(** The single fields of the ledger are left as they were. *)
Definition same_touched : relation World :=
  fun w w' => TOUCHED_REPOS (ledger w') = TOUCHED_REPOS (ledger w).

Definition same_staged : relation World :=
  fun w w' => FILES_ADDED_BY_REPO (ledger w') = FILES_ADDED_BY_REPO (ledger w).

Definition same_branches : relation World :=
  fun w w' => BRANCH_CHANGED (ledger w') = BRANCH_CHANGED (ledger w).

(** ** What a trace shows *)

(** The processes spawned, in order. *)
Definition spawns (tr : list Event) : list (list string * option Path) :=
  omap (fun e => match e with Spawn c d => Some (c, d) | _ => None end) tr.

(** The repositories whose rollback was started, in order. *)
Definition visits (tr : list Event) : list Path :=
  omap (fun e => match e with Print (PanelReverting r) => Some r | _ => None end) tr.

(** The files announced as added to the browser's selection, in order. *)
Definition additions (tr : list Event) : list string :=
  omap (fun e => match e with Print (Added rel _) => Some rel | _ => None end) tr.

(** The panels [run_git] prints for a completed process. *)
Definition panels (cp : CompletedProcess) : list Event :=
  (if Py.truthy (Py.strip (stdout cp))
   then [Print (PanelStdout (Py.strip (stdout cp)))] else [])
  ++ (if Py.truthy (Py.strip (stderr cp))
      then [Print (PanelStderr (Py.strip (stderr cp)))] else []).

(** ** Rollback and staging *)

(** The compensating steps the spec lists for one repository (section 4.4),
    as commands for the backend. *)
Definition compensating_steps (s : Session) (repo : Path)
  : list (list string * option Path) :=
  [ (["git"; "restore"; "--staged"; "."], Some repo);
    (["git"; "reset"; "--hard"], Some repo);
    (["git"; "clean"; "-fd"], Some repo) ]
  ++ match BRANCH_CHANGED s !! path_str repo with
     | Some (old, _) => [(["git"; "checkout"; old], Some repo)]
     | None => []
     end.

(** Every spawn returns a [CompletedProcess] (with whatever exit status). *)
Definition spawns_complete (env : Env) : Prop :=
  forall t cmd cwd, exists cp, subprocess_run env t cmd cwd = Completed cp.

(** What is run of a list of steps from instant [t] on: each step in turn,
    up to and including the first one that cannot be started. *)
Fixpoint attempted (env : Env) (t : nat) (steps : list (list string * option Path))
  : list (list string * option Path) :=
  match steps with
  | [] => []
  | (cmd, cwd) :: rest =>
      (cmd, cwd)
      :: match subprocess_run env t cmd cwd with
         | Completed _ => attempted env (S t) rest
         | SpawnFails _ => []
         end
  end.

(** The commands of a rollback over the entries [repos] of the touched list,
    from instant [t] on: entry after entry, what is run of its steps. *)
Fixpoint rollback_commands (env : Env) (s : Session) (t : nat) (repos : list Path)
  : list (list string * option Path) :=
  match repos with
  | [] => []
  | repo :: rest =>
      let block := attempted env t (compensating_steps s repo) in
      block ++ rollback_commands env s (t + length block) rest
  end.

(** The repositories of a touched list in the order they were first touched:
    the list without the later occurrences. *)
Fixpoint first_touched (seen l : list Path) : list Path :=
  match l with
  | [] => []
  | repo :: rest =>
      if decide (repo ∈ seen) then first_touched seen rest
      else repo :: first_touched (repo :: seen) rest
  end.

(** A staging attempt: the arguments of one call of [add_and_commit]. *)
Record Attempt := mkAttempt {
  attempt_repo : Path;
  attempt_all : bool;
  attempt_files : option (list string)
}.

(** A run of staging attempts, one after the other. *)
Definition stage_all (env : Env) (attempts : list Attempt) : M unit :=
  for_each attempts
    (fun a => add_and_commit env (attempt_repo a) (attempt_all a) (attempt_files a)).

(** What [stage_step] does after [touch]. *)
Definition stage_rest (env : Env) (repo : Path) (add_all : bool)
    (files : option (list string)) : M bool :=
  (if add_all then
     run_git env repo ["add"; "."] true;;
     record_staged repo ["."];;
     ret true
   else
     match files with
     | None | Some [] => console_print NoFilesGiven;; ret false
     | Some fs =>
         ok <- existing_files env repo fs;;
         match ok with
         | [] => console_print NoValidFiles
         | _ => run_git env repo ("add" :: ok) true;; record_staged repo ok
         end;;
         ret true
     end)%prog.

Definition touched_world (repo : Path) (w : World) : World :=
  mkWorld (mkSession (TOUCHED_REPOS (ledger w) ++ [repo])
                     (FILES_ADDED_BY_REPO (ledger w))
                     (BRANCH_CHANGED (ledger w)))
          (trace w) (now w).

(** How a computation may leave the branch-change records of [repo], given
    the branch [current] the backend reported: untouched, and then it did
    not return a branch other than [current]; or with the record of [repo]
    overwritten by [(current, new)], and then [new] is what it returns. *)
Definition record_outcome (repo : Path) (current : string) (w : World)
    (rw : Res string * World) : Prop :=
  (BRANCH_CHANGED (ledger (snd rw)) = BRANCH_CHANGED (ledger w)
   /\ forall b, fst rw = Ret b -> b = current)
  \/ (exists new,
        BRANCH_CHANGED (ledger (snd rw))
        = <[path_str repo := (current, new)]> (BRANCH_CHANGED (ledger w))
        /\ forall b, fst rw = Ret b -> b = new).

(** The files of [files] that exist, asked one by one from instant [t] on:
    the value of [ok] in [add_and_commit]. *)
Fixpoint existing_from (env : Env) (t : nat) (repo : Path) (files : list string)
  : list string :=
  match files with
  | [] => []
  | f :: rest =>
      if path_exists env t repo f
      then f :: existing_from env (S t) repo rest
      else existing_from env (S t) repo rest
  end.

(** The lines printed for the files that do not exist. *)
Fixpoint missing_from (env : Env) (t : nat) (repo : Path) (files : list string)
  : list Event :=
  match files with
  | [] => []
  | f :: rest =>
      if path_exists env t repo f
      then missing_from env (S t) repo rest
      else Print (DoesNotExist f) :: missing_from env (S t) repo rest
  end.

(** The staged-file record of [repo] extended by [fs]. *)
Definition staged_more (s : Session) (repo : Path) (fs : list string)
  : gmap string (list string) :=
  <[path_str repo := default [] (FILES_ADDED_BY_REPO s !! path_str repo) ++ fs]>
    (FILES_ADDED_BY_REPO s).

(** ** Concrete sessions *)

Definition r1 : Path := ["home"; "u"; "app"].
Definition r2 : Path := ["home"; "u"; "lib"].

Definition branch_list : string :=
  "main" +:+ LF +:+ "dev" +:+ LF +:+ "feature" +:+ LF.

(** The operator switches [r1] from main to dev, then from dev to feature,
    stages everything and commits; the backend answers as git does. *)
Definition switch_twice : list Answer :=
  [ says ("main" +:+ LF); says branch_list; AText "existing"; AText "dev";
    says EmptyString;
    says ("dev" +:+ LF); says branch_list; AText "existing"; AText "feature";
    says EmptyString;
    says EmptyString; AText "wip"; says EmptyString ].

Definition switch_twice_session (env : Env) : M unit :=
  (ask_branch_flow env r1;;
   ask_branch_flow env r1;;
   add_and_commit env r1 true None)%prog.

(** Two staging attempts on the same repository, both committed. *)
Definition stage_twice : list Answer :=
  [ says EmptyString; AText "one"; says EmptyString;
    says EmptyString; AText "two"; says EmptyString ].

Definition two_attempts : list Attempt :=
  [ mkAttempt r1 true None; mkAttempt r1 true None ].

(** An environment in which every process completes quietly with status 0
    and every question gets the neutral answer. *)
Definition calm_env : Env := script_env [].

(** Two repositories touched, the first with a branch-change record. *)
Definition two_touched : World :=
  mkWorld (mkSession [r1; r2] ∅ {[ path_str r1 := ("main", "dev") ]}) [] 0.

(** The backend cannot be started for the first rollback step, and answers
    normally from then on. *)
Definition first_step_cannot_start : list Answer := [ AProc (SpawnFails OSError) ].

(** Everything is staged; the operator then gives a blank commit message. *)
Definition blank_message : list Answer := [ says EmptyString; AText "   " ].

(** Everything is staged; git then refuses the commit with status 1. *)
Definition refused_commit : list Answer :=
  [ says EmptyString; AText "fix";
    AProc (Completed (mkProc 1 "nothing to commit, working tree clean" EmptyString)) ].

Definition create_pr : string := "Crear Pull Request (requiere GitHub CLI 'gh')".

(** The review tool is not installed: there is no [gh] executable, and
    [subprocess.run] raises [FileNotFoundError]. *)
Definition gh_not_installed : list Answer :=
  [ says ("main" +:+ LF); AProc (SpawnFails FileNotFoundError) ].

(** The review tool is installed but its probe ends with a non-zero status. *)
Definition gh_probe_fails : list Answer :=
  [ says ("main" +:+ LF); fails_with 1 ].

(** ** Relative paths and the browser's invariant *)

Fixpoint has_slash (s : string) : bool :=
  match s with
  | EmptyString => false
  | String c s' => Ascii.eqb c "/" || has_slash s'
  end.

(** What a directory listing can hold as a name: not empty, not [.] or
    [..], no separator. *)
Definition valid_name (n : string) : bool :=
  negb (String.eqb n EmptyString) && negb (String.eqb n ".")
  && negb (String.eqb n "..") && negb (has_slash n).

(** The components of a path string: [s.split("/")]. *)
Fixpoint split_slash (s : string) : list string :=
  match s with
  | EmptyString => [EmptyString]
  | String c s' =>
      if Ascii.eqb c "/" then EmptyString :: split_slash s'
      else match split_slash s' with
           | x :: xs => String c x :: xs
           | [] => [String c EmptyString]
           end
  end.

(** A path string that is relative and stays below the directory it is
    relative to: every component is a proper name, so there is no leading
    separator, no empty component and no [..]. *)
Definition within_root (s : string) : Prop :=
  Forall (fun n => valid_name n = true) (split_slash s).

(** The file system only lists proper names. *)
Definition valid_fs (env : Env) : Prop :=
  forall t p l, iterdir env t p = Entries l ->
                Forall (fun e => valid_name (entry_name e) = true) l.

(** [str(p.relative_to(root))] for a path below [root]. *)
Definition rel_name (root p : Path) : string := rel_str (drop (length root) p).

(** [p] is a path strictly below [root], spelled with proper names. *)
Definition under (root p : Path) : Prop :=
  exists names, names <> [] /\ Forall (fun n => valid_name n = true) names
                /\ p = root ++ names.

(** The cursor is [root] or a directory below it. *)
Definition cursor_ok (root cur : Path) : Prop :=
  exists ds, Forall (fun n => valid_name n = true) ds /\ cur = root ++ ds.

(** The selection has no duplicates, lies below [root], and its relative
    names appear, in the same order, among the additions announced since
    the browser started (when the announced additions were [base]). *)
Definition selection_ok (root : Path) (base : list string) (sel : list Path)
    (w : World) : Prop :=
  NoDup sel /\ Forall (under root) sel
  /\ exists log, additions (trace w) = base ++ log
                 /\ (rel_name root <$> sel) `sublist_of` log.

Definition browser_ok (root : Path) (base : list string) (b : Browser)
    (w : World) : Prop :=
  cursor_ok root (current b) /\ selection_ok root base (selected b) w.

(** What a pass through the loop must establish. *)
Definition outcome_ok (root : Path) (base : list string)
    (r : Res Next * World) : Prop :=
  match r with
  | (Ret (Continue b'), w') => browser_ok root base b' w'
  | (Ret (Return res), w') =>
      exists sel, res = rel_name root <$> sel /\ selection_ok root base sel w'
  | _ => True
  end.

(** [m], started in a good browser state, ends in a good outcome. *)
Definition preserves (root : Path) (base : list string) (b : Browser)
    (m : M Next) : Prop :=
  forall w, browser_ok root base b w -> outcome_ok root base (m w).

(** The values [m] can return satisfy [Q]. *)
Definition yields {A} (Q : A -> Prop) (m : M A) : Prop :=
  forall w a w', m w = (Ret a, w') -> Q a.

(** No addition is announced. *)
Definition no_addition : relation World :=
  fun w w' => additions (trace w') = additions (trace w).

Definition is_added (m : Msg) : bool :=
  match m with Added _ _ => true | _ => false end.

(** The rows [build_menu] can store in [index_map]. *)
Definition menu_row (root : Path) (b : Browser) (entries : list DirEntry)
    (r : Row) : Prop :=
  (current b <> root
   /\ r = mkRow KControl (Some (path_parent (current b))) "..")
  \/ r = mkRow KControl None "[Terminar selección]"
  \/ (exists e, e ∈ entries
                /\ r = mkRow KDir (Some (path_child (current b) (entry_name e)))
                             (entry_name e))
  \/ (exists e, e ∈ entries
                /\ r = mkRow KFile (Some (path_child (current b) (entry_name e)))
                             (entry_name e)).

(** Scenario C of the spec: [a.txt] at the root, down into [sub/], [b.txt],
    finish and confirm. *)
Definition scenario_c : list Answer :=
  [ AListing (Entries [a_file "a.txt"; a_dir "sub"]); AText "3";
    AListing (Entries [a_file "a.txt"; a_dir "sub"]); AText "2";
    AListing (Entries [a_file "b.txt"]); AText "3";
    AListing (Entries [a_file "b.txt"]); AText "2"; ABool true ].

(** The operator picks [a.txt] twice and then finishes. *)
Definition pick_twice : list Answer :=
  [ AListing (Entries [a_file "a.txt"]); AText "2";
    AListing (Entries [a_file "a.txt"]); AText "2";
    AListing (Entries [a_file "a.txt"]); AText "1"; ABool true ].

(** ** The browser's menu and tables *)

(** The lines of the menu, top to bottom: controls, directories, files. *)
Definition menu_items (root : Path) (b : Browser) (entries : list DirEntry)
  : list MenuItem :=
  control_items root (current b)
  ++ dir_items (current b) entries
  ++ file_items (current b) (selected b) entries.


(** The name of the entry is ASCII text, so that [Py.lower] gives the key the
    code sorts by. *)
Definition ascii_named (e : DirEntry) : Prop := Py.isascii (entry_name e) = true.

(** Every table in the trace shows [root] or a directory below it. *)
Definition tables_ok (root : Path) (tr : list Event) : Prop :=
  forall cur rows, Print (BrowseTable cur rows) ∈ tr -> cursor_ok root cur.

(** Tables shown so far being good, those shown afterwards are too. *)
Definition tables_stay_ok (root : Path) : relation World :=
  fun w w' => tables_ok root (trace w) -> tables_ok root (trace w').

Definition is_table (m : Msg) : bool :=
  match m with BrowseTable _ _ => true | _ => false end.

(** Nothing is spawned. *)
Definition no_spawn : relation World :=
  fun w w' => spawns (trace w') = spawns (trace w).

(** The trace is only appended to. *)
Definition trace_extends : relation World :=
  fun w w' => exists more, trace w' = trace w ++ more.

(** The clock only advances. *)
Definition clock_advances : relation World :=
  fun w w' => (now w <= now w')%nat.

(** The trace is left as it was. *)
Definition same_trace : relation World := fun w w' => trace w' = trace w.

(** A relation that only looks at the trace holds across any computation
    that prints nothing and spawns nothing. *)
Class TraceOnly (R : relation World) : Prop :=
  trace_only : forall w w', trace w' = trace w -> R w w'.

(** What the listing step of [browse_iter] gives: the entries shown and the
    lines printed before the table; [None] when listing raises. *)
Definition listed (l : Listing) : option (list DirEntry * list Event) :=
  match l with
  | Entries l => Some (sorted_entries l, [])
  | PermissionError => Some ([], [Print NoPermission])
  | ListingFails _ => None
  end.

(** What [browse_iter] does with the operator's answer. *)
Definition on_choice (env : Env) (repo_path : Path) (b : Browser)
    (index_map : gmap Z Row) (choice : string) : M Next :=
  (if negb (Py.truthy choice) then ret (Continue b)
   else
     when (String.eqb (Py.strip choice) "¡") (raise NameError);;
     if String.eqb (Py.lower choice) "l" then list_selection env repo_path b
     else if String.eqb (Py.lower choice) "b" then remove_last repo_path b
     else
       match Py.int choice with
       | None => console_print InvalidInput;; ret (Continue b)
       | Some num =>
           match index_map !! num with
           | None => console_print IndexOutOfRange;; ret (Continue b)
           | Some r => dispatch_row env repo_path b r
           end
       end)%prog.

(** The operator's answer is a number and nothing else the browser knows. *)
Definition plain_answer (choice : string) : Prop :=
  choice <> EmptyString /\ Py.strip choice <> "¡"
  /\ Py.lower choice <> "l" /\ Py.lower choice <> "b".

(** One listing of [a.txt] and one answer of the operator. *)
Definition one_answer (answer : string) : list Answer :=
  [ AListing (Entries [a_file "a.txt"]); AText answer; ABool true ].

(** The directory may not be listed; the operator just presses enter. *)
Definition unreadable : list Answer := [ AListing PermissionError; AText EmptyString ].

(** ** Branches and actions *)

(** The local branches [get_branches] reads off the output of [git branch]. *)
Definition branches_of (out : string) : list string :=
  Py.strip <$>
    filter (fun b => Is_true (Py.truthy (Py.strip b)))
           (Py.splitlines (Py.strip out)).

(** What [ask_branch_flow] does once it knows the branches. *)
Definition branch_choice (env : Env) (repo : Path) (current : string)
    (branches : list string) : M string :=
  (action <- ask (inquirer_select env);;
   if String.eqb action "existing" then
     match branches with
     | [] =>
         console_print NoLocalBranches;;
         create_new_branch env repo current
     | _ =>
         choice <- ask (inquirer_select env);;
         when (negb (String.eqb choice current))
              (set_branch_changed repo current choice;;
               checkout_branch env repo choice false);;
         ret choice
     end
   else create_new_branch env repo current)%prog.

(** The world [ask_branch_flow] is in when it asks its first question. *)
Definition branches_known (repo : Path) (w : World) (cur loc : CompletedProcess)
  : World :=
  mkWorld (ledger w)
    (trace w
     ++ Spawn ["git"; "rev-parse"; "--abbrev-ref"; "HEAD"] (Some repo) :: panels cur
     ++ Spawn ["git"; "branch"; "--format"; "%(refname:short)"] (Some repo)
     :: panels loc
     ++ [Print (PanelCurrentBranch (Py.strip (stdout cur)))])
    (S (S (now w))).

(** The branch-change record of [repo] set to [(old, new)]. *)
Definition with_record (s : Session) (repo : Path) (old new : string) : Session :=
  mkSession (TOUCHED_REPOS s) (FILES_ADDED_BY_REPO s)
            (<[path_str repo := (old, new)]> (BRANCH_CHANGED s)).

(** [m] returns normally from every world. *)
Definition returns {A} (m : M A) : Prop :=
  forall w, exists a w', m w = (Ret a, w').

(** The first thing [m] does to the outside is [e]. *)
Definition starts_with {A} (e : Event) (m : M A) : Prop :=
  forall w, exists more, trace (snd (m w)) = trace w ++ e :: more.

Definition change_branch : string := "Cambiar/crear rama".

(** ** Further concrete sessions *)

(** A repository on main with the three branches; the operator wants an
    existing branch and names [choice]; git answers the checkout with
    [status]. *)
Definition pick_existing (choice : string) (status : Z) : list Answer :=
  [ says ("main" +:+ LF); says branch_list; AText "existing"; AText choice;
    fails_with status ].

(** A repository without any branch; the operator asks for an existing one
    and is led to name a new one. *)
Definition no_branches : list Answer :=
  [ says ("HEAD" +:+ LF); says EmptyString; AText "existing"; AText "trunk";
    says EmptyString ].

(** An environment in which every process ends with the given status. *)
Definition always_status (code : Z) : Env :=
  {| subprocess_run _ _ _ := Completed (mkProc code EmptyString "fatal: no");
     Prompt_ask _ := EmptyString;
     Confirm_ask _ := false;
     inquirer_select _ := EmptyString;
     input_line _ := EmptyString;
     iterdir _ _ := Entries [];
     path_exists _ _ _ := false |}.

(** ** The log of a run *)

(** The processes spawned, in order. *)
Definition commands (log : list (Event + SetupMsg))
  : list (list string * option Path) :=
  omap (fun e => match e with inl (Spawn c d) => Some (c, d) | _ => None end) log.

(** The projects announced, in order. *)
Definition announced (log : list (Event + SetupMsg)) : list Path :=
  omap (fun e => match e with inr (PanelProject _ p) => Some p | _ => None end) log.

(** [m] moves every run to an [R]-related one, whatever its outcome. *)
Definition run_stable (R : relation Run) {A} (m : Setup A) : Prop :=
  forall r, R r (snd (m r)).

(** From [r] to [r'] the ledger is kept and only git commands working in
    [repo] are spawned. *)
Definition git_in (repo : Path) : relation Run :=
  fun r r' =>
    run_ledger r' = run_ledger r
    /\ exists cmds,
         commands (run_log r') = commands (run_log r) ++ cmds
         /\ Forall (fun c => exists args, c = ("git" :: args, Some repo)) cmds.

(** The two installation commands of [ensure_dependencies]. *)
Definition pip_install (executable : string) (req : Path) : list string * option Path :=
  ([executable; "-m"; "pip"; "install"; "-r"; path_str req], None).

Definition pip_install_user (executable : string) (req : Path)
  : list string * option Path :=
  ([executable; "-m"; "pip"; "install"; "--user"; "-r"; path_str req], None).

Definition requirements : Path := ["home"; "u"; "requirements.txt"].

(** No project is announced between [r] and [r']. *)
Definition same_announced : relation Run :=
  fun r r' => announced (run_log r') = announced (run_log r).

(** * Verification *)

(** ** Relations between the world before and after a computation *)

Section Stable.

Context (R : relation World) `{!PreOrder R}.

Lemma stable_ret {A} (a : A) : stable R (ret a).
Proof. intros w. reflexivity. Qed.

Lemma stable_raise {A} e : stable R (@raise A e).
Proof. intros w. reflexivity. Qed.

Lemma stable_sys_exit {A} c : stable R (@sys_exit A c).
Proof. intros w. reflexivity. Qed.

Lemma stable_bind {A B} (m : M A) (k : A -> M B) :
  stable R m -> (forall a, stable R (k a)) -> stable R (bind m k).
Proof.
  intros Hm Hk w. unfold bind. specialize (Hm w).
  destruct (m w) as [[a| | |] w1]; simpl in *; try assumption.
  etransitivity; [eassumption | apply Hk].
Qed.

Lemma stable_when b (m : M unit) : stable R m -> stable R (when b m).
Proof. destruct b; simpl; auto using stable_ret. Qed.

Lemma stable_try_except_pass (m : M unit) :
  stable R m -> stable R (try_except_pass m).
Proof.
  intros Hm w. unfold try_except_pass. specialize (Hm w).
  destruct (m w) as [[[]| | |] w1]; assumption.
Qed.

Lemma stable_try_finally {A} (m : M A) (fin : M unit) :
  stable R m -> stable R fin -> stable R (try_finally m fin).
Proof.
  intros Hm Hf w. unfold try_finally. specialize (Hm w).
  destruct (m w) as [r w1]. specialize (Hf w1). simpl in Hm.
  destruct (fin w1) as [[[]| | |] w2]; simpl in *; etransitivity; eauto.
Qed.

Lemma stable_for_each {A} (l : list A) (body : A -> M unit) :
  (forall x, stable R (body x)) -> stable R (for_each l body).
Proof.
  intros Hb. induction l as [|x l IH]; simpl.
  - apply stable_ret.
  - apply stable_bind; auto.
Qed.

End Stable.

#[local] Instance same_ledger_po : PreOrder same_ledger.
Proof.
  split; [intros w; reflexivity|].
  intros a b c Hab Hbc. unfold same_ledger in *. congruence.
Qed.

#[local] Instance touched_grows_po : PreOrder touched_grows.
Proof.
  split; [intros w; unfold touched_grows; reflexivity|].
  intros a b c Hab Hbc. unfold touched_grows in *. etransitivity; eassumption.
Qed.

Lemma stable_same_ledger (R : relation World) `{!LedgerOnly R} {A} (m : M A) :
  stable same_ledger m -> stable R m.
Proof. intros Hm w. apply ledger_only, Hm. Qed.

Lemma stable_weaken (R R' : relation World) {A} (m : M A) :
  (forall w w', R w w' -> R' w w') -> stable R m -> stable R' m.
Proof. intros Hsub Hm w. apply Hsub, Hm. Qed.

#[local] Instance same_touched_po : PreOrder same_touched.
Proof.
  split; [intros w; reflexivity|].
  intros a b c Hab Hbc. unfold same_touched in *. congruence.
Qed.

#[local] Instance same_staged_po : PreOrder same_staged.
Proof.
  split; [intros w; reflexivity|].
  intros a b c Hab Hbc. unfold same_staged in *. congruence.
Qed.

#[local] Instance same_branches_po : PreOrder same_branches.
Proof.
  split; [intros w; reflexivity|].
  intros a b c Hab Hbc. unfold same_branches in *. congruence.
Qed.

#[local] Instance same_ledger_only : LedgerOnly same_ledger.
Proof. intros w w' H. exact H. Qed.

#[local] Instance same_touched_only : LedgerOnly same_touched.
Proof. intros w w' H. unfold same_touched. rewrite H. reflexivity. Qed.

#[local] Instance same_staged_only : LedgerOnly same_staged.
Proof. intros w w' H. unfold same_staged. rewrite H. reflexivity. Qed.

#[local] Instance same_branches_only : LedgerOnly same_branches.
Proof. intros w w' H. unfold same_branches. rewrite H. reflexivity. Qed.

#[local] Instance touched_grows_only : LedgerOnly touched_grows.
Proof. intros w w' H. unfold touched_grows. rewrite H. reflexivity. Qed.

Create HintDb frame.

#[local] Hint Resolve stable_ret stable_raise stable_sys_exit : frame.

(** Structural rules are applied by hand (the rule for [bind] binds a
    variable in its second premise); leaves come from the hint database,
    directly or through [stable_same_ledger]. *)
Ltac frame_leaf :=
  solve [ auto with frame typeclass_instances
        | apply stable_same_ledger;
          [ typeclasses eauto | auto with frame typeclass_instances ] ].

Ltac frame :=
  repeat first
    [ progress (intros)
    | frame_leaf
    | apply stable_bind
    | apply stable_when
    | apply stable_try_except_pass
    | apply stable_try_finally
    | apply stable_for_each
    | match goal with
      | |- stable _ (if ?b then _ else _) => destruct b
      | |- stable _ (match ?x with _ => _ end) => destruct x
      | |- stable _ (let '(_, _) := ?x in _) => destruct x
      end ].

Lemma emit_same_ledger e : stable same_ledger (emit e).
Proof. intros w. reflexivity. Qed.

Lemma ask_same_ledger {A} (o : nat -> A) : stable same_ledger (ask o).
Proof. intros w. reflexivity. Qed.

Lemma get_ledger_same_ledger : stable same_ledger get_ledger.
Proof. intros w. reflexivity. Qed.

Lemma running_same_ledger {A} : stable same_ledger (@running A).
Proof. intros w. reflexivity. Qed.

Lemma console_print_same_ledger m : stable same_ledger (console_print m).
Proof. apply emit_same_ledger. Qed.

#[local] Hint Resolve emit_same_ledger ask_same_ledger get_ledger_same_ledger
  running_same_ledger console_print_same_ledger : frame.

Lemma spawn_same_ledger env cmd cwd : stable same_ledger (spawn env cmd cwd).
Proof. unfold spawn. frame. Qed.

#[local] Hint Resolve spawn_same_ledger : frame.

Lemma run_git_same_ledger env repo args check :
  stable same_ledger (run_git env repo args check).
Proof. unfold run_git. frame. Qed.

#[local] Hint Resolve run_git_same_ledger : frame.

(** The three writers, each with the fields it leaves alone. *)
Lemma touch_same_staged repo : stable same_staged (touch repo).
Proof. intros w. reflexivity. Qed.

Lemma touch_same_branches repo : stable same_branches (touch repo).
Proof. intros w. reflexivity. Qed.

Lemma touch_grows repo : stable touched_grows (touch repo).
Proof. intros w. cbn. apply prefix_app_r. reflexivity. Qed.

Lemma record_staged_same_touched repo fs : stable same_touched (record_staged repo fs).
Proof. intros w. reflexivity. Qed.

Lemma record_staged_same_branches repo fs :
  stable same_branches (record_staged repo fs).
Proof. intros w. reflexivity. Qed.

Lemma record_staged_grows repo fs : stable touched_grows (record_staged repo fs).
Proof. intros w. unfold touched_grows. reflexivity. Qed.

Lemma set_branch_changed_same_touched repo old new :
  stable same_touched (set_branch_changed repo old new).
Proof. intros w. reflexivity. Qed.

Lemma set_branch_changed_same_staged repo old new :
  stable same_staged (set_branch_changed repo old new).
Proof. intros w. reflexivity. Qed.

Lemma set_branch_changed_grows repo old new :
  stable touched_grows (set_branch_changed repo old new).
Proof. intros w. unfold touched_grows. reflexivity. Qed.

#[local] Hint Resolve touch_same_staged touch_same_branches touch_grows
  record_staged_same_touched record_staged_same_branches record_staged_grows
  set_branch_changed_same_touched set_branch_changed_same_staged
  set_branch_changed_grows : frame.

Lemma revert_repo_same_ledger env repo : stable same_ledger (revert_repo env repo).
Proof. unfold revert_repo. frame. Qed.

#[local] Hint Resolve revert_repo_same_ledger : frame.

Lemma handle_sigint_same_ledger env : stable same_ledger (handle_sigint env).
Proof. unfold handle_sigint, revert_changes. frame. Qed.

Lemma existing_files_same_ledger env repo files :
  stable same_ledger (existing_files env repo files).
Proof. induction files as [|f files IH]; cbn [existing_files]; frame. Qed.

#[local] Hint Resolve handle_sigint_same_ledger existing_files_same_ledger : frame.

Lemma commit_step_same_ledger env repo : stable same_ledger (commit_step env repo).
Proof. unfold commit_step. frame. Qed.

#[local] Hint Resolve commit_step_same_ledger : frame.

(** ** Traces and [run_git] *)

Lemma spawns_panels cp : spawns (panels cp) = [].
Proof. unfold panels. do 2 case_match; reflexivity. Qed.

Lemma visits_panels cp : visits (panels cp) = [].
Proof. unfold panels. do 2 case_match; reflexivity. Qed.

Section RunGit.

Context (env : Env).

(** [run_git] in closed form. *)
Lemma run_git_eq repo args check w :
  run_git env repo args check w =
  match subprocess_run env (now w) ("git" :: args) (Some repo) with
  | Completed cp =>
      (if check && negb (returncode cp =? 0) then Raise RuntimeError else Ret cp,
       mkWorld (ledger w)
               (trace w ++ Spawn ("git" :: args) (Some repo) :: panels cp)
               (S (now w)))
  | SpawnFails e =>
      (Raise e,
       mkWorld (ledger w) (trace w ++ [Spawn ("git" :: args) (Some repo)])
               (S (now w)))
  end.
Proof.
  unfold run_git, spawn, bind, emit, ask, when, console_print, emit, panels.
  simpl.
  destruct (subprocess_run env (now w) ("git" :: args) (Some repo)) as [cp|e];
    [|reflexivity].
  simpl.
  destruct (Py.truthy (Py.strip (stdout cp))),
           (Py.truthy (Py.strip (stderr cp))); simpl;
    destruct (check && negb (returncode cp =? 0)); simpl;
    rewrite <- ?app_assoc; reflexivity.
Qed.

End RunGit.

Arguments run_git : simpl never.

Section Dispatcher.

Context (env : Env).

(** C10. Dispatching Pull, Fetch, Status or Log leaves the session state as
    it was: the touched list, the staged-file records and the branch-change
    records after the action are those before it, from every starting
    state and whatever the backend answers (including a failure to spawn). *)
Theorem do_action_inspect_keeps_session repo w :
  ledger (snd (do_action env repo "Pull" w)) = ledger w
  /\ ledger (snd (do_action env repo "Fetch" w)) = ledger w
  /\ ledger (snd (do_action env repo "Status" w)) = ledger w
  /\ ledger (snd (do_action env repo "Log (últimos 10)" w)) = ledger w.
Proof.
  repeat split;
    match goal with
    | |- ledger (snd (?m w)) = _ => revert w; change (stable same_ledger m)
    end;
    unfold do_action; (apply stable_bind; [typeclasses eauto | frame | intros cp]);
    cbn; frame.
Qed.

End Dispatcher.

(** ** Rollback *)

Lemma spawns_app a b : spawns (a ++ b) = spawns a ++ spawns b.
Proof. apply omap_app. Qed.

Lemma visits_app a b : visits (a ++ b) = visits a ++ visits b.
Proof. apply omap_app. Qed.

Lemma additions_app a b : additions (a ++ b) = additions a ++ additions b.
Proof. apply omap_app. Qed.

Lemma spawns_cons e t :
  spawns (e :: t) = match e with Spawn c d => [(c, d)] | _ => [] end ++ spawns t.
Proof. destruct e; reflexivity. Qed.

Lemma visits_cons e t :
  visits (e :: t)
  = match e with Print (PanelReverting r) => [r] | _ => [] end ++ visits t.
Proof. destruct e as [|[]]; reflexivity. Qed.

Lemma additions_cons e t :
  additions (e :: t)
  = match e with Print (Added rel _) => [rel] | _ => [] end ++ additions t.
Proof. destruct e as [|[]]; reflexivity. Qed.

Lemma spawns_nil : spawns [] = [].
Proof. reflexivity. Qed.

Lemma visits_nil : visits [] = [].
Proof. reflexivity. Qed.

Lemma additions_nil : additions [] = [].
Proof. reflexivity. Qed.

Ltac trace_simpl :=
  repeat first
    [ rewrite spawns_app | rewrite visits_app | rewrite additions_app
    | rewrite spawns_cons | rewrite visits_cons | rewrite additions_cons
    | rewrite spawns_nil | rewrite visits_nil | rewrite additions_nil
    | rewrite spawns_panels | rewrite visits_panels
    | rewrite <- app_assoc
    | progress cbn [app ledger trace now fst snd] ].

(** One call of [run_git]: both answers of the backend. *)
Ltac git_step :=
  unfold bind at 1; rewrite run_git_eq;
  match goal with
  | |- context [subprocess_run ?e ?t ?c ?d] =>
      let cp := fresh "cp" in let ex := fresh "ex" in let E := fresh "E" in
      destruct (subprocess_run e t c d) as [cp|ex] eqn:E
  end; cbn.

Section Rollback.

Context (env : Env).

Ltac rollback_leaf :=
  eexists _, _; split; [reflexivity|]; trace_simpl;
  split; [reflexivity|]; split; [reflexivity|]; split; [reflexivity|];
  split;
  [ repeat apply prefix_cons; solve [apply prefix_nil | reflexivity]
  | intros Hc;
    try reflexivity;
    exfalso;
    match goal with
    | E : subprocess_run ?e ?t ?c ?d = SpawnFails _ |- _ =>
        destruct (Hc t c d) as [? Hcp]; congruence
    end ].

Lemma revert_repo_spec repo w :
  exists w' issued,
    revert_repo env repo w = (Ret tt, w')
    /\ ledger w' = ledger w
    /\ visits (trace w') = visits (trace w) ++ [repo]
    /\ spawns (trace w') = spawns (trace w) ++ issued
    /\ issued `prefix_of` compensating_steps (ledger w) repo
    /\ (spawns_complete env -> issued = compensating_steps (ledger w) repo).
Proof.
  unfold revert_repo, try_except_pass, compensating_steps.
  unfold bind at 1. cbn.
  git_step; [|rollback_leaf].
  git_step; [|rollback_leaf].
  git_step; [|rollback_leaf].
  destruct (BRANCH_CHANGED (ledger w) !! path_str repo) as [[old new]|];
    [|cbn; rollback_leaf].
  git_step; rollback_leaf.
Qed.

(** The loop of [revert_changes] over any list of repositories: it always
    completes, visits every entry in order, and issues for each entry a
    block of commands that is the entry's compensating steps, cut short
    only where a spawn raised. *)
Lemma for_each_revert_spec l w :
  exists w' blocks,
    for_each l (revert_repo env) w = (Ret tt, w')
    /\ ledger w' = ledger w
    /\ visits (trace w') = visits (trace w) ++ l
    /\ spawns (trace w') = spawns (trace w) ++ concat blocks
    /\ Forall2 (fun repo block =>
                  block `prefix_of` compensating_steps (ledger w) repo) l blocks
    /\ (spawns_complete env ->
        blocks = compensating_steps (ledger w) <$> l).
Proof.
  revert w. induction l as [|repo l IH]; intros w.
  - exists w, []. cbn. rewrite !app_nil_r. repeat split; constructor.
  - destruct (revert_repo_spec repo w)
      as (w1 & issued & Hrun & Hled & Hvis & Hsp & Hpre & Hall).
    destruct (IH w1) as (w2 & blocks & Hrun2 & Hled2 & Hvis2 & Hsp2 & Hpre2 & Hall2).
    exists w2, (issued :: blocks).
    cbn [for_each]. unfold bind. rewrite Hrun, Hrun2.
    rewrite Hled in *.
    repeat split.
    + congruence.
    + rewrite Hvis2, Hvis, <- app_assoc. reflexivity.
    + rewrite Hsp2, Hsp, <- app_assoc. reflexivity.
    + constructor; assumption.
    + intros Hc. rewrite (Hall Hc), (Hall2 Hc). reflexivity.
Qed.

Lemma handle_sigint_spec w :
  exists w' blocks,
    handle_sigint env w = (SysExit 130, w')
    /\ ledger w' = ledger w
    /\ visits (trace w') = visits (trace w) ++ TOUCHED_REPOS (ledger w)
    /\ spawns (trace w') = spawns (trace w) ++ concat blocks
    /\ Forall2 (fun repo block =>
                  block `prefix_of` compensating_steps (ledger w) repo)
               (TOUCHED_REPOS (ledger w)) blocks
    /\ (spawns_complete env ->
        blocks = compensating_steps (ledger w) <$> TOUCHED_REPOS (ledger w)).
Proof.
  set (w0 := mkWorld (ledger w) (trace w ++ [Print ExitingReverting]) (now w)).
  destruct (for_each_revert_spec (TOUCHED_REPOS (ledger w)) w0)
    as (w' & blocks & Hrun & Hled & Hvis & Hsp & Hpre & Hall).
  exists w', blocks.
  unfold handle_sigint, revert_changes, try_finally.
  unfold bind at 1. cbn -[compensating_steps]. fold w0.
  rewrite Hrun.
  subst w0. cbn -[compensating_steps] in *.
  revert Hvis Hsp. trace_simpl. intros Hvis Hsp.
  repeat split; assumption.
Qed.

Ltac attempts_leaf :=
  cbn [now ledger trace] in *;
  eexists; split; [reflexivity|]; trace_simpl;
  repeat (cbn [attempted app length];
          match goal with
          | E : subprocess_run _ _ _ _ = _ |- _ => rewrite E
          end);
  cbn [attempted app length];
  split; [reflexivity|]; split; [reflexivity|]; lia.

(** One entry of the touched list: what is run of its steps, exactly. *)
Lemma revert_repo_attempts repo w :
  exists w',
    revert_repo env repo w = (Ret tt, w')
    /\ ledger w' = ledger w
    /\ spawns (trace w')
       = spawns (trace w)
         ++ attempted env (now w) (compensating_steps (ledger w) repo)
    /\ now w'
       = (now w + length (attempted env (now w)
                            (compensating_steps (ledger w) repo)))%nat.
Proof.
  unfold revert_repo, try_except_pass, compensating_steps.
  unfold bind at 1. cbn.
  git_step; [|attempts_leaf].
  git_step; [|attempts_leaf].
  git_step; [|attempts_leaf].
  destruct (BRANCH_CHANGED (ledger w) !! path_str repo) as [[old new]|];
    [|cbn; attempts_leaf].
  git_step; attempts_leaf.
Qed.

Lemma for_each_revert_attempts l w :
  exists w',
    for_each l (revert_repo env) w = (Ret tt, w')
    /\ ledger w' = ledger w
    /\ spawns (trace w')
       = spawns (trace w) ++ rollback_commands env (ledger w) (now w) l.
Proof.
  revert w. induction l as [|repo l IH]; intros w.
  - exists w. cbn. rewrite app_nil_r. auto.
  - destruct (revert_repo_attempts repo w) as (w1 & Hrun & Hled & Hsp & Hnow).
    destruct (IH w1) as (w2 & Hrun2 & Hled2 & Hsp2).
    exists w2. cbn [for_each rollback_commands]. unfold bind.
    rewrite Hrun, Hrun2. split; [reflexivity|]. split; [congruence|].
    rewrite Hsp2, Hsp, Hled, Hnow, <- app_assoc. reflexivity.
Qed.

Lemma rollback_commands_complete s l :
  spawns_complete env ->
  forall t, rollback_commands env s t l = concat (compensating_steps s <$> l).
Proof.
  intros Hc.
  assert (Hall : forall steps t, attempted env t steps = steps).
  { induction steps as [|[cmd cwd] steps IH]; intros t; [reflexivity|].
    cbn. destruct (Hc t cmd cwd) as [cp ->]. rewrite IH. reflexivity. }
  induction l as [|repo l IH]; intros t; [reflexivity|].
  cbn [rollback_commands]. cbv zeta. rewrite Hall, IH. reflexivity.
Qed.

Lemma rollback_commands_reach_every_entry s l :
  forall t repo,
    repo ∈ l ->
    (["git"; "restore"; "--staged"; "."], Some repo) ∈ rollback_commands env s t l.
Proof.
  induction l as [|r l IH]; intros t repo Hin; [inversion Hin|].
  cbn [rollback_commands]. apply elem_of_app.
  apply elem_of_cons in Hin as [->|Hin].
  - left. unfold compensating_steps. cbn [app attempted].
    apply elem_of_cons. left. reflexivity.
  - right. apply IH. exact Hin.
Qed.

(** C5, as the code has it.  Rollback makes one pass over the entries of the
    touched list, in the order of the list, and then exits with code 130.
    For each entry it issues, in this order, unstage everything, hard reset,
    remove untracked files and directories, and, only if the repository has
    a branch-change record, check out the branch recorded as the old one;
    a step that cannot be started ends the steps of that entry only, and the
    pass goes on with the next entry.  So the commands of a rollback are
    exactly, entry after entry, the entry's steps up to and including the
    first that cannot be started; every entry has at least its first step
    issued, whatever happened before; and when every step can be started,
    all steps of all entries are issued. *)
Theorem rollback_compensating_steps w :
  let w' := snd (handle_sigint env w) in
  let repos := TOUCHED_REPOS (ledger w) in
  fst (handle_sigint env w) = SysExit 130
  /\ visits (trace w') = visits (trace w) ++ repos
  /\ spawns (trace w')
     = spawns (trace w) ++ rollback_commands env (ledger w) (now w) repos
  /\ (forall repo, repo ∈ repos ->
        (["git"; "restore"; "--staged"; "."], Some repo)
        ∈ rollback_commands env (ledger w) (now w) repos)
  /\ (spawns_complete env ->
      spawns (trace w')
      = spawns (trace w) ++ concat (compensating_steps (ledger w) <$> repos)).
Proof.
  cbv zeta.
  destruct (handle_sigint_spec w) as (w1 & blocks & Hrun & _ & Hvis & _).
  set (w0 := mkWorld (ledger w) (trace w ++ [Print ExitingReverting]) (now w)).
  destruct (for_each_revert_attempts (TOUCHED_REPOS (ledger w)) w0)
    as (w2 & Hrun2 & _ & Hsp).
  assert (Heq : handle_sigint env w = (SysExit 130, w2)).
  { unfold handle_sigint, revert_changes, try_finally.
    unfold bind at 1. cbn -[compensating_steps]. fold w0. rewrite Hrun2.
    reflexivity. }
  assert (w1 = w2) as -> by congruence.
  rewrite Heq. cbn [fst snd].
  assert (Hcmds : spawns (trace w2)
                  = spawns (trace w)
                    ++ rollback_commands env (ledger w) (now w)
                         (TOUCHED_REPOS (ledger w))).
  { rewrite Hsp. subst w0. cbn [trace ledger now]. trace_simpl. reflexivity. }
  split; [reflexivity|]. split; [exact Hvis|]. split; [exact Hcmds|]. split.
  - intros repo Hin. apply rollback_commands_reach_every_entry. exact Hin.
  - intros Hc. rewrite Hcmds, (rollback_commands_complete _ _ Hc). reflexivity.
Qed.

End Rollback.

(** ** Staging and committing *)

Section Staging.

Context (env : Env).

Lemma stage_step_eq repo add_all files w :
  stage_step env repo add_all files w
  = stage_rest env repo add_all files (touched_world repo w).
Proof. reflexivity. Qed.

Lemma add_and_commit_eq repo add_all files w :
  add_and_commit env repo add_all files w
  = (go_on <- stage_rest env repo add_all files;;
     if go_on : bool then commit_step env repo else ret tt)%prog
      (touched_world repo w).
Proof. reflexivity. Qed.

Lemma stage_rest_same_touched repo add_all files :
  stable same_touched (stage_rest env repo add_all files).
Proof. unfold stage_rest. frame. Qed.

Lemma stage_rest_same_branches repo add_all files :
  stable same_branches (stage_rest env repo add_all files).
Proof. unfold stage_rest. frame. Qed.

(** Every call of [add_and_commit] appends its repository to the touched
    list, once, whatever the list held and however the call ends. *)
Lemma add_and_commit_touches repo add_all files w :
  TOUCHED_REPOS (ledger (snd (add_and_commit env repo add_all files w)))
  = TOUCHED_REPOS (ledger w) ++ [repo].
Proof.
  rewrite add_and_commit_eq.
  change (TOUCHED_REPOS (ledger w) ++ [repo])
    with (TOUCHED_REPOS (ledger (touched_world repo w))).
  generalize (touched_world repo w). clear w.
  change (stable same_touched
            (go_on <- stage_rest env repo add_all files;;
             if go_on : bool then commit_step env repo else ret tt)%prog).
  pose proof stage_rest_same_touched. frame.
Qed.

Lemma add_and_commit_same_branches repo add_all files :
  stable same_branches (add_and_commit env repo add_all files).
Proof.
  pose proof stage_rest_same_branches.
  unfold add_and_commit, stage_step. fold (stage_rest env repo add_all files).
  frame.
Qed.

Lemma stage_all_touches attempts w w' :
  stage_all env attempts w = (Ret tt, w') ->
  TOUCHED_REPOS (ledger w')
  = TOUCHED_REPOS (ledger w) ++ (attempt_repo <$> attempts).
Proof.
  revert w. induction attempts as [|a attempts IH]; intros w; cbn.
  - intros [= <-]. rewrite app_nil_r. reflexivity.
  - unfold bind at 1.
    pose proof (add_and_commit_touches (attempt_repo a) (attempt_all a)
                                       (attempt_files a) w) as Ht.
    destruct (add_and_commit env (attempt_repo a) (attempt_all a)
                             (attempt_files a) w) as [[[]| | |] w1];
      try discriminate.
    intros Hrest. rewrite (IH _ Hrest). cbn in Ht. rewrite Ht, <- app_assoc.
    reflexivity.
Qed.


Lemma truthy_false s : Py.truthy s = false <-> s = EmptyString.
Proof.
  unfold Py.truthy. rewrite negb_false_iff. apply String.eqb_eq.
Qed.

Lemma truthy_true s : Py.truthy s = true <-> s <> EmptyString.
Proof.
  unfold Py.truthy. rewrite negb_true_iff. apply String.eqb_neq.
Qed.

(** [commit_step] in closed form. *)
Lemma commit_step_eq repo w :
  commit_step env repo w =
  let msg := Py.strip (Prompt_ask env (now w)) in
  if Py.truthy msg then
    match subprocess_run env (S (now w)) ["git"; "commit"; "-m"; msg] (Some repo) with
    | Completed cp =>
        (Ret tt,
         mkWorld (ledger w)
           (trace w ++ Spawn ["git"; "commit"; "-m"; msg] (Some repo)
              :: panels cp
              ++ (if returncode cp =? 0 then [] else [Print MaybeNothingToCommit]))
           (S (S (now w))))
    | SpawnFails e =>
        (Raise e,
         mkWorld (ledger w)
           (trace w ++ [Spawn ["git"; "commit"; "-m"; msg] (Some repo)])
           (S (S (now w))))
    end
  else
    (Ret tt,
     mkWorld (ledger w) (trace w ++ [Print EmptyMessageCancel]) (S (now w))).
Proof.
  unfold commit_step. unfold bind at 1. cbn.
  destruct (Py.truthy (Py.strip (Prompt_ask env (now w)))); cbn; [|reflexivity].
  unfold bind at 1. rewrite run_git_eq. cbn.
  destruct (subprocess_run env (S (now w)) _ (Some repo)) as [cp|e]; cbn;
    [|reflexivity].
  destruct (returncode cp =? 0); cbn; unfold console_print, emit, ret; cbn;
    rewrite <- ?app_assoc, ?app_nil_r; reflexivity.
Qed.

Lemma add_and_commit_after_stage repo add_all files w w1 :
  stage_step env repo add_all files w = (Ret true, w1) ->
  add_and_commit env repo add_all files w = commit_step env repo w1.
Proof. intros H. unfold add_and_commit, bind. rewrite H. reflexivity. Qed.

(** C8. In the stage-and-commit flow an empty commit message cancels the
    commit step and control returns normally; and when the commit is
    attempted and the backend answers with a non-zero status (as it does
    when nothing is staged), that is reported with an informational line
    and the flow still returns normally. *)
Theorem empty_message_and_failed_commit_not_fatal repo add_all files w w1 :
  stage_step env repo add_all files w = (Ret true, w1) ->
  let msg := Py.strip (Prompt_ask env (now w1)) in
  let commit := Spawn ["git"; "commit"; "-m"; msg] (Some repo) in
  (msg = EmptyString ->
   add_and_commit env repo add_all files w
   = (Ret tt,
      mkWorld (ledger w1) (trace w1 ++ [Print EmptyMessageCancel]) (S (now w1))))
  /\ (forall cp,
        msg <> EmptyString ->
        subprocess_run env (S (now w1)) ["git"; "commit"; "-m"; msg] (Some repo)
        = Completed cp ->
        returncode cp <> 0 ->
        add_and_commit env repo add_all files w
        = (Ret tt,
           mkWorld (ledger w1)
             (trace w1 ++ commit :: panels cp ++ [Print MaybeNothingToCommit])
             (S (S (now w1))))).
Proof.
  intros Hstage msg commit. subst msg commit.
  rewrite (add_and_commit_after_stage _ _ _ _ _ Hstage), commit_step_eq.
  cbv zeta. split.
  - intros Hmsg. apply truthy_false in Hmsg. rewrite Hmsg. reflexivity.
  - intros cp Hmsg Hcp Hrc. apply truthy_true in Hmsg. rewrite Hmsg, Hcp.
    apply Z.eqb_neq in Hrc. rewrite Hrc. reflexivity.
Qed.

(** [stage_step] with [add_all], in closed form. *)
Lemma stage_all_files_eq repo files w :
  stage_step env repo true files w =
  match subprocess_run env (now w) ["git"; "add"; "."] (Some repo) with
  | Completed cp =>
      if returncode cp =? 0 then
        (Ret true,
         mkWorld
           (mkSession (TOUCHED_REPOS (ledger w) ++ [repo])
              (<[path_str repo :=
                   default [] (FILES_ADDED_BY_REPO (ledger w) !! path_str repo)
                   ++ ["."]]> (FILES_ADDED_BY_REPO (ledger w)))
              (BRANCH_CHANGED (ledger w)))
           (trace w ++ Spawn ["git"; "add"; "."] (Some repo) :: panels cp)
           (S (now w)))
      else
        (Raise RuntimeError,
         mkWorld (ledger (touched_world repo w))
           (trace w ++ Spawn ["git"; "add"; "."] (Some repo) :: panels cp)
           (S (now w)))
  | SpawnFails e =>
      (Raise e,
       mkWorld (ledger (touched_world repo w))
         (trace w ++ [Spawn ["git"; "add"; "."] (Some repo)])
         (S (now w)))
  end.
Proof.
  rewrite stage_step_eq. unfold stage_rest.
  unfold bind at 1. rewrite run_git_eq. cbn.
  destruct (subprocess_run env (now w) _ (Some repo)) as [cp|e]; cbn;
    [|reflexivity].
  destruct (returncode cp =? 0); reflexivity.
Qed.

(** C9. When the commit step is cancelled by an empty message, nothing of
    the staging is undone: the ledger is the one the staging left (the
    repository marked as touched, its staged-file record), and no backend
    command is issued after the staging command, so the index keeps what
    was staged.  With [add_all] the one command of the whole call is
    [git add .]. *)
Theorem commit_cancel_keeps_staging repo add_all files w w1 :
  stage_step env repo add_all files w = (Ret true, w1) ->
  Py.strip (Prompt_ask env (now w1)) = EmptyString ->
  let w2 := snd (add_and_commit env repo add_all files w) in
  ledger w2 = ledger w1
  /\ spawns (trace w2) = spawns (trace w1)
  /\ TOUCHED_REPOS (ledger w2) = TOUCHED_REPOS (ledger w) ++ [repo]
  /\ BRANCH_CHANGED (ledger w2) = BRANCH_CHANGED (ledger w)
  /\ (add_all = true ->
      spawns (trace w2)
      = spawns (trace w) ++ [(["git"; "add"; "."], Some repo)]
      /\ FILES_ADDED_BY_REPO (ledger w2)
         = <[path_str repo :=
               default [] (FILES_ADDED_BY_REPO (ledger w) !! path_str repo)
               ++ ["."]]> (FILES_ADDED_BY_REPO (ledger w))).
Proof.
  intros Hstage Hmsg w2.
  pose proof (add_and_commit_touches repo add_all files w) as Ht.
  pose proof (add_and_commit_same_branches repo add_all files w) as Hb.
  fold w2 in Ht, Hb.
  assert (Hw2 : w2 = mkWorld (ledger w1) (trace w1 ++ [Print EmptyMessageCancel])
                             (S (now w1))).
  { subst w2. rewrite (add_and_commit_after_stage _ _ _ _ _ Hstage), commit_step_eq.
    cbv zeta. apply truthy_false in Hmsg. rewrite Hmsg. reflexivity. }
  repeat split; try assumption.
  - rewrite Hw2. reflexivity.
  - rewrite Hw2. cbn. trace_simpl. apply app_nil_r.
  - rewrite Hw2. cbn. trace_simpl. rewrite app_nil_r.
    subst add_all. rewrite stage_all_files_eq in Hstage.
    destruct (subprocess_run env (now w) _ (Some repo)) as [cp|e];
      [|discriminate].
    destruct (returncode cp =? 0); [|discriminate].
    injection Hstage as <-. trace_simpl. reflexivity.
  - rewrite Hw2. cbn.
    subst add_all. rewrite stage_all_files_eq in Hstage.
    destruct (subprocess_run env (now w) _ (Some repo)) as [cp|e];
      [|discriminate].
    destruct (returncode cp =? 0); [|discriminate].
    injection Hstage as <-. reflexivity.
Qed.

End Staging.

(** ** The branch flow *)

Arguments create_new_branch : simpl never.
Arguments checkout_branch : simpl never.

Section BranchFlow.

Context (env : Env).

Lemma checkout_branch_same_ledger repo b create :
  stable same_ledger (checkout_branch env repo b create).
Proof. unfold checkout_branch. frame. Qed.

Lemma record_then_checkout repo current new create w :
  record_outcome repo current w
    ((set_branch_changed repo current new;;
      checkout_branch env repo new create;;
      ret new)%prog w).
Proof.
  right. exists new.
  unfold bind at 1. cbn. unfold bind.
  match goal with
  | |- context [checkout_branch env repo new create ?w1] =>
      pose proof (checkout_branch_same_ledger repo new create w1) as Hl;
      destruct (checkout_branch env repo new create w1) as [[[]| | |] w2]
  end; unfold same_ledger in Hl; cbn in *; rewrite Hl; cbn;
    (split; [reflexivity|]); intros b Hb; congruence.
Qed.

Lemma create_new_branch_record repo current w :
  record_outcome repo current w (create_new_branch env repo current w).
Proof.
  unfold create_new_branch. unfold bind at 1. cbn.
  destruct (Py.truthy (Py.strip (Prompt_ask env (now w)))); cbn.
  - exact (record_then_checkout repo current _ true
                                (mkWorld (ledger w) (trace w) (S (now w)))).
  - left. split; [reflexivity | intros b Hb; discriminate Hb].
Qed.


Lemma record_outcome_failed repo current w e w' :
  ledger w' = ledger w ->
  record_outcome repo current w (Raise e, w').
Proof.
  intros Hl. left. cbn. rewrite Hl. split; [reflexivity|]. intros b Hb.
  discriminate Hb.
Qed.

Lemma record_outcome_later repo current w w1 rw :
  ledger w1 = ledger w ->
  record_outcome repo current w1 rw -> record_outcome repo current w rw.
Proof. unfold record_outcome. intros ->. tauto. Qed.

Lemma ask_branch_flow_record repo w cp :
  subprocess_run env (now w) ["git"; "rev-parse"; "--abbrev-ref"; "HEAD"]
                 (Some repo) = Completed cp ->
  record_outcome repo (Py.strip (stdout cp)) w (ask_branch_flow env repo w).
Proof.
  intros Hcp. unfold ask_branch_flow, get_branches.
  unfold bind at 1. unfold bind at 1. rewrite run_git_eq, Hcp. cbn.
  git_step; [|apply record_outcome_failed; reflexivity].
  match goal with
  | |- context [String.eqb ?a "existing"] => destruct (String.eqb a "existing")
  end.
  - match goal with
    | |- context [match ?l with [] => _ | _ :: _ => _ end] => destruct l
    end.
    + unfold bind at 1. cbn.
      eapply record_outcome_later; [|apply create_new_branch_record].
      reflexivity.
    + unfold bind at 1. cbn.
      match goal with
      | |- context [String.eqb ?c ?d] => destruct (String.eqb_spec c d) as [Heq|Hne]
      end; cbn [negb when].
      * left. split; [reflexivity|]. intros b [= <-]. exact Heq.
      * right. eexists. unfold bind. cbn.
        match goal with
        | |- context [checkout_branch env repo ?b false ?w1] =>
            pose proof (checkout_branch_same_ledger repo b false w1) as Hl;
            destruct (checkout_branch env repo b false w1) as [[[]| | |] w2]
        end; unfold same_ledger in Hl; cbn in *; rewrite Hl; cbn;
          (split; [reflexivity|]); intros b Hb; congruence.
  - eapply record_outcome_later; [|apply create_new_branch_record].
    reflexivity.
Qed.

End BranchFlow.

(** ** Branch records and rollback *)

Lemma calm_env_complete : spawns_complete calm_env.
Proof. intros t cmd cwd. exists quiet. reflexivity. Defined.

Section BranchRollback.

Context (env : Env).

(** C1, as the code has it.  Every recorded branch change overwrites the
    record of the repository with (the branch the backend reported just
    before this change, the new branch), whatever the record held: its old
    field is the branch before the most recent change.  Rollback of a
    touched repository checks out the old field of that record. *)
Theorem branch_record_holds_latest_switch repo w :
  (forall cp,
      subprocess_run env (now w) ["git"; "rev-parse"; "--abbrev-ref"; "HEAD"]
                     (Some repo) = Completed cp ->
      let current := Py.strip (stdout cp) in
      let rw := ask_branch_flow env repo w in
      (BRANCH_CHANGED (ledger (snd rw)) = BRANCH_CHANGED (ledger w)
       /\ forall b, fst rw = Ret b -> b = current)
      \/ (exists new,
            BRANCH_CHANGED (ledger (snd rw))
            = <[path_str repo := (current, new)]> (BRANCH_CHANGED (ledger w))
            /\ forall b, fst rw = Ret b -> b = new))
  /\ (forall old new,
        BRANCH_CHANGED (ledger w) !! path_str repo = Some (old, new) ->
        spawns_complete env ->
        spawns (trace (snd (revert_repo env repo w)))
        = spawns (trace w)
          ++ [ (["git"; "restore"; "--staged"; "."], Some repo);
               (["git"; "reset"; "--hard"], Some repo);
               (["git"; "clean"; "-fd"], Some repo);
               (["git"; "checkout"; old], Some repo) ]).
Proof.
  split.
  - intros cp Hcp. exact (ask_branch_flow_record env repo w cp Hcp).
  - intros old new Hrec Hc.
    destruct (revert_repo_spec env repo w)
      as (w' & issued & Hrun & _ & _ & Hsp & _ & Hall).
    rewrite Hrun. cbn [snd]. rewrite Hsp, (Hall Hc).
    unfold compensating_steps. rewrite Hrec. reflexivity.
Qed.

End BranchRollback.

(** Witness for C1: the second switch of [switch_twice], from dev to
    feature, and the rollback of [two_touched]. *)
Lemma branch_record_holds_latest_switch_witness :
  BRANCH_CHANGED
    (ledger (snd (ask_branch_flow (script_env switch_twice) r1
                    (snd (ask_branch_flow (script_env switch_twice) r1 init_world)))))
    !! path_str r1 = Some ("dev", "feature")
  /\ spawns (trace (snd (revert_repo calm_env r1 two_touched)))
     = [ (["git"; "restore"; "--staged"; "."], Some r1);
         (["git"; "reset"; "--hard"], Some r1);
         (["git"; "clean"; "-fd"], Some r1);
         (["git"; "checkout"; "main"], Some r1) ].
Proof.
  split.
  - pose (w1 := snd (ask_branch_flow (script_env switch_twice) r1 init_world)).
    destruct (proj1 (branch_record_holds_latest_switch
                       (script_env switch_twice) r1 w1)
                    (mkProc 0 ("dev" +:+ LF) EmptyString) eq_refl)
      as [[_ Hsame]|[new [Hrec Hnew]]].
    + specialize (Hsame "feature" eq_refl). vm_compute in Hsame. discriminate Hsame.
    + fold w1. rewrite Hrec, (Hnew "feature" eq_refl). vm_compute. reflexivity.
  - exact (proj2 (branch_record_holds_latest_switch calm_env r1 two_touched)
                 "main" "dev" eq_refl calm_env_complete).
Defined.

(** C1, as the spec has it, fails: after main -> dev -> feature the record
    of the repository is (dev, feature), and cancelling checks out dev; main
    is never checked out.  Hence no further branch change preserves the old
    field in general. *)
Lemma rollback_targets_intermediate_branch :
  let env := script_env switch_twice in
  let w1 := snd (ask_branch_flow env r1 init_world) in
  let w := snd (switch_twice_session env init_world) in
  let w' := snd (handle_sigint env w) in
  BRANCH_CHANGED (ledger w1) !! path_str r1 = Some ("main", "dev")
  /\ BRANCH_CHANGED (ledger w) !! path_str r1 = Some ("dev", "feature")
  /\ fst (switch_twice_session env init_world) = Ret tt
  /\ drop (length (spawns (trace w))) (spawns (trace w'))
     = [ (["git"; "restore"; "--staged"; "."], Some r1);
         (["git"; "reset"; "--hard"], Some r1);
         (["git"; "clean"; "-fd"], Some r1);
         (["git"; "checkout"; "dev"], Some r1) ]
  /\ ~ (forall env repo w old new,
          BRANCH_CHANGED (ledger w) !! path_str repo = Some (old, new) ->
          exists new',
            BRANCH_CHANGED (ledger (snd (ask_branch_flow env repo w)))
              !! path_str repo = Some (old, new')).
Proof.
  cbv zeta.
  split; [vm_compute; reflexivity|].
  split; [vm_compute; reflexivity|].
  split; [vm_compute; reflexivity|].
  split; [vm_compute; reflexivity|].
  intros Hclaim.
  destruct (Hclaim (script_env switch_twice) r1
                   (snd (ask_branch_flow (script_env switch_twice) r1 init_world))
                   "main" "dev") as [new' Hnew'].
  - vm_compute. reflexivity.
  - vm_compute in Hnew'. discriminate Hnew'.
Qed.

(** The current branch is what git printed with the surrounding white space
    removed, a no-break space included. *)
Example get_branches_strips :
  fst (get_branches (script_env [says ("dev" +:+ NBSP +:+ LF); says branch_list])
                    r1 init_world)
  = Ret ("dev", ["main"; "dev"; "feature"]).
Proof. vm_compute. reflexivity. Qed.

(** ** Cancellation *)

Section Cancellation.

Context (env : Env).

(** C2, as the code has it.  The handler makes one pass over the touched
    list and exits with 130.  The list has one entry per staging attempt,
    in the order of the attempts, also for a repository that is already
    listed; the pass visits the entries in that order, so a repository is
    visited once for every staging attempt made on it. *)
Theorem rollback_visits_follow_attempts attempts w w1 :
  stage_all env attempts w = (Ret tt, w1) ->
  exists w2,
    handle_sigint env w1 = (SysExit 130, w2)
    /\ visits (trace w2)
       = visits (trace w1)
         ++ TOUCHED_REPOS (ledger w) ++ (attempt_repo <$> attempts).
Proof.
  intros Hstage.
  destruct (handle_sigint_spec env w1) as (w2 & blocks & Hrun & _ & Hvis & _).
  exists w2. split; [exact Hrun|].
  rewrite Hvis, (stage_all_touches env attempts w w1 Hstage). reflexivity.
Qed.

End Cancellation.

(** Witness for C2: two committed staging attempts on one repository. *)
Lemma rollback_visits_follow_attempts_witness :
  exists w2,
    handle_sigint (script_env stage_twice)
      (snd (stage_all (script_env stage_twice) two_attempts init_world))
    = (SysExit 130, w2)
    /\ visits (trace w2) = [r1; r1].
Proof.
  destruct (rollback_visits_follow_attempts (script_env stage_twice) two_attempts
              init_world
              (snd (stage_all (script_env stage_twice) two_attempts init_world)))
    as (w2 & Hrun & Hvis).
  - vm_compute. reflexivity.
  - exists w2. split; [exact Hrun|]. rewrite Hvis. vm_compute. reflexivity.
Defined.

(** C2, as the spec has it, fails: a repository with two staging attempts is
    listed twice and rollback visits it twice. *)
Lemma rollback_visits_repo_twice :
  let env := script_env stage_twice in
  let w := snd (stage_all env two_attempts init_world) in
  fst (stage_all env two_attempts init_world) = Ret tt
  /\ TOUCHED_REPOS (ledger w) = [r1; r1]
  /\ visits (trace (snd (handle_sigint env w))) = [r1; r1]
  /\ ~ (forall env attempts,
          NoDup (visits (trace (snd (handle_sigint env
                   (snd (stage_all env attempts init_world))))))).
Proof.
  cbv zeta.
  split; [vm_compute; reflexivity|].
  split; [vm_compute; reflexivity|].
  split; [vm_compute; reflexivity|].
  intros Hclaim. specialize (Hclaim (script_env stage_twice) two_attempts).
  vm_compute in Hclaim. apply NoDup_cons_1_1 in Hclaim. apply Hclaim. left.
Qed.

Lemma script_env_complete script :
  Forall (fun a => forall e, a <> AProc (SpawnFails e)) script ->
  spawns_complete (script_env script).
Proof.
  intros Hall t cmd cwd. cbn.
  destruct (script !! t) as [a|] eqn:Ht; [|eauto].
  destruct a as [[cp|e]| | | |]; eauto.
  exfalso. eapply Forall_lookup_1 in Hall; [|exact Ht]. eapply Hall. reflexivity.
Qed.

(** Witness for C5: both entries of [two_touched] are rolled back, the first
    one with the checkout of its recorded branch; and when the first step of
    the first entry cannot be started, the rest of that entry is left out
    and the second entry is rolled back in full. *)
Lemma rollback_compensating_steps_witness :
  fst (handle_sigint calm_env two_touched) = SysExit 130
  /\ spawns (trace (snd (handle_sigint calm_env two_touched)))
     = [ (["git"; "restore"; "--staged"; "."], Some r1);
         (["git"; "reset"; "--hard"], Some r1);
         (["git"; "clean"; "-fd"], Some r1);
         (["git"; "checkout"; "main"], Some r1);
         (["git"; "restore"; "--staged"; "."], Some r2);
         (["git"; "reset"; "--hard"], Some r2);
         (["git"; "clean"; "-fd"], Some r2) ]
  /\ spawns (trace (snd (handle_sigint (script_env first_step_cannot_start)
                                       two_touched)))
     = [ (["git"; "restore"; "--staged"; "."], Some r1);
         (["git"; "restore"; "--staged"; "."], Some r2);
         (["git"; "reset"; "--hard"], Some r2);
         (["git"; "clean"; "-fd"], Some r2) ].
Proof.
  pose proof (rollback_compensating_steps calm_env two_touched) as Hcalm.
  pose proof (rollback_compensating_steps (script_env first_step_cannot_start)
                                          two_touched) as Hcut.
  cbv zeta in Hcalm, Hcut.
  destruct Hcalm as (Hexit & _ & _ & _ & Hall).
  destruct Hcut as (_ & _ & Hcmds & _).
  split; [exact Hexit|]. split.
  - rewrite (Hall calm_env_complete). vm_compute. reflexivity.
  - rewrite Hcmds. vm_compute. reflexivity.
Defined.

(** C5, as the spec has it, fails: the steps are run for every entry of the
    touched list, not once for every repository.  A repository with two
    staging attempts is listed twice, and rollback runs its steps twice. *)
Lemma rollback_steps_repeat_with_entries :
  let env := script_env stage_twice in
  let w := snd (stage_all env two_attempts init_world) in
  let steps := [ (["git"; "restore"; "--staged"; "."], Some r1);
                 (["git"; "reset"; "--hard"], Some r1);
                 (["git"; "clean"; "-fd"], Some r1) ] in
  fst (stage_all env two_attempts init_world) = Ret tt
  /\ first_touched [] (TOUCHED_REPOS (ledger w)) = [r1]
  /\ compensating_steps (ledger w) r1 = steps
  /\ spawns (trace (snd (handle_sigint env w))) = spawns (trace w) ++ steps ++ steps
  /\ ~ (forall env attempts,
          spawns_complete env ->
          let w := snd (stage_all env attempts init_world) in
          spawns (trace (snd (handle_sigint env w)))
          = spawns (trace w)
            ++ concat (compensating_steps (ledger w)
                         <$> first_touched [] (TOUCHED_REPOS (ledger w)))).
Proof.
  cbv zeta.
  split; [vm_compute; reflexivity|].
  split; [vm_compute; reflexivity|].
  split; [vm_compute; reflexivity|].
  split; [vm_compute; reflexivity|].
  intros Hclaim.
  assert (Hc : spawns_complete (script_env stage_twice)).
  { apply script_env_complete. unfold stage_twice, says.
    repeat constructor; discriminate. }
  specialize (Hclaim (script_env stage_twice) two_attempts Hc).
  vm_compute in Hclaim. discriminate Hclaim.
Qed.

(** ** The staged-file record *)

Arguments commit_step : simpl never.
Arguments existing_from : simpl never.
Arguments missing_from : simpl never.

Section StagedRecord.

Context (env : Env).

Lemma existing_files_eq repo files w :
  existing_files env repo files w
  = (Ret (existing_from env (now w) repo files),
     mkWorld (ledger w) (trace w ++ missing_from env (now w) repo files)
             (length files + now w)).
Proof.
  revert w. induction files as [|f files IH]; intros w.
  - cbn. unfold missing_from. rewrite app_nil_r. destruct w; reflexivity.
  - cbn [existing_files length]. unfold existing_from, missing_from.
    fold existing_from missing_from.
    unfold bind at 1. cbn.
    destruct (path_exists env (now w) repo f); cbn.
    + unfold bind at 1. rewrite IH. cbn. rewrite Nat.add_succ_r. reflexivity.
    + unfold bind at 1. rewrite IH. cbn.
      rewrite Nat.add_succ_r, <- app_assoc. reflexivity.
Qed.

Lemma staged_after_add_all repo files w :
  FILES_ADDED_BY_REPO (ledger (snd (add_and_commit env repo true files w)))
  = match subprocess_run env (now w) ["git"; "add"; "."] (Some repo) with
    | Completed cp =>
        if returncode cp =? 0 then staged_more (ledger w) repo ["."]
        else FILES_ADDED_BY_REPO (ledger w)
    | SpawnFails _ => FILES_ADDED_BY_REPO (ledger w)
    end.
Proof.
  unfold add_and_commit. unfold bind at 1. rewrite stage_all_files_eq.
  destruct (subprocess_run env (now w) _ (Some repo)) as [cp|e];
    [|reflexivity].
  destruct (returncode cp =? 0); [|reflexivity].
  match goal with
  | |- context [commit_step env repo ?w1] =>
      rewrite (commit_step_same_ledger env repo w1)
  end.
  reflexivity.
Qed.

Lemma staged_after_add_files repo f fs w :
  FILES_ADDED_BY_REPO
    (ledger (snd (add_and_commit env repo false (Some (f :: fs)) w)))
  = match existing_from env (now w) repo (f :: fs) with
    | [] => FILES_ADDED_BY_REPO (ledger w)
    | ok =>
        match subprocess_run env (length (f :: fs) + now w)
                             ("git" :: "add" :: ok) (Some repo) with
        | Completed cp =>
            if returncode cp =? 0 then staged_more (ledger w) repo ok
            else FILES_ADDED_BY_REPO (ledger w)
        | SpawnFails _ => FILES_ADDED_BY_REPO (ledger w)
        end
    end.
Proof.
  rewrite add_and_commit_eq. unfold stage_rest.
  unfold bind at 1. unfold bind at 1. unfold bind at 1.
  rewrite existing_files_eq.
  change (now (touched_world repo w)) with (now w).
  destruct (existing_from env (now w) repo (f :: fs)) as [|g ok] eqn:Hok.
  - cbn -[length].
    match goal with
    | |- context [commit_step env repo ?w1] =>
        rewrite (commit_step_same_ledger env repo w1)
    end.
    reflexivity.
  - unfold bind at 1. rewrite run_git_eq. cbn -[length].
    destruct (subprocess_run env _ _ (Some repo)) as [cp|e]; [|reflexivity].
    destruct (returncode cp =? 0); cbn -[length]; [|reflexivity].
    match goal with
    | |- context [commit_step env repo ?w1] =>
        rewrite (commit_step_same_ledger env repo w1)
    end.
    reflexivity.
Qed.

End StagedRecord.

(** ** The touched list only grows *)

#[local] Hint Resolve commit_step_same_ledger checkout_branch_same_ledger : frame.

Section Growth.

Context (env : Env).

Lemma rel_of_same_ledger repo_path f : stable same_ledger (rel_of repo_path f).
Proof. unfold rel_of. frame. Qed.

Hint Resolve rel_of_same_ledger : frame.

Lemma rels_of_same_ledger repo_path l : stable same_ledger (rels_of repo_path l).
Proof. induction l as [|f l IH]; cbn [rels_of]; frame. Qed.

Hint Resolve rels_of_same_ledger : frame.

Lemma browse_iter_same_ledger repo_path b :
  stable same_ledger (browse_iter env repo_path b).
Proof.
  unfold browse_iter, dispatch_row, finish, choose_file, remove_last,
    list_selection.
  frame.
Qed.

Hint Resolve browse_iter_same_ledger : frame.

(** The browser never writes the ledger. *)
Lemma browse_loop_same_ledger fuel repo_path b :
  stable same_ledger (browse_loop env fuel repo_path b).
Proof.
  revert b. induction fuel as [|fuel IH]; intros b; cbn [browse_loop]; frame.
Qed.

Lemma browse_same_ledger fuel repo_path :
  stable same_ledger (browse_and_select_files env fuel repo_path).
Proof. apply browse_loop_same_ledger. Qed.

Hint Resolve browse_same_ledger : frame.

Lemma pick_files_same_ledger fuel repo files :
  stable same_ledger (pick_files env fuel repo files).
Proof.
  revert files. induction fuel as [|fuel IH]; intros files; cbn [pick_files];
    frame.
Qed.

Hint Resolve pick_files_same_ledger : frame.

Lemma add_and_commit_grows repo add_all files :
  stable touched_grows (add_and_commit env repo add_all files).
Proof.
  intros w. unfold touched_grows. rewrite add_and_commit_touches.
  apply prefix_app_r. reflexivity.
Qed.

Hint Resolve add_and_commit_grows : frame.

Lemma get_branches_same_ledger repo : stable same_ledger (get_branches env repo).
Proof. unfold get_branches. frame. Qed.

Hint Resolve get_branches_same_ledger : frame.

Lemma ask_branch_flow_same_touched repo :
  stable same_touched (ask_branch_flow env repo).
Proof. unfold ask_branch_flow, create_new_branch. frame. Qed.

Lemma ask_branch_flow_same_staged repo :
  stable same_staged (ask_branch_flow env repo).
Proof. unfold ask_branch_flow, create_new_branch. frame. Qed.

Lemma ask_branch_flow_grows repo : stable touched_grows (ask_branch_flow env repo).
Proof. unfold ask_branch_flow, create_new_branch. frame. Qed.

Hint Resolve ask_branch_flow_grows : frame.

Lemma do_action_grows repo action : stable touched_grows (do_action env repo action).
Proof. unfold do_action. frame. Qed.

Lemma do_action_same_touched repo action :
  stable same_touched (do_action env repo action).
Proof.
  pose proof ask_branch_flow_same_touched. unfold do_action. frame.
Qed.

Hint Resolve do_action_grows : frame.

Lemma maybe_stage_and_commit_grows fuel repo :
  stable touched_grows (maybe_stage_and_commit env fuel repo).
Proof. unfold maybe_stage_and_commit, has_uncommitted_changes. frame. Qed.

Hint Resolve maybe_stage_and_commit_grows : frame.

Lemma repo_loop_grows fuel path : stable touched_grows (repo_loop env fuel path).
Proof. induction fuel as [|fuel IH]; cbn [repo_loop]; frame. Qed.

Lemma handle_sigint_grows : stable touched_grows (handle_sigint env).
Proof. frame. Qed.

(** C7, as the code has it.  Every staging attempt appends its repository
    to the touched list when it starts, whatever the stage and commit
    calls then do.  The staged-file record is extended after the stage
    call, and only if that call completed with status 0; the outcome of
    the commit does not matter to it.  No operation of the session removes
    an entry of the touched list. *)
Theorem touched_at_start_staged_after_success repo files w :
  (forall add_all,
      TOUCHED_REPOS (ledger (snd (add_and_commit env repo add_all files w)))
      = TOUCHED_REPOS (ledger w) ++ [repo])
  /\ FILES_ADDED_BY_REPO (ledger (snd (add_and_commit env repo true files w)))
     = match subprocess_run env (now w) ["git"; "add"; "."] (Some repo) with
       | Completed cp =>
           if returncode cp =? 0 then staged_more (ledger w) repo ["."]
           else FILES_ADDED_BY_REPO (ledger w)
       | SpawnFails _ => FILES_ADDED_BY_REPO (ledger w)
       end
  /\ (forall f fs,
        FILES_ADDED_BY_REPO
          (ledger (snd (add_and_commit env repo false (Some (f :: fs)) w)))
        = match existing_from env (now w) repo (f :: fs) with
          | [] => FILES_ADDED_BY_REPO (ledger w)
          | ok =>
              match subprocess_run env (length (f :: fs) + now w)
                                   ("git" :: "add" :: ok) (Some repo) with
              | Completed cp =>
                  if returncode cp =? 0 then staged_more (ledger w) repo ok
                  else FILES_ADDED_BY_REPO (ledger w)
              | SpawnFails _ => FILES_ADDED_BY_REPO (ledger w)
              end
          end)
  /\ FILES_ADDED_BY_REPO (ledger (snd (add_and_commit env repo false None w)))
     = FILES_ADDED_BY_REPO (ledger w)
  /\ FILES_ADDED_BY_REPO (ledger (snd (add_and_commit env repo false (Some []) w)))
     = FILES_ADDED_BY_REPO (ledger w)
  /\ (forall fuel action add_all,
        stable touched_grows (add_and_commit env repo add_all files)
        /\ stable touched_grows (maybe_stage_and_commit env fuel repo)
        /\ stable touched_grows (do_action env repo action)
        /\ stable touched_grows (ask_branch_flow env repo)
        /\ stable touched_grows (browse_and_select_files env fuel repo)
        /\ stable touched_grows (repo_loop env fuel repo)
        /\ stable touched_grows (handle_sigint env)).
Proof.
  split; [|split; [|split; [|split; [|split]]]].
  - intros add_all. apply add_and_commit_touches.
  - apply staged_after_add_all.
  - intros f fs. apply staged_after_add_files.
  - reflexivity.
  - reflexivity.
  - intros fuel action add_all. repeat split; frame.
    apply repo_loop_grows.
Qed.

End Growth.

(** C7, as the spec has it, fails: when the stage call ends with a non-zero
    status the repository is touched but nothing is added to its staged-file
    record. *)
Lemma failed_stage_is_not_recorded :
  let env := script_env [fails_with 1] in
  let rw := add_and_commit env r1 true None init_world in
  fst rw = Raise RuntimeError
  /\ TOUCHED_REPOS (ledger (snd rw)) = [r1]
  /\ FILES_ADDED_BY_REPO (ledger (snd rw)) !! path_str r1 = None
  /\ ~ (forall env repo add_all files w,
          exists fs,
            FILES_ADDED_BY_REPO
              (ledger (snd (add_and_commit env repo add_all files w)))
              !! path_str repo = Some fs
            /\ fs <> default [] (FILES_ADDED_BY_REPO (ledger w) !! path_str repo)).
Proof.
  cbv zeta.
  split; [vm_compute; reflexivity|].
  split; [vm_compute; reflexivity|].
  split; [vm_compute; reflexivity|].
  intros Hclaim.
  destruct (Hclaim (script_env [fails_with 1]) r1 true None init_world)
    as (fs & Hfs & _).
  vm_compute in Hfs. discriminate Hfs.
Qed.

(** ** The commit step on concrete sessions *)

(** Witness for C8: a blank message, and a commit git refuses. *)
Lemma empty_message_and_failed_commit_not_fatal_witness :
  fst (add_and_commit (script_env blank_message) r1 true None init_world) = Ret tt
  /\ fst (add_and_commit (script_env refused_commit) r1 true None init_world) = Ret tt.
Proof.
  split.
  - rewrite (proj1 (empty_message_and_failed_commit_not_fatal
                      (script_env blank_message) r1 true None init_world
                      (snd (stage_step (script_env blank_message) r1 true None
                                       init_world))
                      eq_refl) eq_refl).
    reflexivity.
  - rewrite (proj2 (empty_message_and_failed_commit_not_fatal
                      (script_env refused_commit) r1 true None init_world
                      (snd (stage_step (script_env refused_commit) r1 true None
                                       init_world))
                      eq_refl)
                   (mkProc 1 "nothing to commit, working tree clean" EmptyString)
                   ltac:(vm_compute; discriminate) eq_refl
                   ltac:(vm_compute; discriminate)).
    reflexivity.
Defined.

(** Witness for C9: after the blank message the ledger holds the staging of
    [r1] and [git add .] is the only command that was issued. *)
Lemma commit_cancel_keeps_staging_witness :
  let w2 := snd (add_and_commit (script_env blank_message) r1 true None init_world) in
  TOUCHED_REPOS (ledger w2) = [r1]
  /\ FILES_ADDED_BY_REPO (ledger w2) !! path_str r1 = Some ["."]
  /\ spawns (trace w2) = [(["git"; "add"; "."], Some r1)].
Proof.
  destruct (commit_cancel_keeps_staging
              (script_env blank_message) r1 true None init_world
              (snd (stage_step (script_env blank_message) r1 true None init_world))
              eq_refl eq_refl)
    as (_ & _ & Ht & _ & Hall).
  destruct (Hall eq_refl) as [Hsp Hfiles].
  cbv zeta. rewrite Ht, Hsp, Hfiles. vm_compute. repeat split; reflexivity.
Defined.

(** ** The review tool *)

(** C4.  With the review tool absent from the machine the probe itself
    raises, and [do_action] lets the exception through: no guidance is
    printed and the call does not return normally. *)
Theorem create_pr_without_gh_raises :
  do_action (script_env gh_not_installed) r1 create_pr init_world
  = (Raise FileNotFoundError,
     mkWorld empty_session
       [ Spawn ["git"; "rev-parse"; "--abbrev-ref"; "HEAD"] (Some r1);
         Print (PanelStdout "main");
         Spawn ["gh"; "--version"] None ]
       2).
Proof. vm_compute. reflexivity. Qed.

(** The branch of [do_action] that the claim describes is taken only when
    the probe completes with a non-zero status. *)
Lemma create_pr_probe_nonzero_prints_guidance :
  do_action (script_env gh_probe_fails) r1 create_pr init_world
  = (Ret tt,
     mkWorld empty_session
       [ Spawn ["git"; "rev-parse"; "--abbrev-ref"; "HEAD"] (Some r1);
         Print (PanelStdout "main");
         Spawn ["gh"; "--version"] None;
         Print GhMissing; Print GhInstallHint ]
       2).
Proof. vm_compute. reflexivity. Qed.

(** ** Relative paths as strings *)

Section PathStrings.

Lemma valid_name_no_slash n : valid_name n = true -> has_slash n = false.
Proof.
  unfold valid_name. rewrite !andb_true_iff, !negb_true_iff. tauto.
Qed.

Lemma split_slash_app a s :
  has_slash a = false ->
  split_slash (a +:+ s)
  = match split_slash s with
    | x :: xs => (a +:+ x) :: xs
    | [] => [a]
    end.
Proof.
  induction a as [|c a IH]; intros Ha.
  - change (EmptyString +:+ s) with s.
    destruct (split_slash s) eqn:E; [|reflexivity].
    destruct s as [|d s]; cbn in E; [discriminate|].
    destruct (Ascii.eqb d "/"); [discriminate|].
    destruct (split_slash s); discriminate.
  - cbn in Ha. apply orb_false_iff in Ha as [Hc Ha].
    change (String c a +:+ s) with (String c (a +:+ s)).
    cbn [split_slash]. rewrite Hc, (IH Ha).
    destruct (split_slash s); reflexivity.
Qed.

Lemma append_empty_r a : a +:+ EmptyString = a.
Proof.
  induction a as [|c a IH]; [reflexivity|].
  change (String c a +:+ EmptyString) with (String c (a +:+ EmptyString)).
  rewrite IH. reflexivity.
Qed.

Lemma split_slash_name a : has_slash a = false -> split_slash a = [a].
Proof.
  intros Ha. rewrite <- (append_empty_r a) at 1.
  rewrite (split_slash_app a EmptyString Ha). cbn.
  rewrite append_empty_r. reflexivity.
Qed.

Lemma split_slash_join names :
  names <> [] ->
  Forall (fun n => valid_name n = true) names ->
  split_slash (Py.join "/" names) = names.
Proof.
  intros Hne Hall. induction Hall as [|a names Ha Hall IH]; [congruence|].
  destruct names as [|b names].
  - cbn. apply split_slash_name, valid_name_no_slash, Ha.
  - change (Py.join "/" (a :: b :: names))
      with (a +:+ String "/" (Py.join "/" (b :: names))).
    rewrite split_slash_app by (apply valid_name_no_slash, Ha).
    cbn [split_slash]. rewrite Ascii.eqb_refl.
    rewrite IH by discriminate. rewrite append_empty_r. reflexivity.
Qed.

Lemma rel_str_join names : names <> [] -> rel_str names = Py.join "/" names.
Proof. destruct names; [congruence|reflexivity]. Qed.

Lemma relative_to_app root names : relative_to (root ++ names) root = Some names.
Proof.
  induction root as [|r root IH]; cbn; [destruct names; reflexivity|].
  rewrite decide_True by reflexivity. exact IH.
Qed.

Lemma rel_name_app root names : rel_name root (root ++ names) = rel_str names.
Proof. unfold rel_name. rewrite drop_app_length. reflexivity. Qed.

End PathStrings.

(** ** The browser's invariant *)

#[local] Instance no_addition_po : PreOrder no_addition.
Proof.
  split; [intros w; reflexivity|].
  intros a b c Hab Hbc. unfold no_addition in *. congruence.
Qed.

Lemma console_print_no_addition m :
  is_added m = false -> stable no_addition (console_print m).
Proof.
  intros Hm w. unfold no_addition. cbn. rewrite additions_app, additions_cons.
  destruct m; try discriminate Hm; cbn; apply app_nil_r.
Qed.

Lemma ask_no_addition {A} (o : nat -> A) : stable no_addition (ask o).
Proof. intros w. reflexivity. Qed.

#[local] Hint Resolve ask_no_addition : frame.
#[local] Hint Extern 1 (stable no_addition (console_print _)) =>
  apply console_print_no_addition; reflexivity : frame.

Section BrowserInvariant.

Context (env : Env) (root : Path) (base : list string).

Lemma rel_of_under f w :
  under root f -> rel_of root f w = (Ret (rel_name root f), w).
Proof.
  intros (names & _ & _ & ->). unfold rel_of.
  rewrite relative_to_app, rel_name_app. reflexivity.
Qed.

Lemma rels_of_under sel w :
  Forall (under root) sel -> rels_of root sel w = (Ret (rel_name root <$> sel), w).
Proof.
  induction 1 as [|f sel Hf Hsel IH]; [reflexivity|].
  cbn [rels_of]. unfold bind at 1. rewrite (rel_of_under f w Hf).
  unfold bind at 1. rewrite IH. reflexivity.
Qed.

Lemma rel_of_no_addition f : stable no_addition (rel_of root f).
Proof. unfold rel_of. frame. Qed.

Hint Resolve rel_of_no_addition : frame.

Lemma rels_of_no_addition sel : stable no_addition (rels_of root sel).
Proof. induction sel as [|f sel IH]; cbn [rels_of]; frame. Qed.

Hint Resolve rels_of_no_addition : frame.

Lemma selection_ok_quiet sel w w' :
  no_addition w w' -> selection_ok root base sel w -> selection_ok root base sel w'.
Proof.
  unfold no_addition, selection_ok. intros ->. tauto.
Qed.

Lemma browser_ok_quiet b w w' :
  no_addition w w' -> browser_ok root base b w -> browser_ok root base b w'.
Proof.
  unfold browser_ok. intros Hq [Hc Hs]. eauto using selection_ok_quiet.
Qed.

(** *** Rules *)

Lemma preserves_continue b : preserves root base b (ret (Continue b)).
Proof. intros w Hok. exact Hok. Qed.

Lemma preserves_raise b e : preserves root base b (raise e).
Proof. intros w Hok. exact I. Qed.

Lemma preserves_bind {A} (Q : A -> Prop) b (m : M A) (k : A -> M Next) :
  stable no_addition m -> yields Q m ->
  (forall a, Q a -> preserves root base b (k a)) ->
  preserves root base b (bind m k).
Proof.
  intros Hq HQ Hk w Hok. unfold bind.
  specialize (Hq w). specialize (HQ w).
  destruct (m w) as [[a| | |] w1]; cbn in *; try exact I.
  apply (Hk a); [eapply HQ; reflexivity|].
  eapply browser_ok_quiet; eassumption.
Qed.

Lemma preserves_seq {A} b (m : M A) (k : A -> M Next) :
  stable no_addition m ->
  (forall a, preserves root base b (k a)) ->
  preserves root base b (bind m k).
Proof.
  intros Hq Hk. apply (preserves_bind (fun _ => True)); auto.
  intros w a w' _. exact I.
Qed.

Lemma preserves_move b target :
  cursor_ok root target ->
  preserves root base b
    (ret (Continue (mkBrowser target (selected b) (visited_files b)))).
Proof. intros Hc w [_ Hs]. split; assumption. Qed.

Lemma preserves_return b :
  preserves root base b
    (result <- rels_of root (selected b);; ret (Return result))%prog.
Proof.
  intros w [Hc Hs]. unfold bind.
  rewrite rels_of_under by apply Hs. cbn.
  exists (selected b). split; [reflexivity | exact Hs].
Qed.


(** *** The branches of the loop body *)

Lemma finish_preserves b : preserves root base b (finish env root b).
Proof.
  unfold finish. destruct (selected b) as [|f sel] eqn:E.
  - apply preserves_seq; [frame|]. intros [|].
    + intros w [_ Hs]. exists []. rewrite E in Hs. split; [reflexivity|exact Hs].
    + apply preserves_continue.
  - rewrite <- E.
    apply preserves_seq; [frame|]. intros rels.
    apply preserves_seq; [frame|]. intros _.
    apply preserves_seq; [frame|]. intros [|].
    + apply preserves_return.
    + apply preserves_continue.
Qed.

Lemma under_child cur name :
  cursor_ok root cur -> valid_name name = true ->
  under root (path_child cur name).
Proof.
  intros (ds & Hds & ->) Hn. exists (ds ++ [name]). repeat split.
  - destruct ds; discriminate.
  - apply Forall_app. split; [assumption|]. constructor; [assumption|constructor].
  - unfold path_child. rewrite app_assoc. reflexivity.
Qed.

Lemma choose_file_preserves b name :
  valid_name name = true ->
  preserves root base b (choose_file root b (path_child (current b) name)).
Proof.
  intros Hn w [Hc Hs]. unfold choose_file.
  pose proof (under_child _ _ Hc Hn) as Hu.
  case_bool_decide as Hin.
  - cbn. split; [exact Hc|].
    eapply selection_ok_quiet; [|exact Hs].
    unfold no_addition. cbn. rewrite additions_app. cbn. apply app_nil_r.
  - unfold bind at 1. rewrite (rel_of_under _ _ Hu). cbn.
    destruct Hs as (Hnd & Hall & log & Hlog & Hsub).
    split; [exact Hc|]. repeat split.
    + apply NoDup_app. repeat split; [assumption| |apply NoDup_singleton].
      intros x Hx Hx'. apply list_elem_of_singleton in Hx'. subst x. contradiction.
    + apply Forall_app. split; [assumption|]. constructor; [assumption|constructor].
    + exists (log ++ [rel_name root (path_child (current b) name)]).
      cbn [trace selected].
      rewrite additions_app, Hlog, <- app_assoc. split; [reflexivity|].
      rewrite fmap_app. apply sublist_app; [assumption|reflexivity].
Qed.

Lemma remove_last_preserves b : preserves root base b (remove_last root b).
Proof.
  intros w [Hc Hs]. unfold remove_last.
  destruct (last (selected b)) as [removed|] eqn:E.
  - apply last_Some in E as [sel' E].
    destruct Hs as (Hnd & Hall & log & Hlog & Hsub).
    rewrite E in Hnd, Hall, Hsub |- *.
    apply NoDup_app in Hnd as (Hnd & _ & _).
    apply Forall_app in Hall as [Hall Hrem].
    apply Forall_cons in Hrem as [Hrem _].
    unfold bind at 1. rewrite (rel_of_under _ _ Hrem). cbn.
    rewrite removelast_last.
    split; [exact Hc|]. repeat split; try assumption.
    exists log. cbn [trace selected]. rewrite additions_app. cbn. rewrite app_nil_r.
    split; [assumption|].
    etransitivity; [|exact Hsub]. rewrite fmap_app. apply sublist_inserts_r.
    reflexivity.
  - cbn. split; [exact Hc|].
    eapply selection_ok_quiet; [|exact Hs].
    unfold no_addition. cbn. rewrite additions_app. cbn. apply app_nil_r.
Qed.

Lemma list_selection_preserves b :
  preserves root base b (list_selection env root b).
Proof.
  unfold list_selection.
  apply preserves_seq; [frame|]. intros _.
  apply preserves_seq; [frame|]. intros _.
  apply preserves_continue.
Qed.

End BrowserInvariant.

(** ** The menu *)

Section Menu.

Lemma insert_sorted_Forall (P : DirEntry -> Prop) x l :
  P x -> Forall P l -> Forall P (insert_sorted x l).
Proof.
  intros Hx. induction 1 as [|y l Hy Hl IH]; cbn.
  - constructor; [assumption|constructor].
  - destruct (key_le x y); repeat constructor; assumption.
Qed.

Lemma sorted_entries_Forall (P : DirEntry -> Prop) l :
  Forall P l -> Forall P (sorted_entries l).
Proof.
  unfold sorted_entries. induction 1; cbn;
    [constructor | apply insert_sorted_Forall; assumption].
Qed.

Lemma number_items_lookup idx items table m num r :
  (number_items idx items table m).2 !! num = Some r ->
  m !! num = Some r \/ r ∈ item_row <$> items.
Proof.
  revert idx table m. induction items as [|it items IH]; intros idx table m; cbn.
  - auto.
  - intros H. apply IH in H as [H|H].
    + destruct (decide (idx = num)) as [->|Hne].
      * rewrite lookup_insert_eq in H. injection H as <-. right. left.
      * rewrite lookup_insert_ne in H by assumption. auto.
    + right. right. assumption.
Qed.

Lemma build_menu_rows root b entries num r :
  (build_menu root b entries).2 !! num = Some r -> menu_row root b entries r.
Proof.
  unfold build_menu. intros H.
  apply number_items_lookup in H as [H|H];
    [rewrite lookup_empty in H; discriminate|].
  rewrite !fmap_app in H.
  apply elem_of_app in H as [H|H]; [|apply elem_of_app in H as [H|H]].
  - unfold control_items in H. destruct (decide (current b = root)) as [Heq|Hne].
    + cbn in H. apply list_elem_of_singleton in H. right. left. exact H.
    + cbn in H. apply elem_of_cons in H as [H|H].
      * left. auto.
      * apply list_elem_of_singleton in H. right. left. exact H.
  - unfold dir_items in H. rewrite <- list_fmap_compose in H.
    apply list_elem_of_fmap in H as (e & -> & He).
    apply list_elem_of_filter in He as [_ He].
    right. right. left. exists e. auto.
  - unfold file_items in H. rewrite <- list_fmap_compose in H.
    apply list_elem_of_fmap in H as (e & -> & He).
    apply list_elem_of_filter in He as [_ He].
    right. right. right. exists e. auto.
Qed.

End Menu.

(** ** The loop *)

Section BrowserLoop.

Context (env : Env) (root : Path) (base : list string).

Lemma cursor_ok_parent cur :
  cursor_ok root cur -> cur <> root -> cursor_ok root (path_parent cur).
Proof.
  intros (ds & Hds & ->) Hne.
  destruct ds as [|d ds _] using rev_ind.
  - rewrite app_nil_r in Hne. congruence.
  - exists ds. apply Forall_app in Hds as [Hds _]. split; [assumption|].
    unfold path_parent. rewrite app_assoc. apply removelast_last.
Qed.

Lemma cursor_ok_child cur name :
  cursor_ok root cur -> valid_name name = true ->
  cursor_ok root (path_child cur name).
Proof.
  intros (ds & Hds & ->) Hn. exists (ds ++ [name]). split.
  - apply Forall_app. split; [assumption|]. constructor; [assumption|constructor].
  - unfold path_child. rewrite app_assoc. reflexivity.
Qed.

Lemma dispatch_row_preserves b entries r :
  Forall (fun e => valid_name (entry_name e) = true) entries ->
  menu_row root b entries r ->
  preserves root base b (dispatch_row env root b r).
Proof.
  intros Hval [[Hne ->]|[->|[(e & He & ->)|(e & He & ->)]]];
    unfold dispatch_row; cbn.
  - intros w Hok. apply preserves_move; [|exact Hok].
    apply cursor_ok_parent; [apply Hok | exact Hne].
  - apply finish_preserves.
  - intros w Hok. apply preserves_move; [|exact Hok].
    apply cursor_ok_child; [apply Hok|].
    rewrite Forall_forall in Hval. apply Hval, He.
  - apply choose_file_preserves.
    rewrite Forall_forall in Hval. apply Hval, He.
Qed.

Hypothesis fs_ok : valid_fs env.

Lemma browse_iter_preserves b :
  preserves root base b (browse_iter env root b).
Proof.
  unfold browse_iter.
  apply (preserves_bind root base
           (fun listing => forall l, listing = Entries l ->
              Forall (fun e => valid_name (entry_name e) = true) l));
    [frame| |].
  { intros w a w' [= <- _] l Hl. eapply fs_ok, Hl. }
  intros listing Hlisting.
  apply (preserves_bind root base
           (Forall (fun e => valid_name (entry_name e) = true))).
  { destruct listing; frame. }
  { destruct listing as [l| |e]; cbn.
    - intros w a w' [= <- _]. apply sorted_entries_Forall, Hlisting. reflexivity.
    - intros w a w' [= <- _]. constructor.
    - intros w a w' [=]. }
  intros dir_entries Hentries.
  pose proof (build_menu_rows root b dir_entries) as Hrows.
  destruct (build_menu root b dir_entries) as [table index_map]. cbn [snd] in Hrows.
  apply preserves_seq; [frame|]. intros _.
  apply preserves_seq; [frame|]. intros choice.
  destruct (negb (Py.truthy choice)); [apply preserves_continue|].
  apply preserves_seq; [frame|]. intros _.
  destruct (String.eqb (Py.lower choice) "l"); [apply list_selection_preserves|].
  destruct (String.eqb (Py.lower choice) "b"); [apply remove_last_preserves|].
  destruct (Py.int choice) as [num|].
  - destruct (index_map !! num) as [r|] eqn:Hr.
    + eapply dispatch_row_preserves; [exact Hentries | apply (Hrows num), Hr].
    + apply preserves_seq; [frame|]. intros _. apply preserves_continue.
  - apply preserves_seq; [frame|]. intros _. apply preserves_continue.
Qed.

Lemma browse_loop_ok fuel b w res w' :
  browser_ok root base b w ->
  browse_loop env fuel root b w = (Ret res, w') ->
  exists sel, res = rel_name root <$> sel /\ selection_ok root base sel w'.
Proof.
  revert b w. induction fuel as [|fuel IH]; intros b w Hok; cbn [browse_loop].
  - intros [=].
  - unfold bind. pose proof (browse_iter_preserves b w Hok) as Hstep.
    destruct (browse_iter env root b w) as [[[b'|result]| | |] w1];
      try discriminate.
    + intros Hrest. exact (IH b' w1 Hstep Hrest).
    + intros [= <- <-]. exact Hstep.
Qed.

End BrowserLoop.

(** ** The returned selection *)

Section Selection.

Lemma rel_name_inj root p q :
  under root p -> under root q -> rel_name root p = rel_name root q -> p = q.
Proof.
  intros (np & Hnp & Hvp & ->) (nq & Hnq & Hvq & ->).
  rewrite !rel_name_app, !rel_str_join by assumption.
  intros H. apply (f_equal split_slash) in H.
  rewrite !split_slash_join in H by assumption. congruence.
Qed.

Lemma rel_name_within root p : under root p -> within_root (rel_name root p).
Proof.
  intros (np & Hnp & Hvp & ->). unfold within_root.
  rewrite rel_name_app, rel_str_join, split_slash_join by assumption.
  exact Hvp.
Qed.

(** C6.  Whenever the browser returns (the operator finished and
    confirmed), the returned list has no duplicates, each of its paths is
    relative and stays below the repository root (no leading separator,
    no [..] component), and the paths are in order of addition: the list is
    a subsequence of the additions the browser announced while it ran. *)
Theorem browse_selection_sound env fuel root w res w' :
  valid_fs env ->
  browse_and_select_files env fuel root w = (Ret res, w') ->
  NoDup res
  /\ Forall within_root res
  /\ exists log, additions (trace w') = additions (trace w) ++ log
                 /\ res `sublist_of` log.
Proof.
  intros Hfs Hrun.
  destruct (browse_loop_ok env root (additions (trace w)) Hfs fuel
              (mkBrowser root [] ∅) w res w') as (sel & -> & Hnd & Hall & Hlog).
  - split.
    + exists []. split; [constructor | symmetry; apply app_nil_r].
    + repeat split; [constructor | constructor |].
      exists []. split; [symmetry; apply app_nil_r | reflexivity].
  - exact Hrun.
  - repeat split.
    + apply NoDup_fmap_2_strong; [|exact Hnd].
      intros p q Hp Hq. rewrite Forall_forall in Hall.
      apply rel_name_inj; auto.
    + apply Forall_fmap. eapply Forall_impl; [exact Hall|].
      intros p Hp. apply rel_name_within, Hp.
    + exact Hlog.
Qed.

End Selection.

Lemma scenario_c_valid : valid_fs (script_env scenario_c).
Proof.
  intros t p l. unfold script_env, iterdir.
  do 10 (try destruct t as [|t]); cbn; intros [= <-];
    repeat constructor.
Defined.

(** Witness for C6: scenario C returns the two files in order of addition. *)
Lemma browse_selection_sound_witness :
  browse_and_select_files (script_env scenario_c) 5 r1 init_world
  = (Ret ["a.txt"; "sub/b.txt"],
     snd (browse_and_select_files (script_env scenario_c) 5 r1 init_world))
  /\ NoDup ["a.txt"; "sub/b.txt"]
  /\ Forall within_root ["a.txt"; "sub/b.txt"].
Proof.
  assert (Hrun : browse_and_select_files (script_env scenario_c) 5 r1 init_world
                 = (Ret ["a.txt"; "sub/b.txt"],
                    snd (browse_and_select_files (script_env scenario_c) 5 r1
                           init_world))) by (vm_compute; reflexivity).
  split; [exact Hrun|].
  destruct (browse_selection_sound _ _ _ _ _ _ scenario_c_valid Hrun)
    as (Hnd & Hin & _).
  split; assumption.
Defined.

(** ** Choosing a file *)

Section Toggle.

(** C3, as the code has it.  Choosing a file that is not in the selection
    appends it; choosing a file that is already in the selection leaves the
    selection as it is and says so.  Hence choosing the same file a second
    time changes nothing: the file stays selected. *)
Theorem choose_file_adds_once root b f w :
  (f ∈ selected b ->
   choose_file root b f w
   = (Ret (Continue b),
      mkWorld (ledger w) (trace w ++ [Print AlreadySelected]) (now w)))
  /\ (f ∉ selected b ->
      forall rel, relative_to f root = Some rel ->
      choose_file root b f w
      = (Ret (Continue (mkBrowser (current b) (selected b ++ [f])
                                  ({[path_str f]} ∪ visited_files b))),
         mkWorld (ledger w)
           (trace w ++ [Print (Added (rel_str rel) (length (selected b ++ [f])))])
           (now w)))
  /\ (forall b1 w1,
        choose_file root b f w = (Ret (Continue b1), w1) ->
        f ∈ selected b1
        /\ choose_file root b1 f w1
           = (Ret (Continue b1),
              mkWorld (ledger w1) (trace w1 ++ [Print AlreadySelected]) (now w1))).
Proof.
  assert (Hin : forall b0 w0, f ∈ selected b0 ->
            choose_file root b0 f w0
            = (Ret (Continue b0),
               mkWorld (ledger w0) (trace w0 ++ [Print AlreadySelected]) (now w0))).
  { intros b0 w0 H. unfold choose_file.
    case_bool_decide; [reflexivity | contradiction]. }
  split; [apply Hin|]. split.
  - intros Hnot rel Hrel. unfold choose_file, rel_of.
    case_bool_decide; [contradiction|]. rewrite Hrel. reflexivity.
  - intros b1 w1 Hrun.
    assert (Hsel : f ∈ selected b1).
    { unfold choose_file, rel_of in Hrun.
      case_bool_decide as E.
      - cbn in Hrun. injection Hrun as <- _. exact E.
      - destruct (relative_to f root); cbn in Hrun; [|discriminate].
        injection Hrun as <- _. cbn. apply elem_of_app. right. left. }
    split; [exact Hsel | apply Hin, Hsel].
Qed.

End Toggle.

(** Witness for C3: [a.txt] chosen in an empty selection, and chosen again. *)
Lemma choose_file_adds_once_witness :
  let f := r1 ++ ["a.txt"] in
  let b0 := mkBrowser r1 [] ∅ in
  let b1 := mkBrowser r1 [f] ({[path_str f]} ∪ ∅) in
  let w1 := mkWorld empty_session [Print (Added "a.txt" 1)] 0 in
  choose_file r1 b0 f init_world = (Ret (Continue b1), w1)
  /\ choose_file r1 b1 f init_world
     = (Ret (Continue b1), mkWorld empty_session [Print AlreadySelected] 0)
  /\ choose_file r1 b1 f w1
     = (Ret (Continue b1),
        mkWorld empty_session [Print (Added "a.txt" 1); Print AlreadySelected] 0).
Proof.
  cbv zeta.
  assert (Hfirst :
            choose_file r1 (mkBrowser r1 [] ∅) (r1 ++ ["a.txt"]) init_world
            = (Ret (Continue (mkBrowser r1 [r1 ++ ["a.txt"]]
                                ({[path_str (r1 ++ ["a.txt"])]} ∪ ∅))),
               mkWorld empty_session [Print (Added "a.txt" 1)] 0)).
  { exact (proj1 (proj2 (choose_file_adds_once r1 (mkBrowser r1 [] ∅)
                           (r1 ++ ["a.txt"]) init_world))
                 (not_elem_of_nil _) ["a.txt"] eq_refl). }
  split; [exact Hfirst|]. split.
  - apply (proj1 (choose_file_adds_once r1 _ (r1 ++ ["a.txt"]) init_world)).
    cbn. left.
  - exact (proj2 (proj2 (proj2 (choose_file_adds_once r1 (mkBrowser r1 [] ∅)
                                  (r1 ++ ["a.txt"]) init_world))
                        _ _ Hfirst)).
Defined.

(** C3, as the spec has it, fails: the second choice of a file does not
    remove it.  Picking [a.txt] twice and finishing returns [a.txt]. *)
Lemma second_choice_keeps_file :
  let f := r1 ++ ["a.txt"] in
  let b0 := mkBrowser r1 [] ∅ in
  let once := choose_file r1 b0 f init_world in
  (exists b1 b2 w1 w2,
      once = (Ret (Continue b1), w1)
      /\ choose_file r1 b1 f w1 = (Ret (Continue b2), w2)
      /\ selected b2 = [f] /\ selected b0 = [])
  /\ fst (browse_and_select_files (script_env pick_twice) 5 r1 init_world)
     = Ret ["a.txt"]
  /\ ~ (forall root b f w b1 w1 b2 w2,
          choose_file root b f w = (Ret (Continue b1), w1) ->
          choose_file root b1 f w1 = (Ret (Continue b2), w2) ->
          selected b2 = selected b).
Proof.
  cbv zeta. split; [|split].
  - exists (mkBrowser r1 [r1 ++ ["a.txt"]] ({[path_str (r1 ++ ["a.txt"])]} ∪ ∅)),
           (mkBrowser r1 [r1 ++ ["a.txt"]] ({[path_str (r1 ++ ["a.txt"])]} ∪ ∅)),
           (mkWorld empty_session [Print (Added "a.txt" 1)] 0),
           (mkWorld empty_session
                    [Print (Added "a.txt" 1); Print AlreadySelected] 0).
    split; [vm_compute; reflexivity|].
    split; [vm_compute; reflexivity|].
    split; reflexivity.
  - vm_compute. reflexivity.
  - intros Hclaim.
    assert (H1 : choose_file r1 (mkBrowser r1 [] ∅) (r1 ++ ["a.txt"]) init_world
                 = (Ret (Continue (mkBrowser r1 [r1 ++ ["a.txt"]]
                                     ({[path_str (r1 ++ ["a.txt"])]} ∪ ∅))),
                    mkWorld empty_session [Print (Added "a.txt" 1)] 0))
      by (vm_compute; reflexivity).
    assert (H2 : choose_file r1 (mkBrowser r1 [r1 ++ ["a.txt"]]
                                   ({[path_str (r1 ++ ["a.txt"])]} ∪ ∅))
                   (r1 ++ ["a.txt"])
                   (mkWorld empty_session [Print (Added "a.txt" 1)] 0)
                 = (Ret (Continue (mkBrowser r1 [r1 ++ ["a.txt"]]
                                     ({[path_str (r1 ++ ["a.txt"])]} ∪ ∅))),
                    mkWorld empty_session
                      [Print (Added "a.txt" 1); Print AlreadySelected] 0))
      by (vm_compute; reflexivity).
    pose proof (Hclaim _ _ _ _ _ _ _ _ H1 H2) as Hbad.
    cbn [selected] in Hbad. discriminate Hbad.
Qed.

(** * Further properties of the code *)

(** ** The menu of the browser *)

Section MenuIndices.

Lemma number_items_index items : forall idx table m num,
  (number_items idx items table m).2 !! num
  = if decide (idx <= num < idx + Z.of_nat (length items))
    then item_row <$> items !! Z.to_nat (num - idx)
    else m !! num.
Proof.
  induction items as [|it items IH]; intros idx table m num.
  - cbn. case_decide; [lia|reflexivity].
  - cbn [number_items length]. rewrite IH.
    destruct (decide (idx + 1 <= num < idx + 1 + Z.of_nat (length items))) as [Hin|Hout].
    + rewrite decide_True by lia.
      replace (Z.to_nat (num - idx)) with (S (Z.to_nat (num - (idx + 1)))) by lia.
      reflexivity.
    + destruct (decide (idx = num)) as [<-|Hne].
      * rewrite decide_True by lia. rewrite lookup_insert_eq.
        replace (idx - idx) with 0 by lia. reflexivity.
      * rewrite decide_False by lia. apply lookup_insert_ne. exact Hne.
Qed.

Lemma number_items_table items : forall idx table m,
  (number_items idx items table m).1
  = table ++ imap (fun i it => (idx + Z.of_nat i, item_typ it, item_shown it)) items.
Proof.
  induction items as [|it items IH]; intros idx table m.
  - cbn. symmetry. apply app_nil_r.
  - cbn [number_items]. rewrite IH, <- app_assoc. cbn. f_equal.
    rewrite Z.add_0_r. f_equal. apply imap_ext. intros i x _. cbn.
    do 2 f_equal. lia.
Qed.

(** X1.  The menu is numbered 1, 2, ... without gaps: the row printed with
    index [i] is the [i]-th line of the menu, [index_map] holds under [i] the
    target of that same line, and it holds nothing under any other number
    (zero, negatives, numbers past the last line). *)
Theorem menu_numbered_from_one root b entries num :
  let items := menu_items root b entries in
  (build_menu root b entries).1
  = imap (fun i it => (1 + Z.of_nat i, item_typ it, item_shown it)) items
  /\ (build_menu root b entries).2 !! num
     = if decide (1 <= num <= Z.of_nat (length items))
       then item_row <$> items !! Z.to_nat (num - 1)
       else None.
Proof.
  cbv zeta. unfold build_menu. fold (menu_items root b entries). split.
  - apply number_items_table.
  - rewrite number_items_index.
    destruct (decide (1 <= num <= Z.of_nat (length (menu_items root b entries)))).
    + rewrite decide_True by lia. reflexivity.
    + rewrite decide_False by lia. apply lookup_empty.
Qed.

(** X2.  At the repository root the menu offers no way up: no row of the
    menu is the [..] control, and its first row is the finish control.  Below
    the root the first row is [..], leading to the parent directory, and the
    second is the finish control. *)
Theorem parent_row_only_below_root root b entries :
  (current b = root ->
   (build_menu root b entries).2 !! 1
   = Some (mkRow KControl None "[Terminar selección]")
   /\ forall num r, (build_menu root b entries).2 !! num = Some r ->
                    row_kind r = KControl -> row_label r <> "..")
  /\ (current b <> root ->
      (build_menu root b entries).2 !! 1
      = Some (mkRow KControl (Some (path_parent (current b))) "..")
      /\ (build_menu root b entries).2 !! 2
         = Some (mkRow KControl None "[Terminar selección]")).
Proof.
  split.
  - intros Hroot. split.
    + unfold build_menu, control_items. rewrite decide_True by exact Hroot.
      cbn. rewrite number_items_index. rewrite decide_False by lia.
      apply lookup_insert_eq.
    + intros num r Hr Hk.
      apply build_menu_rows in Hr as [[Hne _]|[->|[(e & _ & ->)|(e & _ & ->)]]];
        try discriminate.
      contradiction.
  - intros Hne. unfold build_menu, control_items.
    rewrite decide_False by exact Hne. cbn. rewrite !number_items_index.
    rewrite !decide_False by lia. split.
    + rewrite lookup_insert_ne by lia. apply lookup_insert_eq.
    + apply lookup_insert_eq.
Qed.

End MenuIndices.

(** Witness for X2: the root of [r1] and its subdirectory [sub]. *)
Lemma parent_row_only_below_root_witness :
  (build_menu r1 (mkBrowser r1 [] ∅) [a_dir "sub"]).2 !! 1
  = Some (mkRow KControl None "[Terminar selección]")
  /\ (build_menu r1 (mkBrowser (r1 ++ ["sub"]) [] ∅) []).2 !! 1
     = Some (mkRow KControl (Some r1) "..").
Proof.
  split.
  - exact (proj1 (proj1 (parent_row_only_below_root r1 (mkBrowser r1 [] ∅)
                           [a_dir "sub"]) eq_refl)).
  - exact (proj1 (proj2 (parent_row_only_below_root r1
                           (mkBrowser (r1 ++ ["sub"]) [] ∅) [])
                        ltac:(vm_compute; discriminate))).
Defined.

(** ** Frames over the trace *)

#[local] Instance same_trace_po : PreOrder same_trace.
Proof.
  split; [intros w; reflexivity|].
  intros a b c Hab Hbc. unfold same_trace in *. congruence.
Qed.

#[local] Instance no_spawn_po : PreOrder no_spawn.
Proof.
  split; [intros w; reflexivity|].
  intros a b c Hab Hbc. unfold no_spawn in *. congruence.
Qed.

#[local] Instance trace_extends_po : PreOrder trace_extends.
Proof.
  split; [intros w; exists []; symmetry; apply app_nil_r|].
  intros a b c [m1 H1] [m2 H2]. exists (m1 ++ m2).
  rewrite H2, H1, app_assoc. reflexivity.
Qed.

#[local] Instance clock_advances_po : PreOrder clock_advances.
Proof.
  split; [intros w; unfold clock_advances; lia|].
  intros a b c Hab Hbc. unfold clock_advances in *. lia.
Qed.

#[local] Instance tables_stay_ok_po root : PreOrder (tables_stay_ok root).
Proof.
  split; [intros w H; exact H|].
  intros a b c Hab Hbc H. apply Hbc, Hab, H.
Qed.

#[local] Instance same_trace_only : TraceOnly same_trace.
Proof. intros w w' H. exact H. Qed.

#[local] Instance no_spawn_only : TraceOnly no_spawn.
Proof. intros w w' H. unfold no_spawn. rewrite H. reflexivity. Qed.

#[local] Instance no_addition_only : TraceOnly no_addition.
Proof. intros w w' H. unfold no_addition. rewrite H. reflexivity. Qed.

#[local] Instance trace_extends_only : TraceOnly trace_extends.
Proof. intros w w' H. exists []. rewrite H. symmetry. apply app_nil_r. Qed.

#[local] Instance tables_stay_ok_only root : TraceOnly (tables_stay_ok root).
Proof. intros w w' H. unfold tables_stay_ok. rewrite H. tauto. Qed.

Lemma stable_same_trace (R : relation World) `{!TraceOnly R} {A} (m : M A) :
  stable same_trace m -> stable R m.
Proof. intros Hm w. apply trace_only, Hm. Qed.

Lemma ask_same_trace {A} (o : nat -> A) : stable same_trace (ask o).
Proof. intros w. reflexivity. Qed.

Lemma get_ledger_same_trace : stable same_trace get_ledger.
Proof. intros w. reflexivity. Qed.

Lemma set_ledger_same_trace s : stable same_trace (set_ledger s).
Proof. intros w. reflexivity. Qed.

Lemma running_same_trace {A} : stable same_trace (@running A).
Proof. intros w. reflexivity. Qed.

Lemma touch_same_trace repo : stable same_trace (touch repo).
Proof. intros w. reflexivity. Qed.

Lemma record_staged_same_trace repo fs : stable same_trace (record_staged repo fs).
Proof. intros w. reflexivity. Qed.

Lemma set_branch_changed_same_trace repo old new :
  stable same_trace (set_branch_changed repo old new).
Proof. intros w. reflexivity. Qed.

Lemma emit_trace_extends e : stable trace_extends (emit e).
Proof. intros w. exists [e]. reflexivity. Qed.

Lemma console_print_trace_extends m : stable trace_extends (console_print m).
Proof. apply emit_trace_extends. Qed.

Lemma console_print_no_spawn m : stable no_spawn (console_print m).
Proof.
  intros w. unfold no_spawn. cbn. rewrite spawns_app. cbn. apply app_nil_r.
Qed.

Lemma console_print_tables_stay_ok root m :
  is_table m = false -> stable (tables_stay_ok root) (console_print m).
Proof.
  intros Hm w Hok cur rows Hin. cbn in Hin.
  apply elem_of_app in Hin as [Hin|Hin]; [eapply Hok, Hin|].
  apply list_elem_of_singleton in Hin. injection Hin as <-. discriminate Hm.
Qed.

Lemma console_print_table_ok root cur rows :
  cursor_ok root cur ->
  stable (tables_stay_ok root) (console_print (BrowseTable cur rows)).
Proof.
  intros Hc w Hok cur' rows' Hin. cbn in Hin.
  apply elem_of_app in Hin as [Hin|Hin]; [eapply Hok, Hin|].
  apply list_elem_of_singleton in Hin. injection Hin as -> _. exact Hc.
Qed.

Create HintDb tframe.

#[local] Hint Resolve stable_ret stable_raise stable_sys_exit
  ask_same_trace get_ledger_same_trace set_ledger_same_trace running_same_trace
  touch_same_trace record_staged_same_trace set_branch_changed_same_trace
  emit_trace_extends console_print_trace_extends console_print_no_spawn : tframe.
#[local] Hint Extern 1 (stable no_addition (console_print _)) =>
  apply console_print_no_addition; reflexivity : tframe.
#[local] Hint Extern 1 (stable (tables_stay_ok _) (console_print _)) =>
  apply console_print_tables_stay_ok; reflexivity : tframe.

(** As [frame], for relations over the trace. *)
Ltac tframe_leaf :=
  solve [ auto with tframe typeclass_instances
        | apply stable_same_trace;
          [ typeclasses eauto | auto with tframe typeclass_instances ] ].

Ltac tframe :=
  repeat first
    [ progress (intros)
    | tframe_leaf
    | apply stable_bind
    | apply stable_when
    | apply stable_try_except_pass
    | apply stable_try_finally
    | apply stable_for_each
    | match goal with
      | |- stable _ (if ?b then _ else _) => destruct b
      | |- stable _ (match ?x with _ => _ end) => destruct x
      | |- stable _ (let '(_, _) := ?x in _) => destruct x
      end ].

Section BrowserFrames.

Context (env : Env) (root : Path).

Lemma rel_of_same_trace f : stable same_trace (rel_of root f).
Proof. unfold rel_of. tframe. Qed.

Hint Resolve rel_of_same_trace : tframe.

Lemma rels_of_same_trace l : stable same_trace (rels_of root l).
Proof. induction l as [|f l IH]; cbn [rels_of]; tframe. Qed.

Hint Resolve rels_of_same_trace : tframe.

Lemma browse_iter_no_spawn b : stable no_spawn (browse_iter env root b).
Proof.
  unfold browse_iter, dispatch_row, finish, choose_file, remove_last,
    list_selection.
  tframe.
Qed.

Lemma browse_loop_no_spawn fuel b : stable no_spawn (browse_loop env fuel root b).
Proof.
  pose proof browse_iter_no_spawn.
  revert b. induction fuel as [|fuel IH]; intros b; cbn [browse_loop]; tframe.
Qed.

(** X3.  Browsing is pure interaction: whatever the operator does and
    however it ends, it leaves the session ledger as it was and runs no
    process. *)
Theorem browsing_touches_nothing fuel w :
  let w' := snd (browse_and_select_files env fuel root w) in
  ledger w' = ledger w /\ spawns (trace w') = spawns (trace w).
Proof.
  split.
  - apply browse_same_ledger.
  - apply browse_loop_no_spawn.
Qed.

Lemma browse_iter_tables b :
  cursor_ok root (current b) ->
  stable (tables_stay_ok root) (browse_iter env root b).
Proof.
  intros Hc.
  pose proof (console_print_table_ok root (current b)) as Htable.
  unfold browse_iter, dispatch_row, finish, choose_file, remove_last,
    list_selection.
  tframe.
Qed.

Lemma browse_loop_tables base fuel :
  valid_fs env ->
  forall b w,
    browser_ok root base b w -> tables_ok root (trace w) ->
    tables_ok root (trace (snd (browse_loop env fuel root b w))).
Proof.
  intros Hfs. induction fuel as [|fuel IH]; intros b w Hok Ht; [exact Ht|].
  cbn [browse_loop]. unfold bind.
  pose proof (browse_iter_preserves env root base Hfs b w Hok) as Hstep.
  pose proof (browse_iter_tables b (proj1 Hok) w Ht) as Ht1.
  destruct (browse_iter env root b w) as [[[b'|result]| | |] w1]; cbn in *;
    try exact Ht1.
  apply IH; assumption.
Qed.

(** X4.  The cursor never leaves the repository: every table the browser
    shows, at any point of any run, is the listing of the root or of a
    directory below it. *)
Theorem browser_stays_in_repository fuel w :
  valid_fs env ->
  tables_ok root (trace w) ->
  tables_ok root (trace (snd (browse_and_select_files env fuel root w))).
Proof.
  intros Hfs Ht. apply (browse_loop_tables (additions (trace w))); try assumption.
  split.
  - exists []. split; [constructor | symmetry; apply app_nil_r].
  - repeat split; [constructor | constructor |].
    exists []. split; [symmetry; apply app_nil_r | reflexivity].
Qed.

End BrowserFrames.

(** The trace under the program's functions *)

Lemma spawn_trace_extends env cmd cwd : stable trace_extends (spawn env cmd cwd).
Proof. unfold spawn. tframe. Qed.

#[local] Hint Resolve spawn_trace_extends : tframe.

Lemma run_git_trace_extends env repo args check :
  stable trace_extends (run_git env repo args check).
Proof. unfold run_git. tframe. Qed.

#[local] Hint Resolve run_git_trace_extends : tframe.

Lemma commit_step_trace_extends env repo : stable trace_extends (commit_step env repo).
Proof. unfold commit_step. tframe. Qed.

#[local] Hint Resolve commit_step_trace_extends : tframe.

(** Witness for X4: the tables of scenario C. *)
Lemma browser_stays_in_repository_witness :
  tables_ok r1
    (trace (snd (browse_and_select_files (script_env scenario_c) 5 r1 init_world))).
Proof.
  apply browser_stays_in_repository; [exact scenario_c_valid|].
  intros cur rows Hin. cbn in Hin. apply elem_of_nil in Hin. destruct Hin.
Defined.

(** ** The listing is sorted *)

Section Sorting.






End Sorting.


(** ** Single operations of the browser *)

Section BrowserOperations.

Context (env : Env) (root : Path).

(** X6.  The command that removes the last entry undoes a fresh choice:
    choosing a file that was not selected and then removing the last entry
    gives back the selection there was, and the cursor has not moved. *)
Theorem remove_last_undoes_choice b f w b1 w1 :
  f ∉ selected b ->
  choose_file root b f w = (Ret (Continue b1), w1) ->
  exists b2 w2,
    remove_last root b1 w1 = (Ret (Continue b2), w2)
    /\ selected b2 = selected b /\ current b2 = current b.
Proof.
  intros Hnot Hrun. unfold choose_file, rel_of in Hrun.
  case_bool_decide; [contradiction|].
  destruct (relative_to f root) as [rel|] eqn:Hrel; [|discriminate].
  cbn in Hrun. injection Hrun as <- <-.
  unfold remove_last, rel_of. cbn [selected current visited_files].
  rewrite last_snoc, Hrel. cbn. eexists _, _. split; [reflexivity|]. cbn.
  split; [apply removelast_last | reflexivity].
Qed.

End BrowserOperations.

(** Witness for X6: [a.txt] chosen in an empty selection and removed again. *)
Lemma remove_last_undoes_choice_witness :
  exists b2 w2,
    remove_last r1 (mkBrowser r1 [r1 ++ ["a.txt"]] ({[path_str (r1 ++ ["a.txt"])]} ∪ ∅))
                (mkWorld empty_session [Print (Added "a.txt" 1)] 0)
    = (Ret (Continue b2), w2)
    /\ selected b2 = [] /\ current b2 = r1.
Proof.
  apply (remove_last_undoes_choice r1 (mkBrowser r1 [] ∅) (r1 ++ ["a.txt"])
           init_world).
  - cbn. apply not_elem_of_nil.
  - reflexivity.
Defined.

Section BrowserAnswers.

Context (env : Env) (root : Path).

(** [browse_iter] up to the operator's answer. *)
Lemma browse_iter_eq b w entries pre :
  listed (iterdir env (now w) (current b)) = Some (entries, pre) ->
  browse_iter env root b w
  = on_choice env root b (build_menu root b entries).2 (Prompt_ask env (S (now w)))
      (mkWorld (ledger w)
         (trace w ++ pre
          ++ [Print (BrowseTable (current b) (build_menu root b entries).1)])
         (S (S (now w)))).
Proof.
  intros Hl. unfold browse_iter, on_choice. unfold bind at 1. cbn.
  destruct (iterdir env (now w) (current b)) as [l| |e]; cbn in Hl;
    try discriminate; injection Hl as <- <-; cbn;
    destruct (build_menu root b _) as [table index_map]; cbn;
    rewrite <- ?app_assoc; reflexivity.
Qed.

Lemma on_choice_plain b index_map choice :
  plain_answer choice ->
  on_choice env root b index_map choice
  = match Py.int choice with
    | None => (console_print InvalidInput;; ret (Continue b))%prog
    | Some num =>
        match index_map !! num with
        | None => (console_print IndexOutOfRange;; ret (Continue b))%prog
        | Some r => dispatch_row env root b r
        end
    end.
Proof.
  intros (H1 & H2 & H3 & H4). unfold on_choice.
  apply truthy_true in H1. rewrite H1.
  apply String.eqb_neq in H2, H3, H4. rewrite H2, H3, H4. reflexivity.
Qed.

(** X7.  An answer the browser cannot use changes nothing.  In a directory
    whose names are ASCII text, after the table is shown, an empty answer, an
    answer that [int] does not accept, and a number that is not an index of
    the menu all lead back to the prompt with the cursor and the selection
    as they were; the last two are reported. *)
Theorem unusable_answer_keeps_browser b w entries pre :
  listed (iterdir env (now w) (current b)) = Some (entries, pre) ->
  Forall ascii_named entries ->
  let choice := Prompt_ask env (S (now w)) in
  let shown := Print (BrowseTable (current b) (build_menu root b entries).1) in
  let after msgs :=
    mkWorld (ledger w) (trace w ++ pre ++ shown :: msgs) (S (S (now w))) in
  (choice = EmptyString ->
   browse_iter env root b w = (Ret (Continue b), after []))
  /\ (plain_answer choice -> Py.int choice = None ->
      browse_iter env root b w = (Ret (Continue b), after [Print InvalidInput]))
  /\ (forall num,
        plain_answer choice -> Py.int choice = Some num ->
        ~ (1 <= num <= Z.of_nat (length (menu_items root b entries))) ->
        browse_iter env root b w
        = (Ret (Continue b), after [Print IndexOutOfRange])).
Proof.
  intros Hl _ choice shown after. subst choice shown after. cbv beta.
  rewrite (browse_iter_eq b w entries pre Hl). split; [|split].
  - intros ->. reflexivity.
  - intros Hp Hint. rewrite (on_choice_plain _ _ _ Hp), Hint.
    cbn. rewrite <- !app_assoc. reflexivity.
  - intros num Hp Hint Hout. rewrite (on_choice_plain _ _ _ Hp), Hint.
    unfold build_menu at 1. fold (menu_items root b entries).
    rewrite number_items_index, decide_False by lia. rewrite lookup_empty.
    cbn. rewrite <- !app_assoc. reflexivity.
Qed.

Lemma strip_empty : Py.strip EmptyString = EmptyString.
Proof. reflexivity. Qed.

(** X8.  The answer [¡] ends the browser with a [NameError]: the function it
    is meant to call does not exist.  Nothing is returned, whatever had been
    selected. *)
Theorem inverted_exclamation_raises b w entries pre :
  listed (iterdir env (now w) (current b)) = Some (entries, pre) ->
  Py.strip (Prompt_ask env (S (now w))) = "¡" ->
  fst (browse_iter env root b w) = Raise NameError
  /\ forall fuel, fst (browse_loop env (S fuel) root b w) = Raise NameError.
Proof.
  intros Hl Hc.
  assert (Hiter : fst (browse_iter env root b w) = Raise NameError).
  { rewrite (browse_iter_eq b w entries pre Hl). unfold on_choice.
    destruct (Py.truthy (Prompt_ask env (S (now w)))) eqn:Ht.
    - cbn. rewrite Hc. reflexivity.
    - apply truthy_false in Ht. rewrite Ht in Hc. discriminate Hc. }
  split; [exact Hiter|].
  intros fuel. cbn [browse_loop]. unfold bind.
  destruct (browse_iter env root b w) as [[n| | |] w1]; cbn in Hiter;
    try discriminate. injection Hiter as ->. reflexivity.
Qed.

Lemma on_choice_trace_extends b index_map choice :
  stable trace_extends (on_choice env root b index_map choice).
Proof.
  pose proof (rel_of_same_trace root). pose proof (rels_of_same_trace root).
  unfold on_choice, dispatch_row, finish, choose_file, remove_last,
    list_selection.
  tframe.
Qed.

(** X9.  A directory that may not be listed is shown as empty and browsing
    goes on: the refusal is reported, the table that follows has the control
    rows only, and the menu holds no directory and no file to choose. *)
Theorem unreadable_directory_shown_empty b w :
  iterdir env (now w) (current b) = PermissionError ->
  (exists more,
      trace (snd (browse_iter env root b w))
      = trace w
        ++ Print NoPermission
        :: Print (BrowseTable (current b)
                    (imap (fun i it => (1 + Z.of_nat i, item_typ it, item_shown it))
                          (control_items root (current b))))
        :: more)
  /\ (forall num r, (build_menu root b []).2 !! num = Some r ->
                    row_kind r = KControl).
Proof.
  intros Hl. split.
  - rewrite (browse_iter_eq b w [] [Print NoPermission]) by (rewrite Hl; reflexivity).
    match goal with
    | |- context [on_choice env root b ?im ?c ?w1] =>
        destruct (on_choice_trace_extends b im c w1) as [more Hmore]
    end.
    exists more. rewrite Hmore. cbn [trace].
    unfold build_menu. rewrite number_items_table. cbn [dir_items file_items].
    rewrite <- !app_assoc. cbn. rewrite !app_nil_r. reflexivity.
  - intros num r Hr.
    apply build_menu_rows in Hr as [[_ ->]|[->|[(e & He & _)|(e & He & _)]]];
      try reflexivity; apply elem_of_nil in He; destruct He.
Qed.

End BrowserAnswers.

Section FinishEmpty.

Context (env : Env) (root : Path).

(** X10.  Finishing with nothing selected asks for confirmation: at the
    root of a repository whose names there are ASCII text, where the finish
    control has index 1, an answer that [int] reads as 1, given with an empty
    selection, returns the empty list if the operator confirms and goes back
    to browsing, with nothing changed, if not. *)
Theorem finish_with_empty_selection b w entries pre :
  listed (iterdir env (now w) (current b)) = Some (entries, pre) ->
  Forall ascii_named entries ->
  current b = root -> selected b = [] ->
  plain_answer (Prompt_ask env (S (now w))) ->
  Py.int (Prompt_ask env (S (now w))) = Some 1 ->
  let shown := Print (BrowseTable (current b) (build_menu root b entries).1) in
  browse_iter env root b w
  = (Ret (if Confirm_ask env (S (S (now w))) then Return [] else Continue b),
     mkWorld (ledger w) (trace w ++ pre ++ [shown]) (S (S (S (now w))))).
Proof.
  intros Hl _ Hroot Hsel Hp Hint shown. subst shown.
  rewrite (browse_iter_eq env root b w entries pre Hl).
  rewrite (on_choice_plain env root _ _ _ Hp), Hint.
  unfold build_menu at 1, control_items. rewrite decide_True by exact Hroot.
  cbn. rewrite number_items_index, decide_False by lia.
  rewrite lookup_insert_eq. unfold dispatch_row. cbn. unfold finish.
  rewrite Hsel. unfold bind. cbn.
  destruct (Confirm_ask env (S (S (now w)))); reflexivity.
Qed.

End FinishEmpty.

Lemma one_listing_ascii : Forall ascii_named (sorted_entries [a_file "a.txt"]).
Proof. repeat constructor. Qed.

(** Witness for X7: an empty answer, a word, and a number past the menu. *)
Lemma unusable_answer_keeps_browser_witness :
  let b := mkBrowser r1 [] ∅ in
  fst (browse_iter (script_env (one_answer EmptyString)) r1 b init_world)
  = Ret (Continue b)
  /\ fst (browse_iter (script_env (one_answer "x")) r1 b init_world)
     = Ret (Continue b)
  /\ fst (browse_iter (script_env (one_answer "7")) r1 b init_world)
     = Ret (Continue b).
Proof.
  cbv zeta. split; [|split].
  - rewrite (proj1 (unusable_answer_keeps_browser
                      (script_env (one_answer EmptyString)) r1 (mkBrowser r1 [] ∅)
                      init_world _ _ eq_refl one_listing_ascii) eq_refl).
    reflexivity.
  - rewrite (proj1 (proj2 (unusable_answer_keeps_browser
                      (script_env (one_answer "x")) r1 (mkBrowser r1 [] ∅)
                      init_world _ _ eq_refl one_listing_ascii))
                   ltac:(repeat split; vm_compute; discriminate) eq_refl).
    reflexivity.
  - rewrite (proj2 (proj2 (unusable_answer_keeps_browser
                      (script_env (one_answer "7")) r1 (mkBrowser r1 [] ∅)
                      init_world _ _ eq_refl one_listing_ascii))
                   7 ltac:(repeat split; vm_compute; discriminate) eq_refl
                   ltac:(vm_compute; intros [_ H]; apply H; reflexivity)).
    reflexivity.
Defined.

(** Witness for X8: the first answer is [¡]. *)
Lemma inverted_exclamation_raises_witness :
  fst (browse_and_select_files (script_env (one_answer "¡")) 3 r1 init_world)
  = Raise NameError.
Proof.
  exact (proj2 (inverted_exclamation_raises (script_env (one_answer "¡")) r1
                  (mkBrowser r1 [] ∅) init_world _ _ eq_refl eq_refl) 2%nat).
Defined.

(** Witness for X9: an unreadable root. *)
Lemma unreadable_directory_shown_empty_witness :
  exists more,
    trace (snd (browse_iter (script_env unreadable) r1 (mkBrowser r1 [] ∅) init_world))
    = Print NoPermission
      :: Print (BrowseTable r1 [(1, "[OK]", "[Terminar selección]")])
      :: more.
Proof.
  destruct (proj1 (unreadable_directory_shown_empty (script_env unreadable) r1
                     (mkBrowser r1 [] ∅) init_world eq_refl)) as [more Hmore].
  exists more. exact Hmore.
Defined.

(** Witness for X10: nothing selected, the operator answers 1 and confirms. *)
Lemma finish_with_empty_selection_witness :
  fst (browse_iter (script_env (one_answer "1")) r1 (mkBrowser r1 [] ∅) init_world)
  = Ret (Return []).
Proof.
  rewrite (finish_with_empty_selection (script_env (one_answer "1")) r1
             (mkBrowser r1 [] ∅) init_world _ _ eq_refl one_listing_ascii
             eq_refl eq_refl
             ltac:(repeat split; vm_compute; discriminate) eq_refl).
  reflexivity.
Defined.

(** ** Staging: which files, and when nothing is staged *)

Section StagingEdges.

Context (env : Env).

Lemma existing_from_sublist t repo files :
  existing_from env t repo files `sublist_of` files.
Proof.
  revert t. induction files as [|f files IH]; intros t.
  - reflexivity.
  - unfold existing_from. fold existing_from.
    destruct (path_exists env t repo f).
    + apply sublist_skip, IH.
    + apply sublist_cons, IH.
Qed.

(** X11.  A staging attempt without files runs nothing and asks nothing: it
    reports that there is nothing to add and returns, with the repository
    already marked as touched.  When files are given but none of them
    exists, no stage command is run either, yet the flow goes on to the
    commit step. *)
Theorem staging_nothing repo w f fs :
  add_and_commit env repo false None w
  = (Ret tt,
     mkWorld (ledger (touched_world repo w)) (trace w ++ [Print NoFilesGiven]) (now w))
  /\ add_and_commit env repo false (Some []) w
     = (Ret tt,
        mkWorld (ledger (touched_world repo w)) (trace w ++ [Print NoFilesGiven])
                (now w))
  /\ (existing_from env (now w) repo (f :: fs) = [] ->
      add_and_commit env repo false (Some (f :: fs)) w
      = commit_step env repo
          (mkWorld (ledger (touched_world repo w))
             (trace w ++ missing_from env (now w) repo (f :: fs)
              ++ [Print NoValidFiles])
             (length (f :: fs) + now w))).
Proof.
  split; [reflexivity|]. split; [reflexivity|].
  intros Hnone. rewrite add_and_commit_eq. unfold stage_rest.
  unfold bind at 1. unfold bind at 1. unfold bind at 1.
  rewrite existing_files_eq.
  change (now (touched_world repo w)) with (now w). rewrite Hnone.
  cbn -[length existing_from missing_from]. rewrite <- app_assoc. reflexivity.
Qed.

(** X12.  Only files that exist are staged, in the order given: when some
    file exists the stage command is [git add] followed by exactly the
    existing files, a subsequence of the files given; every missing file is
    reported; and it is the first command the attempt runs. *)
Theorem stages_existing_files_in_order repo w f fs g ok :
  existing_from env (now w) repo (f :: fs) = g :: ok ->
  (g :: ok) `sublist_of` (f :: fs)
  /\ exists more,
       trace (snd (add_and_commit env repo false (Some (f :: fs)) w))
       = trace w ++ missing_from env (now w) repo (f :: fs)
         ++ Spawn ("git" :: "add" :: g :: ok) (Some repo) :: more.
Proof.
  intros Hok. split.
  - rewrite <- Hok. apply existing_from_sublist.
  - rewrite add_and_commit_eq. unfold stage_rest.
    unfold bind at 1. unfold bind at 1. unfold bind at 1.
    rewrite existing_files_eq.
    change (now (touched_world repo w)) with (now w). rewrite Hok.
    unfold bind at 1. rewrite run_git_eq. cbn -[length existing_from missing_from].
    destruct (subprocess_run env _ _ (Some repo)) as [cp|e];
      cbn -[length existing_from missing_from].
    + destruct (returncode cp =? 0); cbn -[length existing_from missing_from].
      * match goal with
        | |- context [commit_step env repo ?w1] =>
            destruct (commit_step_trace_extends env repo w1) as [more Hmore]
        end.
        rewrite Hmore. cbn [trace]. eexists. rewrite <- !app_assoc. cbn.
        reflexivity.
      * eexists. rewrite <- !app_assoc. cbn. reflexivity.
    + eexists. rewrite <- !app_assoc. cbn. reflexivity.
Qed.

End StagingEdges.

Section StageFailure.

Context (env : Env).

(** X13.  A stage command that ends with a non-zero status is fatal for the
    attempt: [RuntimeError] is raised after the output of the command has
    been shown, the operator is not asked for a commit message and no commit
    is run.  This holds for [git add .] and for [git add] of chosen files. *)
Theorem failed_stage_skips_commit repo w cp :
  returncode cp <> 0 ->
  (forall files,
      subprocess_run env (now w) ["git"; "add"; "."] (Some repo) = Completed cp ->
      add_and_commit env repo true files w
      = (Raise RuntimeError,
         mkWorld (ledger (touched_world repo w))
           (trace w ++ Spawn ["git"; "add"; "."] (Some repo) :: panels cp)
           (S (now w))))
  /\ (forall f fs g ok,
        existing_from env (now w) repo (f :: fs) = g :: ok ->
        subprocess_run env (length (f :: fs) + now w)
                       ("git" :: "add" :: g :: ok) (Some repo) = Completed cp ->
        add_and_commit env repo false (Some (f :: fs)) w
        = (Raise RuntimeError,
           mkWorld (ledger (touched_world repo w))
             (trace w ++ missing_from env (now w) repo (f :: fs)
              ++ Spawn ("git" :: "add" :: g :: ok) (Some repo) :: panels cp)
             (S (length (f :: fs) + now w)))).
Proof.
  intros Hrc. apply Z.eqb_neq in Hrc. split.
  - intros files Hcp. unfold add_and_commit. unfold bind at 1.
    rewrite stage_all_files_eq, Hcp, Hrc. reflexivity.
  - intros f fs g ok Hok Hcp. rewrite add_and_commit_eq. unfold stage_rest.
    unfold bind at 1. unfold bind at 1. unfold bind at 1.
    rewrite existing_files_eq.
    change (now (touched_world repo w)) with (now w). rewrite Hok.
    unfold bind at 1. rewrite run_git_eq.
    cbn -[length existing_from missing_from]. rewrite Hcp, Hrc.
    cbn -[length existing_from missing_from]. rewrite <- app_assoc. reflexivity.
Qed.

(** X14.  Picking files in several rounds accumulates a union without
    repetitions: what was picked before stays, in its order and at the front;
    every newly picked file is in the result; nothing else is; and a list
    without duplicates stays without duplicates. *)
Theorem add_picked_union files picked :
  files `prefix_of` add_picked files picked
  /\ (forall x, x ∈ add_picked files picked <-> x ∈ files \/ x ∈ picked)
  /\ (NoDup files -> NoDup (add_picked files picked)).
Proof.
  unfold add_picked. revert files.
  induction picked as [|p picked IH]; intros files; cbn.
  - split; [reflexivity|]. split; [|auto].
    intros x. split; [auto|]. intros [H|H]; [exact H|]. apply elem_of_nil in H.
    destruct H.
  - case_bool_decide as Hp.
    + destruct (IH files) as (Hpre & Hin & Hnd). split; [exact Hpre|].
      split; [|exact Hnd].
      intros x. rewrite Hin, elem_of_cons. split; [tauto|].
      intros [H|[->|H]]; auto.
    + destruct (IH (files ++ [p])) as (Hpre & Hin & Hnd). split; [|split].
      * etransitivity; [|exact Hpre]. apply prefix_app_r. reflexivity.
      * intros x. rewrite Hin, elem_of_app, (elem_of_cons picked x p),
          list_elem_of_singleton. tauto.
      * intros Hfiles. apply Hnd. apply NoDup_app. repeat split; [exact Hfiles| |].
        -- intros x Hx Hx'. apply list_elem_of_singleton in Hx'. subst x.
           contradiction.
        -- apply NoDup_singleton.
Qed.

End StageFailure.

(** Witness for X11: two files given, neither exists. *)
Lemma staging_nothing_witness :
  spawns (trace (snd (add_and_commit (script_env [AExists false; AExists false])
                        r1 false (Some ["a.txt"; "b.txt"]) init_world)))
  = [].
Proof.
  rewrite (proj2 (proj2 (staging_nothing (script_env [AExists false; AExists false])
                           r1 init_world "a.txt" ["b.txt"])) eq_refl).
  vm_compute. reflexivity.
Defined.

(** Witness for X12: of three files the first and the third exist. *)
Lemma stages_existing_files_in_order_witness :
  exists more,
    trace (snd (add_and_commit
                  (script_env [AExists true; AExists false; AExists true])
                  r1 false (Some ["a.txt"; "b.txt"; "c.txt"]) init_world))
    = Print (DoesNotExist "b.txt")
      :: Spawn ["git"; "add"; "a.txt"; "c.txt"] (Some r1) :: more.
Proof.
  destruct (proj2 (stages_existing_files_in_order
                     (script_env [AExists true; AExists false; AExists true])
                     r1 init_world "a.txt" ["b.txt"; "c.txt"] "a.txt" ["c.txt"]
                     eq_refl)) as [more Hmore].
  exists more. exact Hmore.
Defined.

(** Witness for X13: [git add .] ends with status 128. *)
Lemma failed_stage_skips_commit_witness :
  add_and_commit (script_env [fails_with 128]) r1 true None init_world
  = (Raise RuntimeError,
     mkWorld (mkSession [r1] ∅ ∅) [Spawn ["git"; "add"; "."] (Some r1)] 1).
Proof.
  exact (proj1 (failed_stage_skips_commit (script_env [fails_with 128]) r1
                  init_world (mkProc 128 EmptyString EmptyString)
                  ltac:(discriminate)) None eq_refl).
Defined.

(** Witness for X14: a second round that repeats a file. *)
Lemma add_picked_union_witness :
  NoDup (add_picked ["a.txt"; "b.txt"] ["b.txt"; "c.txt"]).
Proof.
  apply (proj2 (proj2 (add_picked_union ["a.txt"; "b.txt"] ["b.txt"; "c.txt"]))).
  repeat constructor; cbn; rewrite ?elem_of_cons; intros H;
    repeat (destruct H as [H|H]; [discriminate H|]); apply elem_of_nil in H;
    destruct H.
Defined.

(** ** The pre-publish check *)

Section PrePublish.

Context (env : Env).

(** X15.  The pre-publish check stages nothing unless the tree is dirty and
    the operator agrees: with a clean tree it only reports that, and with a
    dirty tree and a refusal it shows the changes and says that nothing will
    be added.  In both cases it returns normally, the ledger is untouched,
    and the only commands run are the two status queries. *)
Theorem pre_publish_declined_stages_nothing fuel repo w cp :
  subprocess_run env (now w) ["git"; "status"; "--porcelain"] (Some repo)
  = Completed cp ->
  let porcelain := Spawn ["git"; "status"; "--porcelain"] (Some repo) in
  let short := Spawn ["git"; "status"; "--short"] (Some repo) in
  (Py.strip (stdout cp) = EmptyString ->
   maybe_stage_and_commit env fuel repo w
   = (Ret tt,
      mkWorld (ledger w)
        (trace w ++ porcelain :: panels cp ++ [Print NoUncommittedChanges])
        (S (now w))))
  /\ (forall cp2,
        Py.strip (stdout cp) <> EmptyString ->
        subprocess_run env (S (now w)) ["git"; "status"; "--short"] (Some repo)
        = Completed cp2 ->
        Confirm_ask env (S (S (now w))) = false ->
        maybe_stage_and_commit env fuel repo w
        = (Ret tt,
           mkWorld (ledger w)
             (trace w ++ porcelain :: panels cp ++ short :: panels cp2
              ++ (if Py.truthy (Py.strip (stdout cp2))
                  then [Print (PanelChangesDetected (Py.strip (stdout cp2)))]
                  else [])
              ++ [Print NotAddingChanges])
             (S (S (S (now w)))))).
Proof.
  intros Hcp porcelain short. subst porcelain short.
  unfold maybe_stage_and_commit, has_uncommitted_changes. split.
  - unfold bind at 1. unfold bind at 1. rewrite run_git_eq, Hcp. cbn.
    intros Hclean. apply truthy_false in Hclean. rewrite Hclean. cbn.
    unfold console_print, emit. cbn. rewrite <- ?app_assoc. reflexivity.
  - intros cp2 Hdirty Hcp2 Hno.
    unfold bind at 1. unfold bind at 1. rewrite run_git_eq, Hcp. cbn.
    apply truthy_true in Hdirty. rewrite Hdirty. cbn.
    unfold bind at 1. rewrite run_git_eq. cbn. rewrite Hcp2. cbn.
    destruct (Py.truthy (Py.strip (stdout cp2))); cbn; unfold bind at 1; cbn;
      rewrite Hno; cbn; unfold console_print, emit; cbn;
      rewrite <- ?app_assoc; cbn; rewrite <- ?app_assoc; reflexivity.
Qed.

End PrePublish.

(** Witness for X15: a clean tree, and a dirty tree with a refusal. *)
Lemma pre_publish_declined_stages_nothing_witness :
  fst (maybe_stage_and_commit calm_env 3 r1 init_world) = Ret tt
  /\ maybe_stage_and_commit
       (script_env [says " M a.txt"; says " M a.txt"; ABool false]) 3 r1 init_world
     = (Ret tt,
        mkWorld empty_session
          [ Spawn ["git"; "status"; "--porcelain"] (Some r1);
            Print (PanelStdout "M a.txt");
            Spawn ["git"; "status"; "--short"] (Some r1);
            Print (PanelStdout "M a.txt");
            Print (PanelChangesDetected "M a.txt");
            Print NotAddingChanges ] 3).
Proof.
  split.
  - rewrite (proj1 (pre_publish_declined_stages_nothing calm_env 3 r1 init_world
                      quiet eq_refl) eq_refl).
    reflexivity.
  - exact (proj2 (pre_publish_declined_stages_nothing
                    (script_env [says " M a.txt"; says " M a.txt"; ABool false])
                    3 r1 init_world (mkProc 0 " M a.txt" EmptyString) eq_refl)
                 (mkProc 0 " M a.txt" EmptyString)
                 ltac:(vm_compute; discriminate) eq_refl eq_refl).
Defined.

(** ** The branch flow, case by case *)

Section BranchCases.

Context (env : Env).

Lemma ask_branch_flow_eq repo w cur loc :
  subprocess_run env (now w) ["git"; "rev-parse"; "--abbrev-ref"; "HEAD"]
                 (Some repo) = Completed cur ->
  subprocess_run env (S (now w)) ["git"; "branch"; "--format"; "%(refname:short)"]
                 (Some repo) = Completed loc ->
  ask_branch_flow env repo w
  = branch_choice env repo (Py.strip (stdout cur)) (branches_of (stdout loc))
      (branches_known repo w cur loc).
Proof.
  intros Hcur Hloc. unfold ask_branch_flow, get_branches, branch_choice.
  unfold bind at 1. unfold bind at 1. rewrite run_git_eq, Hcur. cbn.
  unfold bind at 1. rewrite run_git_eq. cbn. rewrite Hloc. cbn.
  unfold bind at 1. cbn. unfold branches_known, branches_of.
  rewrite <- ?app_assoc. cbn. rewrite <- ?app_assoc. reflexivity.
Qed.

(** [checkout_branch] in closed form. *)
Lemma checkout_branch_eq repo branch create w :
  checkout_branch env repo branch create w
  = let args := if create then ["checkout"; "-b"; branch] else ["checkout"; branch] in
    match subprocess_run env (now w) ("git" :: args) (Some repo) with
    | Completed cp =>
        (if returncode cp =? 0 then Ret tt else Raise RuntimeError,
         mkWorld (ledger w) (trace w ++ Spawn ("git" :: args) (Some repo) :: panels cp)
                 (S (now w)))
    | SpawnFails e =>
        (Raise e,
         mkWorld (ledger w) (trace w ++ [Spawn ("git" :: args) (Some repo)])
                 (S (now w)))
    end.
Proof.
  unfold checkout_branch. destruct create; unfold bind; rewrite run_git_eq; cbn;
    destruct (subprocess_run env (now w) _ (Some repo)) as [cp|e];
    try reflexivity; destruct (returncode cp =? 0); reflexivity.
Qed.

(** X16.  Choosing the branch the repository is already on does nothing to
    it: no checkout is run, no branch change is recorded, and the flow
    returns that branch. *)
Theorem same_branch_is_no_change repo w cur loc :
  subprocess_run env (now w) ["git"; "rev-parse"; "--abbrev-ref"; "HEAD"]
                 (Some repo) = Completed cur ->
  subprocess_run env (S (now w)) ["git"; "branch"; "--format"; "%(refname:short)"]
                 (Some repo) = Completed loc ->
  inquirer_select env (S (S (now w))) = "existing" ->
  branches_of (stdout loc) <> [] ->
  inquirer_select env (S (S (S (now w)))) = Py.strip (stdout cur) ->
  ask_branch_flow env repo w
  = (Ret (Py.strip (stdout cur)),
     mkWorld (ledger w) (trace (branches_known repo w cur loc)) (S (S (S (S (now w)))))).
Proof.
  intros Hcur Hloc Hact Hbr Hsel.
  rewrite (ask_branch_flow_eq repo w cur loc Hcur Hloc).
  unfold branch_choice. unfold bind at 1. cbn. rewrite Hact. cbn.
  destruct (branches_of (stdout loc)) as [|b0 bs]; [congruence|].
  unfold bind at 1. cbn. rewrite Hsel, String.eqb_refl. reflexivity.
Qed.

(** X17.  With no local branch, choosing to use an existing branch falls
    back to creating one: after one line saying so the flow is exactly the
    creation of a new branch, as if that had been chosen. *)
Theorem no_branches_falls_back_to_new repo w cur loc :
  subprocess_run env (now w) ["git"; "rev-parse"; "--abbrev-ref"; "HEAD"]
                 (Some repo) = Completed cur ->
  subprocess_run env (S (now w)) ["git"; "branch"; "--format"; "%(refname:short)"]
                 (Some repo) = Completed loc ->
  inquirer_select env (S (S (now w))) = "existing" ->
  branches_of (stdout loc) = [] ->
  ask_branch_flow env repo w
  = create_new_branch env repo (Py.strip (stdout cur))
      (mkWorld (ledger w)
         (trace (branches_known repo w cur loc) ++ [Print NoLocalBranches])
         (S (S (S (now w))))).
Proof.
  intros Hcur Hloc Hact Hbr.
  rewrite (ask_branch_flow_eq repo w cur loc Hcur Hloc).
  unfold branch_choice. unfold bind at 1. cbn. rewrite Hact. cbn. rewrite Hbr.
  reflexivity.
Qed.

(** [create_new_branch] in closed form. *)
Lemma create_new_branch_eq repo current w :
  create_new_branch env repo current w
  = let name := Py.strip (Prompt_ask env (now w)) in
    if Py.truthy name then
      let w1 := mkWorld (with_record (ledger w) repo current name) (trace w)
                        (S (now w)) in
      match checkout_branch env repo name true w1 with
      | (Ret _, w2) => (Ret name, w2)
      | (Raise e, w2) => (Raise e, w2)
      | (SysExit c, w2) => (SysExit c, w2)
      | (Running, w2) => (Running, w2)
      end
    else
      (SysExit 1,
       mkWorld (ledger w) (trace w ++ [Print EmptyBranchName]) (S (now w))).
Proof.
  unfold create_new_branch. unfold bind at 1. cbn.
  destruct (Py.truthy (Py.strip (Prompt_ask env (now w)))); reflexivity.
Qed.

(** X18.  An empty name for the new branch ends the program with exit code
    1: nothing is recorded and no checkout is attempted. *)
Theorem empty_branch_name_exits repo current w :
  Py.strip (Prompt_ask env (now w)) = EmptyString ->
  create_new_branch env repo current w
  = (SysExit 1,
     mkWorld (ledger w) (trace w ++ [Print EmptyBranchName]) (S (now w))).
Proof.
  intros Hname. rewrite create_new_branch_eq. cbv zeta.
  apply truthy_false in Hname. rewrite Hname. reflexivity.
Qed.

(** X19.  The branch change is recorded before the checkout is attempted:
    when the checkout ends with a non-zero status the flow raises
    [RuntimeError], and the record of the repository already names the
    branch that was never reached.  This holds when a new branch is created
    and when an existing one is chosen. *)
Theorem failed_checkout_leaves_record repo current w cp :
  returncode cp <> 0 ->
  (let name := Py.strip (Prompt_ask env (now w)) in
   name <> EmptyString ->
   subprocess_run env (S (now w)) ["git"; "checkout"; "-b"; name] (Some repo)
   = Completed cp ->
   create_new_branch env repo current w
   = (Raise RuntimeError,
      mkWorld (with_record (ledger w) repo current name)
        (trace w ++ Spawn ["git"; "checkout"; "-b"; name] (Some repo) :: panels cp)
        (S (S (now w)))))
  /\ (forall cur loc b0 bs,
        subprocess_run env (now w) ["git"; "rev-parse"; "--abbrev-ref"; "HEAD"]
                       (Some repo) = Completed cur ->
        subprocess_run env (S (now w))
                       ["git"; "branch"; "--format"; "%(refname:short)"]
                       (Some repo) = Completed loc ->
        branches_of (stdout loc) = b0 :: bs ->
        inquirer_select env (S (S (now w))) = "existing" ->
        let choice := inquirer_select env (S (S (S (now w)))) in
        choice <> Py.strip (stdout cur) ->
        subprocess_run env (S (S (S (S (now w))))) ["git"; "checkout"; choice]
                       (Some repo) = Completed cp ->
        ask_branch_flow env repo w
        = (Raise RuntimeError,
           mkWorld (with_record (ledger w) repo (Py.strip (stdout cur)) choice)
             (trace (branches_known repo w cur loc)
              ++ Spawn ["git"; "checkout"; choice] (Some repo) :: panels cp)
             (S (S (S (S (S (now w)))))))).
Proof.
  intros Hrc. apply Z.eqb_neq in Hrc. split.
  - intros name Hname Hcp. subst name. rewrite create_new_branch_eq. cbv zeta.
    apply truthy_true in Hname. rewrite Hname, checkout_branch_eq. cbn.
    rewrite Hcp, Hrc. reflexivity.
  - intros cur loc b0 bs Hcur Hloc Hbr Hact choice Hne Hcp. subst choice.
    rewrite (ask_branch_flow_eq repo w cur loc Hcur Hloc), Hbr.
    unfold branch_choice. unfold bind at 1. cbn. rewrite Hact. cbn.
    apply String.eqb_neq in Hne. rewrite Hne. cbn.
    unfold bind. cbn. rewrite checkout_branch_eq. cbn.
    rewrite Hcp, Hrc. reflexivity.
Qed.

End BranchCases.

(** Witness for X16: main chosen while on main. *)
Lemma same_branch_is_no_change_witness :
  let rw := ask_branch_flow (script_env (pick_existing "main" 0)) r1 init_world in
  fst rw = Ret "main" /\ ledger (snd rw) = empty_session
  /\ length (spawns (trace (snd rw))) = 2%nat.
Proof.
  cbv zeta.
  rewrite (same_branch_is_no_change (script_env (pick_existing "main" 0)) r1
             init_world (mkProc 0 ("main" +:+ LF) EmptyString)
             (mkProc 0 branch_list EmptyString) eq_refl eq_refl eq_refl
             ltac:(vm_compute; discriminate) eq_refl).
  repeat split.
Defined.

(** Witness for X17: the new branch is created and recorded. *)
Lemma no_branches_falls_back_to_new_witness :
  let rw := ask_branch_flow (script_env no_branches) r1 init_world in
  fst rw = Ret "trunk"
  /\ BRANCH_CHANGED (ledger (snd rw)) !! path_str r1 = Some ("HEAD", "trunk").
Proof.
  cbv zeta.
  rewrite (no_branches_falls_back_to_new (script_env no_branches) r1 init_world
             (mkProc 0 ("HEAD" +:+ LF) EmptyString) quiet eq_refl eq_refl eq_refl
             eq_refl).
  split; vm_compute; reflexivity.
Defined.

(** Witness for X18: the operator gives no name. *)
Lemma empty_branch_name_exits_witness :
  fst (create_new_branch calm_env r1 "main" init_world) = SysExit 1.
Proof.
  rewrite (empty_branch_name_exits calm_env r1 "main" init_world eq_refl).
  reflexivity.
Defined.

(** Witness for X19: both checkouts are refused. *)
Lemma failed_checkout_leaves_record_witness :
  (let rw := create_new_branch (script_env [AText "feat"; fails_with 128]) r1 "main"
                               init_world in
   fst rw = Raise RuntimeError
   /\ BRANCH_CHANGED (ledger (snd rw)) !! path_str r1 = Some ("main", "feat"))
  /\ (let rw := ask_branch_flow (script_env (pick_existing "dev" 1)) r1 init_world in
      fst rw = Raise RuntimeError
      /\ BRANCH_CHANGED (ledger (snd rw)) !! path_str r1 = Some ("main", "dev")).
Proof.
  cbv zeta. split.
  - rewrite (proj1 (failed_checkout_leaves_record
                      (script_env [AText "feat"; fails_with 128]) r1 "main"
                      init_world (mkProc 128 EmptyString EmptyString)
                      ltac:(discriminate))
                   ltac:(vm_compute; discriminate) eq_refl).
    split; [reflexivity|]. vm_compute. reflexivity.
  - rewrite (proj2 (failed_checkout_leaves_record
                      (script_env (pick_existing "dev" 1)) r1 "main"
                      init_world (mkProc 1 EmptyString EmptyString)
                      ltac:(discriminate))
                   (mkProc 0 ("main" +:+ LF) EmptyString)
                   (mkProc 0 branch_list EmptyString) "main" ["dev"; "feature"]
                   eq_refl eq_refl ltac:(vm_compute; reflexivity) eq_refl
                   ltac:(vm_compute; discriminate) eq_refl).
    split; [reflexivity|]. vm_compute. reflexivity.
Defined.

(** ** The dispatcher *)

Section DispatcherFrames.

Context (env : Env).

(** X20.  Only the branch action writes the ledger: every other action,
    known or not (pull, fetch, status, log, both pushes, the review request,
    any other text), leaves the touched list, the staged-file records and
    the branch-change records as they were, however the backend answers. *)
Theorem only_branch_action_writes_ledger repo action w :
  action <> change_branch ->
  ledger (snd (do_action env repo action w)) = ledger w.
Proof.
  intros Hne. apply String.eqb_neq in Hne. unfold change_branch in Hne.
  revert w. change (stable same_ledger (do_action env repo action)).
  unfold do_action. rewrite Hne. frame.
Qed.

Lemma returns_ret {A} (a : A) : returns (ret a).
Proof. intros w. eexists _, _. reflexivity. Qed.

Lemma returns_bind {A B} (m : M A) (k : A -> M B) :
  returns m -> (forall a, returns (k a)) -> returns (bind m k).
Proof.
  intros Hm Hk w. destruct (Hm w) as (a & w1 & Ha).
  destruct (Hk a w1) as (b & w2 & Hb). exists b, w2.
  unfold bind. rewrite Ha. exact Hb.
Qed.

Lemma returns_when b (m : M unit) : returns m -> returns (when b m).
Proof. destruct b; cbn; auto using returns_ret. Qed.

Lemma returns_ask {A} (o : nat -> A) : returns (ask o).
Proof. intros w. eexists _, _. reflexivity. Qed.

Lemma returns_console_print m : returns (console_print m).
Proof. intros w. eexists _, _. reflexivity. Qed.

Hypothesis complete : spawns_complete env.

Lemma returns_spawn cmd cwd : returns (spawn env cmd cwd).
Proof.
  intros w. unfold spawn, bind. cbn.
  destruct (complete (now w) cmd cwd) as [cp Hcp]. rewrite Hcp.
  eexists _, _. reflexivity.
Qed.

Lemma returns_run_git_unchecked repo args : returns (run_git env repo args false).
Proof.
  unfold run_git. apply returns_bind; [apply returns_spawn|]. intros proc.
  apply returns_bind; [apply returns_when, returns_console_print|]. intros _.
  apply returns_bind; [apply returns_when, returns_console_print|]. intros _.
  apply returns_ret.
Qed.

Ltac returning :=
  repeat first
    [ progress (intros)
    | apply returns_ret
    | apply returns_ask
    | apply returns_console_print
    | apply returns_spawn
    | apply returns_run_git_unchecked
    | apply returns_when
    | apply returns_bind
    | match goal with
      | |- returns (if ?b then _ else _) => destruct b
      end ].

(** X21.  A backend that answers with an error status is never fatal to an
    action other than the branch action: as long as the processes can be
    started at all, the action returns normally, whatever their exit
    statuses. *)
Theorem backend_status_never_fatal repo action w :
  action <> change_branch ->
  fst (do_action env repo action w) = Ret tt.
Proof.
  intros Hne. apply String.eqb_neq in Hne. unfold change_branch in Hne.
  assert (Hr : returns (do_action env repo action)).
  { unfold do_action. rewrite Hne. returning. }
  destruct (Hr w) as ([] & w' & Hw). rewrite Hw. reflexivity.
Qed.

End DispatcherFrames.

(** Witness for X20: a push. *)
Lemma only_branch_action_writes_ledger_witness :
  ledger (snd (do_action calm_env r1 "Push directo (origin HEAD)" two_touched))
  = ledger two_touched.
Proof.
  apply only_branch_action_writes_ledger. vm_compute. discriminate.
Defined.

(** Witness for X21: a pull that git rejects with status 128. *)
Lemma backend_status_never_fatal_witness :
  fst (do_action (always_status 128) r1 "Pull" init_world) = Ret tt.
Proof.
  apply backend_status_never_fatal.
  - intros t cmd cwd. eexists. reflexivity.
  - vm_compute. discriminate.
Defined.

(** ** Rollback stays within the touched repositories *)

Section RollbackScope.

Context (env : Env).

Lemma compensating_steps_scope s repo c d :
  (c, d) ∈ compensating_steps s repo -> d = Some repo /\ head c = Some "git".
Proof.
  unfold compensating_steps. intros H.
  apply elem_of_app in H as [H|H].
  - repeat (apply elem_of_cons in H as [[= -> ->]|H]; [split; reflexivity|]).
    apply elem_of_nil in H. destruct H.
  - destruct (BRANCH_CHANGED s !! path_str repo) as [[old new]|].
    + apply list_elem_of_singleton in H. injection H as -> ->. split; reflexivity.
    + apply elem_of_nil in H. destruct H.
Qed.

Lemma elem_of_concat_inv {A} (x : A) (ls : list (list A)) :
  x ∈ concat ls -> exists l, x ∈ l /\ l ∈ ls.
Proof.
  induction ls as [|l ls IH]; cbn; intros H.
  - apply elem_of_nil in H. destruct H.
  - apply elem_of_app in H as [H|H].
    + exists l. split; [exact H | left].
    + destruct (IH H) as (l' & Hx & Hl'). exists l'. split; [exact Hx | right; exact Hl'].
Qed.

(** X22.  Rollback acts on touched repositories only: every command it runs
    is a git command whose working directory is an entry of the touched
    list, and it writes nothing to the ledger.  In particular, when no
    staging was attempted in the session it runs no command at all, so a
    branch that was only switched is not switched back. *)
Theorem rollback_confined_to_touched w :
  let w' := snd (handle_sigint env w) in
  ledger w' = ledger w
  /\ (exists issued,
        spawns (trace w') = spawns (trace w) ++ issued
        /\ forall c d, (c, d) ∈ issued ->
             head c = Some "git"
             /\ exists repo, repo ∈ TOUCHED_REPOS (ledger w) /\ d = Some repo)
  /\ (TOUCHED_REPOS (ledger w) = [] -> spawns (trace w') = spawns (trace w)).
Proof.
  cbv zeta.
  destruct (handle_sigint_spec env w)
    as (w' & blocks & Hrun & Hled & Hvis & Hsp & Hpre & Hall).
  rewrite Hrun. cbn [snd]. split; [exact Hled|]. split.
  - exists (concat blocks). split; [exact Hsp|].
    intros c d Hin. apply elem_of_concat_inv in Hin as (block & Hin & Hblock).
    apply list_elem_of_lookup in Hblock as [i Hi].
    destruct (Forall2_lookup_r _ _ _ _ _ Hpre Hi) as (repo & Hrepo & Hprefix).
    destruct Hprefix as [rest Hrest].
    assert (Hc : (c, d) ∈ compensating_steps (ledger w) repo).
    { rewrite Hrest. apply elem_of_app. left. exact Hin. }
    apply compensating_steps_scope in Hc as [-> Hgit]. split; [exact Hgit|].
    exists repo. split; [|reflexivity].
    apply list_elem_of_lookup. exists i. exact Hrepo.
  - intros Hnone. rewrite Hnone in Hpre. apply Forall2_nil_inv_l in Hpre.
    rewrite Hsp, Hpre. cbn. apply app_nil_r.
Qed.

End RollbackScope.

(** Witness for X22: the branch of [r1] was switched, nothing was staged. *)
Lemma rollback_confined_to_touched_witness :
  let w := mkWorld (mkSession [] ∅ {[ path_str r1 := ("main", "dev") ]}) [] 0 in
  spawns (trace (snd (handle_sigint calm_env w))) = [].
Proof.
  cbv zeta.
  exact (proj2 (proj2 (rollback_confined_to_touched calm_env
                         (mkWorld (mkSession [] ∅ {[ path_str r1 := ("main", "dev") ]})
                                  [] 0)))
               eq_refl).
Defined.

(** ** The loop over the actions of one repository *)

Section ActionLoop.

Context (env : Env).

Lemma starts_with_run_git repo args check :
  starts_with (Spawn ("git" :: args) (Some repo)) (run_git env repo args check).
Proof.
  intros w. rewrite run_git_eq.
  destruct (subprocess_run env (now w) _ (Some repo)); cbn; eexists; reflexivity.
Qed.

Lemma starts_with_bind {A B} e (m : M A) (k : A -> M B) :
  starts_with e m -> (forall a, stable trace_extends (k a)) ->
  starts_with e (bind m k).
Proof.
  intros Hm Hk w. unfold bind. destruct (Hm w) as [more Hmore].
  destruct (m w) as [[a| | |] w1]; cbn in *; try (exists more; exact Hmore).
  destruct (Hk a w1) as [more' Hmore']. exists (more ++ more').
  rewrite Hmore', Hmore, <- app_assoc. reflexivity.
Qed.

Hint Resolve spawn_trace_extends run_git_trace_extends commit_step_trace_extends
  : tframe.

Lemma existing_files_trace_extends repo files :
  stable trace_extends (existing_files env repo files).
Proof. induction files as [|f files IH]; cbn [existing_files]; tframe. Qed.

Hint Resolve existing_files_trace_extends : tframe.

Lemma add_and_commit_trace_extends repo add_all files :
  stable trace_extends (add_and_commit env repo add_all files).
Proof. unfold add_and_commit, stage_step. tframe. Qed.

Hint Resolve add_and_commit_trace_extends : tframe.

Lemma browse_trace_extends fuel repo :
  stable trace_extends (browse_and_select_files env fuel repo).
Proof.
  pose proof (rel_of_same_trace repo). pose proof (rels_of_same_trace repo).
  unfold browse_and_select_files. generalize (mkBrowser repo [] ∅).
  induction fuel as [|fuel IH]; intros b; cbn [browse_loop]; [tframe|].
  apply stable_bind; [typeclasses eauto| |intros [b'|result]; [apply IH|tframe]].
  unfold browse_iter, dispatch_row, finish, choose_file, remove_last,
    list_selection.
  tframe.
Qed.

Hint Resolve browse_trace_extends : tframe.

Lemma pick_files_trace_extends fuel repo files :
  stable trace_extends (pick_files env fuel repo files).
Proof.
  revert files. induction fuel as [|fuel IH]; intros files; cbn [pick_files];
    tframe.
Qed.

Hint Resolve pick_files_trace_extends : tframe.

Lemma maybe_stage_and_commit_trace_extends fuel repo :
  stable trace_extends (maybe_stage_and_commit env fuel repo).
Proof. unfold maybe_stage_and_commit, has_uncommitted_changes. tframe. Qed.

Lemma ask_branch_flow_trace_extends repo :
  stable trace_extends (ask_branch_flow env repo).
Proof.
  unfold ask_branch_flow, get_branches, create_new_branch, checkout_branch.
  tframe.
Qed.

Hint Resolve maybe_stage_and_commit_trace_extends ask_branch_flow_trace_extends
  : tframe.

Lemma do_action_trace_extends repo action :
  stable trace_extends (do_action env repo action).
Proof. unfold do_action. tframe. Qed.

Hint Resolve do_action_trace_extends : tframe.

Lemma repo_loop_trace_extends fuel path :
  stable trace_extends (repo_loop env fuel path).
Proof. induction fuel as [|fuel IH]; cbn [repo_loop]; tframe. Qed.

Hint Resolve repo_loop_trace_extends : tframe.

Lemma starts_with_do_action repo action :
  starts_with (Spawn ["git"; "rev-parse"; "--abbrev-ref"; "HEAD"] (Some repo))
              (do_action env repo action).
Proof.
  unfold do_action. apply starts_with_bind; [apply starts_with_run_git|].
  intros head. cbv zeta.
  tframe.
Qed.

Lemma starts_with_pre_publish fuel repo :
  starts_with (Spawn ["git"; "status"; "--porcelain"] (Some repo))
              (maybe_stage_and_commit env fuel repo).
Proof.
  unfold maybe_stage_and_commit, has_uncommitted_changes.
  apply starts_with_bind.
  - apply starts_with_bind; [apply starts_with_run_git | tframe].
  - tframe.
Qed.

(** X23.  What an action starts with.  "Nada, salir" ends the work on the
    repository at once, with no command run.  A publish action (a push or
    the review request) first runs the pre-publish check, so its first
    command is the porcelain status query.  Any other action first asks git
    for the current branch. *)
Theorem publish_checks_before_acting fuel path w :
  let action := inquirer_select env (now w) in
  let publish :=
    Py.startswith action "Push" || Py.startswith action "Crear Pull Request" in
  let first (e : Event) :=
    exists more, trace (snd (repo_loop env (S fuel) path w)) = trace w ++ e :: more in
  (action = "Nada, salir" ->
   repo_loop env (S fuel) path w
   = (Ret tt, mkWorld (ledger w) (trace w) (S (now w))))
  /\ (publish = true ->
      first (Spawn ["git"; "status"; "--porcelain"] (Some path)))
  /\ (action <> "Nada, salir" -> publish = false ->
      first (Spawn ["git"; "rev-parse"; "--abbrev-ref"; "HEAD"] (Some path))).
Proof.
  cbv zeta.
  set (action := inquirer_select env (now w)).
  set (w1 := mkWorld (ledger w) (trace w) (S (now w))).
  assert (Heq : repo_loop env (S fuel) path w
                = (if String.eqb action "Nada, salir" then ret tt
                   else
                     when (Py.startswith action "Push"
                           || Py.startswith action "Crear Pull Request")
                          (maybe_stage_and_commit env fuel path);;
                     do_action env path action;;
                     again <- ask (Confirm_ask env);;
                     if again : bool then repo_loop env fuel path else ret tt)%prog
                    w1) by reflexivity.
  rewrite Heq. clear Heq. split; [|split].
  - intros ->. reflexivity.
  - intros Hpub.
    assert (Hne : String.eqb action "Nada, salir" = false).
    { apply String.eqb_neq. intros Heq. rewrite Heq in Hpub. discriminate Hpub. }
    rewrite Hne, Hpub. cbn [when].
    refine (starts_with_bind _ _ _ (starts_with_pre_publish fuel path) _ w1).
    intros; tframe.
  - intros Hne Hpub. apply String.eqb_neq in Hne. rewrite Hne, Hpub. cbn [when].
    unfold bind at 1. cbn [ret].
    refine (starts_with_bind _ _ _ (starts_with_do_action path action) _ w1).
    intros; tframe.
Qed.

End ActionLoop.

(** ** Setting up *)

Section SetupProperties.

Context (env : Env).

Lemma step_sret {A B} (a : A) (k : A -> Setup B) r : sbind (sret a) k r = k a r.
Proof. reflexivity. Qed.

Lemma step_say {B} m (k : unit -> Setup B) r :
  sbind (say m) k r
  = k tt (mkRun (run_ledger r) (run_log r ++ [inr m]) (run_now r)).
Proof. reflexivity. Qed.

Lemma step_ask {A B} (f : nat -> A) (k : A -> Setup B) r :
  sbind (lift (ask f)) k r
  = k (f (run_now r)) (mkRun (run_ledger r) (run_log r) (S (run_now r))).
Proof. unfold sbind, lift, ask. cbn. rewrite app_nil_r. reflexivity. Qed.

Lemma step_spawn {B} cmd cwd (k : CompletedProcess -> Setup B) r :
  sbind (lift (spawn env cmd cwd)) k r
  = match subprocess_run env (run_now r) cmd cwd with
    | Completed cp =>
        k cp (mkRun (run_ledger r) (run_log r ++ [inl (Spawn cmd cwd)])
                    (S (run_now r)))
    | SpawnFails e =>
        (Raise e, mkRun (run_ledger r) (run_log r ++ [inl (Spawn cmd cwd)])
                        (S (run_now r)))
    end.
Proof.
  unfold sbind, lift, spawn, bind, emit, ask. cbn.
  destruct (subprocess_run env (run_now r) cmd cwd); reflexivity.
Qed.

Lemma step_git {B} repo args (k : CompletedProcess -> Setup B) r :
  sbind (lift (run_git env repo args true)) k r
  = match subprocess_run env (run_now r) ("git" :: args) (Some repo) with
    | Completed cp =>
        let r' := mkRun (run_ledger r)
                        (run_log r ++ inl (Spawn ("git" :: args) (Some repo))
                           :: (inl <$> panels cp))
                        (S (run_now r)) in
        if returncode cp =? 0 then k cp r' else (Raise RuntimeError, r')
    | SpawnFails e =>
        (Raise e,
         mkRun (run_ledger r)
               (run_log r ++ [inl (Spawn ("git" :: args) (Some repo))])
               (S (run_now r)))
    end.
Proof.
  unfold sbind, lift. rewrite run_git_eq. cbn.
  destruct (subprocess_run env (run_now r) _ (Some repo)) as [cp|e]; cbn;
    [|reflexivity].
  destruct (returncode cp =? 0); reflexivity.
Qed.

Lemma commands_app l1 l2 : commands (l1 ++ l2) = commands l1 ++ commands l2.
Proof. apply omap_app. Qed.

Lemma commands_panels cp : commands (inl <$> panels cp) = [].
Proof.
  unfold panels.
  destruct (Py.truthy (Py.strip (stdout cp))), (Py.truthy (Py.strip (stderr cp)));
    reflexivity.
Qed.

Lemma announced_app l1 l2 : announced (l1 ++ l2) = announced l1 ++ announced l2.
Proof. apply omap_app. Qed.

#[local] Instance git_in_preorder repo : PreOrder (git_in repo).
Proof.
  split.
  - intros r. split; [reflexivity|]. exists []. rewrite app_nil_r. auto.
  - intros r1 r2 r3 [L1 (c1 & E1 & F1)] [L2 (c2 & E2 & F2)]. split.
    + congruence.
    + exists (c1 ++ c2). rewrite E2, E1, <- app_assoc. split; [reflexivity|].
      apply Forall_app. auto.
Qed.

Lemma run_stable_sbind (R : relation Run) `{!PreOrder R} {A B}
      (m : Setup A) (k : A -> Setup B) :
  run_stable R m -> (forall a, run_stable R (k a)) -> run_stable R (sbind m k).
Proof.
  intros Hm Hk r. unfold sbind. specialize (Hm r).
  destruct (m r) as [[a| | |] r']; cbn in *; try exact Hm.
  etransitivity; [exact Hm|]. apply Hk.
Qed.

Lemma git_in_quiet repo r log' t :
  commands log' = [] ->
  git_in repo r (mkRun (run_ledger r) (run_log r ++ log') t).
Proof.
  intros Hq. split; [reflexivity|]. exists []. cbn.
  rewrite commands_app, Hq. auto.
Qed.

Lemma git_in_ask repo {A} (f : nat -> A) : run_stable (git_in repo) (lift (ask f)).
Proof. intros r. unfold lift, ask. cbn. apply git_in_quiet. reflexivity. Qed.

Lemma git_in_say repo m : run_stable (git_in repo) (say m).
Proof.
  intros r. unfold say. cbn. apply git_in_quiet. destruct m; reflexivity.
Qed.

Lemma git_in_sret repo {A} (a : A) : run_stable (git_in repo) (sret a).
Proof. intros r. reflexivity. Qed.

Lemma git_in_sexit repo {A} c : run_stable (git_in repo) (@sexit A c).
Proof. intros r. reflexivity. Qed.

Lemma git_in_run_git repo args check :
  run_stable (git_in repo) (lift (run_git env repo args check)).
Proof.
  intros r. unfold lift. rewrite run_git_eq. cbn.
  destruct (subprocess_run env (run_now r) _ (Some repo)) as [cp|e]; cbn.
  - split; [reflexivity|]. exists [("git" :: args, Some repo)]. cbn.
    rewrite commands_app. cbn. rewrite commands_panels. split; [reflexivity|].
    constructor; [eauto|constructor].
  - split; [reflexivity|]. exists [("git" :: args, Some repo)]. cbn.
    rewrite commands_app. cbn. split; [reflexivity|].
    constructor; [eauto|constructor].
Qed.

(** X24.  A directory that already is a repository is left alone: readying
    it asks nothing of the operator, runs nothing and prints nothing. *)
Theorem ready_repository_left_alone repo r :
  path_exists env (run_now r) repo ".git" = true ->
  ensure_clean_repo env repo r
  = (Ret tt, mkRun (run_ledger r) (run_log r) (S (run_now r))).
Proof.
  intros Hgit. unfold ensure_clean_repo, is_git_repo.
  rewrite step_ask, Hgit. reflexivity.
Qed.

(** X25.  Declining to initialise a directory that is not a repository ends
    the program with exit code 1 before any command is run. *)
Theorem declined_init_exits_untouched repo r :
  path_exists env (run_now r) repo ".git" = false ->
  Confirm_ask env (S (run_now r)) = false ->
  ensure_clean_repo env repo r
  = (SysExit 1,
     mkRun (run_ledger r)
           (run_log r ++ [inr (NotARepository repo); inr NotARepositoryCancelled])
           (S (S (run_now r)))).
Proof.
  intros Hgit Hno. unfold ensure_clean_repo, is_git_repo.
  rewrite step_ask, Hgit. cbv iota. rewrite step_say, step_ask. cbn [run_now].
  rewrite Hno. cbv iota. rewrite step_say. unfold sexit. cbn.
  rewrite <- app_assoc. reflexivity.
Qed.

(** X26.  When [git init] ends with a non-zero status, [RuntimeError] is
    raised at once: the operator is asked for no remote and no branch, and
    nothing else is run.  When it succeeds, the operator declines a remote
    and gives a blank branch name, [git init] is the only command run. *)
Theorem init_failure_stops_setup repo r cp :
  path_exists env (run_now r) repo ".git" = false ->
  Confirm_ask env (S (run_now r)) = true ->
  subprocess_run env (S (S (run_now r))) ["git"; "init"] (Some repo) = Completed cp ->
  let started := run_log r ++ inr (NotARepository repo)
                   :: inl (Spawn ["git"; "init"] (Some repo))
                   :: (inl <$> panels cp) in
  (returncode cp <> 0 ->
   ensure_clean_repo env repo r
   = (Raise RuntimeError, mkRun (run_ledger r) started (S (S (S (run_now r))))))
  /\ (returncode cp = 0 ->
      Confirm_ask env (S (S (S (run_now r)))) = false ->
      Py.strip (Prompt_ask env (S (S (S (S (run_now r)))))) = EmptyString ->
      ensure_clean_repo env repo r
      = (Ret tt,
         mkRun (run_ledger r) (started ++ [inr (RepositoryInitialised repo)])
               (S (S (S (S (S (run_now r)))))))).
Proof.
  intros Hgit Hyes Hcp started. subst started.
  assert (Hstart : ensure_clean_repo env repo r
    = let r' := mkRun (run_ledger r)
                      ((run_log r ++ [inr (NotARepository repo)])
                         ++ inl (Spawn ["git"; "init"] (Some repo))
                         :: (inl <$> panels cp))
                      (S (S (S (run_now r)))) in
      if returncode cp =? 0 then
        (say (RepositoryInitialised repo);;
         remote <- lift (ask (Confirm_ask env));;
         (if remote : bool then
            answer <- lift (ask (Prompt_ask env));;
            let remote_url := Py.strip answer in
            if Py.truthy remote_url then
              lift (run_git env repo ["remote"; "add"; "origin"; remote_url] true);;
              say (RemoteConfigured remote_url)
            else sret tt
          else sret tt);;
         answer <- lift (ask (Prompt_ask env));;
         let default_branch := Py.strip answer in
         if Py.truthy default_branch then
           lift (run_git env repo ["checkout"; "-b"; default_branch] true);;
           say (InitialBranchCreated default_branch)
         else sret tt)%setup r'
      else (Raise RuntimeError, r')).
  { unfold ensure_clean_repo, is_git_repo.
    rewrite step_ask, Hgit. cbv iota. rewrite step_say, step_ask. cbn [run_now].
    rewrite Hyes. cbv iota. rewrite step_git. cbn [run_now run_ledger run_log].
    rewrite Hcp. reflexivity. }
  rewrite Hstart. clear Hstart. cbv zeta. split.
  - intros Hrc. apply Z.eqb_neq in Hrc. rewrite Hrc, <- app_assoc. reflexivity.
  - intros Hrc Hno Hname. rewrite Hrc. cbn [Z.eqb].
    rewrite step_say, step_ask. cbn [run_now run_ledger run_log].
    unfold sbind at 1. rewrite Hno. cbv iota. unfold sret at 1. cbv iota beta.
    rewrite step_ask. cbn [run_now run_ledger run_log]. cbv zeta.
    rewrite Hname. cbn. rewrite <- !app_assoc. reflexivity.
Qed.

(** X27.  Whatever the operator and git answer, readying a repository
    leaves the session ledger as it was, and every process it spawns is a
    git command working in that repository. *)
Theorem setup_only_runs_git_in_repo repo r :
  let r' := snd (ensure_clean_repo env repo r) in
  run_ledger r' = run_ledger r
  /\ exists cmds,
       commands (run_log r') = commands (run_log r) ++ cmds
       /\ Forall (fun c => exists args, c = ("git" :: args, Some repo)) cmds.
Proof.
  cbv zeta. revert r. change (run_stable (git_in repo) (ensure_clean_repo env repo)).
  unfold ensure_clean_repo, is_git_repo.
  repeat first
    [ apply run_stable_sbind; [apply _| |intros ?]
    | apply git_in_ask | apply git_in_say | apply git_in_sret | apply git_in_sexit
    | apply git_in_run_git
    | match goal with |- run_stable _ (if ?b then _ else _) => destruct b end
    | progress cbv zeta ].
Qed.

End SetupProperties.

Section Dependencies.

Context (env : Env).

Lemma commands_snoc_inr l m : commands (l ++ [inr m]) = commands l.
Proof. rewrite commands_app. cbn. apply app_nil_r. Qed.

Lemma commands_snoc_spawn l c d :
  commands (l ++ [inl (Spawn c d)]) = commands l ++ [(c, d)].
Proof. rewrite commands_app. reflexivity. Qed.

(** X28.  The dependency check by cases.  Without a requirements file it
    returns and runs nothing.  With one, it runs the plain installation; only
    when that ends with a non-zero status does it run the installation with
    [--user], and only when this fails too does the program end, with exit
    code 1.  When the second attempt succeeds it returns normally. *)
Theorem dependency_install_outcomes executable req r :
  let t := run_now r in
  let out := ensure_dependencies env executable req r in
  let ran cmds := commands (run_log (snd out)) = commands (run_log r) ++ cmds in
  (path_exists env t req EmptyString = false -> fst out = Ret tt /\ ran [])
  /\ (path_exists env t req EmptyString = true ->
      forall cp,
        subprocess_run env (S t) (fst (pip_install executable req)) None
        = Completed cp ->
        (returncode cp = 0 ->
         fst out = Ret tt /\ ran [pip_install executable req])
        /\ (returncode cp <> 0 ->
            forall cp',
              subprocess_run env (S (S t)) (fst (pip_install_user executable req)) None
              = Completed cp' ->
              fst out = (if returncode cp' =? 0 then Ret tt else SysExit 1)
              /\ ran [pip_install executable req;
                      pip_install_user executable req])).
Proof.
  cbv zeta. unfold ensure_dependencies, pip_install, pip_install_user. cbn [fst].
  rewrite step_ask. split.
  - intros ->. cbn [negb]. cbv iota. unfold say. cbn [fst snd run_log].
    rewrite commands_snoc_inr, app_nil_r. auto.
  - intros -> cp Hcp. cbn [negb]. cbv iota.
    rewrite step_say, step_spawn. cbn [run_now run_ledger run_log].
    rewrite Hcp. split.
    + intros ->. cbn [Z.eqb negb]. cbv iota. unfold say. cbn [fst snd run_log].
      rewrite commands_snoc_inr, commands_snoc_spawn, commands_snoc_inr. auto.
    + intros Hrc cp' Hcp'. apply Z.eqb_neq in Hrc. rewrite Hrc. cbn [negb].
      cbv iota. rewrite step_say, step_spawn. cbn [run_now run_ledger run_log].
      rewrite Hcp'. destruct (returncode cp' =? 0); cbn [negb]; cbv iota.
      * unfold sret. cbn [fst snd run_log].
        rewrite commands_snoc_spawn, commands_snoc_inr, commands_snoc_spawn,
          commands_snoc_inr, <- app_assoc. auto.
      * cbv [sbind say sexit fst snd run_log run_ledger run_now].
        split; [reflexivity|].
        rewrite !commands_snoc_inr, commands_snoc_spawn, commands_snoc_inr,
          commands_snoc_spawn, commands_snoc_inr, <- app_assoc. reflexivity.
Qed.

End Dependencies.

Section Projects.

Context (env : Env).

#[local] Instance same_announced_preorder : PreOrder same_announced.
Proof.
  split.
  - intros r. reflexivity.
  - intros r1 r2 r3 H1 H2. unfold same_announced in *. congruence.
Qed.

Lemma announced_events (tr : list Event) : announced (inl <$> tr) = [].
Proof. induction tr as [|e tr IH]; [reflexivity|exact IH]. Qed.

Lemma same_announced_lift {A} (m : M A) : run_stable same_announced (lift m).
Proof.
  intros r. unfold lift.
  destruct (m (mkWorld (run_ledger r) [] (run_now r))) as [res w]. cbn.
  unfold same_announced. cbn.
  rewrite announced_app, announced_events. apply app_nil_r.
Qed.

Lemma same_announced_quiet m :
  (forall name p, m <> PanelProject name p) -> run_stable same_announced (say m).
Proof.
  intros Hm r. unfold say, same_announced. cbn. rewrite announced_app.
  destruct m; try apply app_nil_r. exfalso. eapply Hm. reflexivity.
Qed.

Lemma same_announced_sret {A} (a : A) : run_stable same_announced (sret a).
Proof. intros r. reflexivity. Qed.

Lemma same_announced_sexit {A} c : run_stable same_announced (@sexit A c).
Proof. intros r. reflexivity. Qed.

Lemma ensure_clean_repo_announces_nothing repo :
  run_stable same_announced (ensure_clean_repo env repo).
Proof.
  unfold ensure_clean_repo, is_git_repo.
  repeat first
    [ apply run_stable_sbind; [apply _| |intros ?]
    | apply same_announced_lift
    | apply same_announced_quiet; discriminate
    | apply same_announced_sret | apply same_announced_sexit
    | match goal with |- run_stable _ (if ?b then _ else _) => destruct b end
    | progress cbv zeta ].
Qed.

(** X29.  A project whose directory is not a repository and whose
    initialisation the operator declines ends the whole run with exit code 1:
    the projects after it are not announced and no command is run. *)
Theorem declined_project_stops_run fuel p rest r :
  path_exists env (run_now r) (project_path p) ".git" = false ->
  Confirm_ask env (S (run_now r)) = false ->
  process_projects env fuel (p :: rest) r
  = (SysExit 1,
     mkRun (run_ledger r)
           (run_log r ++ [inr (PanelProject (project_name p) (project_path p));
                          inr (NotARepository (project_path p));
                          inr NotARepositoryCancelled])
           (S (S (run_now r)))).
Proof.
  intros Hgit Hno. unfold process_projects. cbn [sfor_each].
  unfold sbind at 1. rewrite step_say. unfold sbind at 1.
  unfold ensure_clean_repo, is_git_repo.
  rewrite step_ask. cbn [run_now run_ledger run_log]. rewrite Hgit. cbv iota.
  rewrite step_say, step_ask. cbn [run_now run_ledger run_log].
  rewrite Hno. cbv iota. rewrite step_say. unfold sexit. cbn.
  rewrite <- !app_assoc. reflexivity.
Qed.

Lemma sfor_each_cons {A} (x : A) rest body r :
  sfor_each (x :: rest) body r
  = match body x r with
    | (Ret _, r') => sfor_each rest body r'
    | (Raise e, r') => (Raise e, r')
    | (SysExit c, r') => (SysExit c, r')
    | (Running, r') => (Running, r')
    end.
Proof. reflexivity. Qed.

Lemma project_announced_once fuel p r :
  let body :=
    (say (PanelProject (project_name p) (project_path p));;
     ensure_clean_repo env (project_path p);;
     lift (repo_loop env fuel (project_path p));;
     say PanelAllDone)%setup in
  announced (run_log (snd (body r))) = announced (run_log r) ++ [project_path p].
Proof.
  cbv zeta. rewrite step_say.
  match goal with
  | |- announced (run_log (snd (?m ?r1))) = _ =>
      assert (H : run_stable same_announced m)
  end.
  { repeat first
      [ apply ensure_clean_repo_announces_nothing
      | apply same_announced_lift
      | apply same_announced_quiet; discriminate
      | apply run_stable_sbind; [apply _| |intros ?] ]. }
  rewrite (H _). cbn. apply announced_app.
Qed.

(** X30.  The projects are handled in the order selected and none is
    skipped: whatever happens, those announced are an initial part of the
    selection, and when the run returns normally they are all of it. *)
Theorem projects_announced_in_order fuel selected r :
  let out := process_projects env fuel selected r in
  exists n,
    announced (run_log (snd out))
    = announced (run_log r) ++ take n (project_path <$> selected)
    /\ (fst out = Ret tt -> n = length selected).
Proof.
  cbv zeta. revert r. induction selected as [|p rest IH]; intros r.
  - exists 0%nat. cbn. rewrite app_nil_r. auto.
  - pose proof (project_announced_once fuel p r) as Hp. cbv zeta in Hp.
    unfold process_projects in *. rewrite sfor_each_cons. cbv beta.
    match type of Hp with
    | announced (run_log (snd ?t)) = _ => destruct t as [[[]| | |] r1]
    end; cbn [fst snd] in *.
    + destruct (IH r1) as (n & Hn & Hall). exists (S n). split.
      * rewrite Hn, Hp, <- app_assoc. reflexivity.
      * intros Hret. cbn. f_equal. apply Hall. exact Hret.
    + exists 1%nat. split; [cbn; rewrite Hp; reflexivity|discriminate].
    + exists 1%nat. split; [cbn; rewrite Hp; reflexivity|discriminate].
    + exists 1%nat. split; [cbn; rewrite Hp; reflexivity|discriminate].
Qed.

End Projects.

(** ** Concrete runs of the set-up code *)

(** Witness for X23: leaving at once, a direct push, a status query. *)
Lemma publish_checks_before_acting_witness :
  repo_loop (script_env [AText "Nada, salir"]) 1 r1 init_world
  = (Ret tt, mkWorld empty_session [] 1)
  /\ (exists more,
        trace (snd (repo_loop (script_env [AText "Push directo (origin HEAD)"]) 1 r1
                              init_world))
        = Spawn ["git"; "status"; "--porcelain"] (Some r1) :: more)
  /\ (exists more,
        trace (snd (repo_loop (script_env [AText "Status"]) 1 r1 init_world))
        = Spawn ["git"; "rev-parse"; "--abbrev-ref"; "HEAD"] (Some r1) :: more).
Proof.
  split; [|split].
  - apply (publish_checks_before_acting (script_env [AText "Nada, salir"]) 0 r1
             init_world).
    reflexivity.
  - apply (publish_checks_before_acting
             (script_env [AText "Push directo (origin HEAD)"]) 0 r1 init_world).
    reflexivity.
  - apply (publish_checks_before_acting (script_env [AText "Status"]) 0 r1
             init_world).
    + discriminate.
    + reflexivity.
Defined.

(** Witness for X24: [r1] holds a [.git] entry. *)
Lemma ready_repository_left_alone_witness :
  ensure_clean_repo (script_env [AExists true]) r1 init_run
  = (Ret tt, mkRun empty_session [] 1).
Proof.
  apply (ready_repository_left_alone (script_env [AExists true]) r1 init_run).
  reflexivity.
Defined.

(** Witness for X25: no [.git] entry, and the operator says no. *)
Lemma declined_init_exits_untouched_witness :
  ensure_clean_repo (script_env [AExists false; ABool false]) r1 init_run
  = (SysExit 1,
     mkRun empty_session [inr (NotARepository r1); inr NotARepositoryCancelled] 2).
Proof.
  apply (declined_init_exits_untouched (script_env [AExists false; ABool false])
           r1 init_run); reflexivity.
Defined.

(** Witness for X26: [git init] refused with status 128, and [git init]
    accepted with nothing else asked for. *)
Lemma init_failure_stops_setup_witness :
  fst (ensure_clean_repo (script_env [AExists false; ABool true; fails_with 128])
                         r1 init_run)
  = Raise RuntimeError
  /\ ensure_clean_repo
       (script_env [AExists false; ABool true; says EmptyString; ABool false;
                    AText "  "])
       r1 init_run
     = (Ret tt,
        mkRun empty_session
              [inr (NotARepository r1); inl (Spawn ["git"; "init"] (Some r1));
               inr (RepositoryInitialised r1)] 5).
Proof.
  split.
  - destruct (init_failure_stops_setup
                (script_env [AExists false; ABool true; fails_with 128])
                r1 init_run (mkProc 128 EmptyString EmptyString)
                eq_refl eq_refl eq_refl) as [Hfail _].
    rewrite Hfail; [reflexivity|discriminate].
  - destruct (init_failure_stops_setup
                (script_env [AExists false; ABool true; says EmptyString;
                             ABool false; AText "  "])
                r1 init_run quiet eq_refl eq_refl eq_refl) as [_ Hok].
    apply Hok; reflexivity.
Defined.

(** Witness for X28: no requirements file; both installations refused. *)
Lemma dependency_install_outcomes_witness :
  fst (ensure_dependencies (script_env [AExists false]) "python3" requirements
                           init_run) = Ret tt
  /\ fst (ensure_dependencies
            (script_env [AExists true; fails_with 1; fails_with 1])
            "python3" requirements init_run) = SysExit 1.
Proof.
  split.
  - destruct (dependency_install_outcomes (script_env [AExists false]) "python3"
                requirements init_run) as [Hnone _].
    apply Hnone. reflexivity.
  - destruct (dependency_install_outcomes
                (script_env [AExists true; fails_with 1; fails_with 1]) "python3"
                requirements init_run) as [_ Hthere].
    destruct (Hthere eq_refl (mkProc 1 EmptyString EmptyString) eq_refl)
      as [_ Hfail].
    destruct (Hfail ltac:(discriminate) (mkProc 1 EmptyString EmptyString) eq_refl)
      as [Hout _].
    exact Hout.
Defined.

(** Witness for X29: the first of two projects is declined. *)
Lemma declined_project_stops_run_witness :
  process_projects (script_env [AExists false; ABool false]) 3
                   [mkProject "app" r1; mkProject "lib" r2] init_run
  = (SysExit 1,
     mkRun empty_session
           [inr (PanelProject "app" r1); inr (NotARepository r1);
            inr NotARepositoryCancelled] 2).
Proof.
  apply (declined_project_stops_run (script_env [AExists false; ABool false]) 3
           (mkProject "app" r1) [mkProject "lib" r2] init_run); reflexivity.
Defined.
